(** * go-timeutil: duration grammar, duration formatter and time expressions

    A shallow embedding of package [timeutil], its duration parser and
    formatters and [ParseExprRef], and the proofs of the properties its
    specification states.

    Conventions of the embedding:
    - a Go [string] is a sequence of bytes, here a [string] of [ascii];
    - [uint64] and [int64] values are integers in [Z]; every arithmetic
      operation of the source is followed by its wrap-around;
    - [float64] values are [spec_float]s at precision 53 and [emax] 1024,
      the IEEE 754 binary64 format, with round-to-nearest-even operations;
    - a Go function returning [(T, error)] returns a [result T]. *)

From Stdlib Require Import ZArith List String Ascii Bool Lia.
From Stdlib Require Import Floats.SpecFloat.
Import ListNotations.

Local Open Scope Z_scope.

(** ** Machine integers *)

Module U64.
Definition modulus : Z := 2 ^ 64.
Definition wrap (x : Z) : Z := x mod modulus.
Definition add (x y : Z) : Z := wrap (x + y).
Definition sub (x y : Z) : Z := wrap (x - y).
Definition mul (x y : Z) : Z := wrap (x * y).
(* unsigned division; the divisors of the source are never zero *)
Definition div (x y : Z) : Z := x / y.
End U64.

Module I64.
Definition min : Z := - 2 ^ 63.
Definition max : Z := 2 ^ 63 - 1.
Definition wrap (x : Z) : Z := (x + 2 ^ 63) mod 2 ^ 64 - 2 ^ 63.
Definition neg (x : Z) : Z := wrap (- x).
Definition add (x y : Z) : Z := wrap (x + y).
Definition sub (x y : Z) : Z := wrap (x - y).
Definition mul (x y : Z) : Z := wrap (x * y).
(* Go's [/] and [%] on signed integers truncate towards zero *)
Definition quot (x y : Z) : Z := wrap (Z.quot x y).
Definition rem (x y : Z) : Z := Z.rem x y.
End I64.

(** ** Bytes and strings *)

Definition byte (c : ascii) : Z := Z.of_N (N_of_ascii c).

Definition is_digit (c : ascii) : bool :=
  negb ((byte c <? byte "0") || (byte c >? byte "9")).

(** ** Errors

    The source builds its errors with [errors.New].  An error is modelled by
    the message template it was built from, with the arguments of the
    template; the rendering of the arguments by [quote] is not part of the
    model.  [errLeadingInt] and [errNoTimeSpecified] are the two error
    variables of the package. *)

Inductive error : Type :=
| errInvalidDuration (orig : string)     (* time: invalid duration <orig> *)
| errMissingUnit (orig : string)         (* time: missing unit in duration <orig> *)
| errUnknownUnit (u orig : string)       (* time: unknown unit <u> in duration <orig> *)
| errLeadingInt                          (* time: bad [0-9]* *)
| errNoTimeSpecified                     (* No time specified *)
| errParse (layout value : string).      (* an error of time.Parse *)

Inductive result (A : Type) : Type :=
| Ok (a : A)
| Err (e : error).
Arguments Ok {A} a.
Arguments Err {A} e.

(** ** The numeric lexer *)

(** The loop of [leadingInt], started with the accumulator [x]. *)
Fixpoint leadingInt_from (x : Z) (s : string) : result (Z * string) :=
  match s with
  | EmptyString => Ok (x, s)
  | String c s' =>
      if (byte c <? byte "0") || (byte c >? byte "9") then Ok (x, s)
      else if x >? U64.div (2 ^ 63) 10 then Err errLeadingInt
      else
        let x' := U64.sub (U64.add (U64.mul x 10) (byte c)) (byte "0") in
        if x' >? 2 ^ 63 then Err errLeadingInt
        else leadingInt_from x' s'
  end.

(** [leadingInt] consumes the leading [[0-9]*] from [s]. *)
Definition leadingInt (s : string) : result (Z * string) :=
  leadingInt_from 0 s.

(** ** Double-precision floating point *)

Module F64.
Definition prec : Z := 53.
Definition emax : Z := 1024.
(* conversion of an unsigned integer, rounding to nearest even *)
Definition of_uint64 (x : Z) : spec_float := binary_normalize prec emax x 0 false.
Definition mul (x y : spec_float) : spec_float := SFmul prec emax x y.
Definition div (x y : spec_float) : spec_float := SFdiv prec emax x y.
(* the integer part of a finite value, towards zero; 0 otherwise *)
Definition trunc (x : spec_float) : Z :=
  match x with
  | S754_finite s m e =>
      let a := if e >=? 0 then Zpos m * 2 ^ e else Zpos m / 2 ^ (- e) in
      if s then - a else a
  | _ => 0
  end.
(* [uint64(x)]: Go leaves the conversion of a value outside the range of
   [uint64] to the implementation; the model wraps it *)
Definition to_uint64 (x : spec_float) : Z := U64.wrap (trunc x).
End F64.

(** The loop of [leadingFraction], with its three variables. *)
Fixpoint leadingFraction_from (x : Z) (scale : spec_float) (overflow : bool)
    (s : string) : Z * spec_float * string :=
  match s with
  | EmptyString => (x, scale, s)
  | String c s' =>
      if (byte c <? byte "0") || (byte c >? byte "9") then (x, scale, s)
      else if overflow then leadingFraction_from x scale overflow s'
      else if x >? U64.div (2 ^ 63 - 1) 10 then
        leadingFraction_from x scale true s'
      else
        let y := U64.sub (U64.add (U64.mul x 10) (byte c)) (byte "0") in
        if y >? 2 ^ 63 then leadingFraction_from x scale true s'
        else leadingFraction_from y (F64.mul scale (F64.of_uint64 10)) false s'
  end.

(** [leadingFraction] consumes the leading [[0-9]*] from [s]; it does not
    return an error on overflow, it just stops accumulating precision. *)
Definition leadingFraction (s : string) : Z * spec_float * string :=
  leadingFraction_from 0 (F64.of_uint64 1) false s.

(** ** The unit table *)

Definition Nanosecond : Z := 1.
Definition Microsecond : Z := 1000 * Nanosecond.
Definition Millisecond : Z := 1000 * Microsecond.
Definition Second : Z := 1000 * Millisecond.
Definition Minute : Z := 60 * Second.
Definition Hour : Z := 60 * Minute.
Definition day : Z := Hour * 24.

(* the two spellings of "micro" in UTF-8: U+00B5 and U+03BC *)
Definition micro_sign : string := String "194" (String "181" EmptyString).
Definition greek_mu : string := String "206" (String "188" EmptyString).

Definition unitMap_entries : list (string * Z) :=
  [ ("ns"%string, Nanosecond);
    ("us"%string, Microsecond);
    ((micro_sign ++ "s")%string, Microsecond);
    ((greek_mu ++ "s")%string, Microsecond);
    ("ms"%string, Millisecond);
    ("s"%string, Second);
    ("m"%string, Minute);
    ("h"%string, Hour);
    ("d"%string, Hour * 24);
    ("w"%string, Hour * 24 * 7) ].

Fixpoint lookup (u : string) (m : list (string * Z)) : option Z :=
  match m with
  | [] => None
  | (k, v) :: m' => if String.eqb k u then Some v else lookup u m'
  end.

Definition unitMap (u : string) : option Z := lookup u unitMap_entries.

(** ** The duration grammar parser *)

(** [s[:n]] and [s[n:]]. *)
Fixpoint take (n : nat) (s : string) : string :=
  match n, s with
  | S n', String c s' => String c (take n' s')
  | _, _ => EmptyString
  end.

Fixpoint drop (n : nat) (s : string) : string :=
  match n, s with
  | S n', String c s' => drop n' s'
  | _, _ => s
  end.

(** The index at which the scan of the unit stops: the first byte that is
    ['.'] or a digit, or the length of [s]. *)
Fixpoint unit_end (s : string) : nat :=
  match s with
  | EmptyString => O
  | String c s' =>
      if (byte c =? byte ".") || ((byte "0" <=? byte c) && (byte c <=? byte "9"))
      then O
      else S (unit_end s')
  end.

(** One iteration of the [for] loop of [ParseDuration], on the
    non-empty input [String c0 t] with the accumulator [d]: the rest of the
    input and the new accumulator, or the error the function returns. *)
Definition parse_token (orig : string) (c0 : ascii) (t : string) (d : Z)
    : result (string * Z) :=
  let s := String c0 t in
  (* The next character must be a digit or a period *)
  if negb ((byte c0 =? byte ".")
           || ((byte "0" <=? byte c0) && (byte c0 <=? byte "9")))
  then Err (errInvalidDuration orig)
  else
    (* Consume the leading digits *)
    let pl := String.length s in
    match leadingInt s with
    | Err _ => Err (errInvalidDuration orig)
    | Ok (v, s1) =>
      (* whether we consumed anything before a period *)
      let pre := negb (pl =? String.length s1)%nat in
      (* Consume the optional fraction: a period and digits *)
      let '(f, scale, s2, post) :=
        match s1 with
        | String c s1' =>
            if byte c =? byte "." then
              let pl := String.length s1' in
              let '(f, scale, s2) := leadingFraction s1' in
              (f, scale, s2, negb (pl =? String.length s2)%nat)
            else (0, F64.of_uint64 1, s1, false)
        | EmptyString => (0, F64.of_uint64 1, s1, false)
        end in
      if negb pre && negb post
      then Err (errInvalidDuration orig)   (* no digits *)
      else
        (* Consume unit. *)
        let i := unit_end s2 in
        if (i =? 0)%nat then Err (errMissingUnit orig)
        else
          let u := take i s2 in
          let s3 := drop i s2 in
          match unitMap u with
          | None => Err (errUnknownUnit u orig)
          | Some unit =>
            if v >? U64.div (2 ^ 63) unit
            then Err (errInvalidDuration orig)   (* overflow *)
            else
              let v := U64.mul v unit in
              let v' :=
                if f >? 0 then
                  U64.add v
                    (F64.to_uint64
                       (F64.mul (F64.of_uint64 f)
                          (F64.div (F64.of_uint64 unit) scale)))
                else v in
              if (f >? 0) && (v' >? 2 ^ 63)
              then Err (errInvalidDuration orig)   (* overflow *)
              else
                let d := U64.add d v' in
                if d >? 2 ^ 63
                then Err (errInvalidDuration orig)
                else Ok (s3, d)
          end
    end.

(** The loop itself.  Every iteration consumes at least one byte of [s];
    [fuel] bounds the number of iterations and [None] is returned when it
    runs out. *)
Fixpoint parse_tokens (fuel : nat) (orig s : string) (d : Z)
    : option (result Z) :=
  match s with
  | EmptyString => Some (Ok d)
  | String c0 t =>
      match fuel with
      | O => None
      | S fuel' =>
          match parse_token orig c0 t d with
          | Err e => Some (Err e)
          | Ok (s', d') => parse_tokens fuel' orig s' d'
          end
      end
  end.

(** Consume [[-+]?]: the sign and the rest of the input. *)
Definition consume_sign (s : string) : bool * string :=
  match s with
  | String c s' =>
      if (byte c =? byte "-") || (byte c =? byte "+")
      then (byte c =? byte "-", s')
      else (false, s)
  | EmptyString => (false, s)
  end.

(** [ParseDuration] parses a duration string.  The result is [None] only if
    the loop ran out of fuel, which [ParseDuration_total] excludes. *)
Definition ParseDuration (s : string) : option (result Z) :=
  let orig := s in
  let '(neg, s) := consume_sign s in
  (* Special case: if all that is left is "0", this is zero. *)
  if String.eqb s "0" then Some (Ok 0)
  else if String.eqb s EmptyString then Some (Err (errInvalidDuration orig))
  else
    match parse_tokens (String.length s) orig s 0 with
    | None => None
    | Some (Err e) => Some (Err e)
    | Some (Ok d) =>
        if neg then Some (Ok (I64.neg (I64.wrap d)))
        else if d >? 2 ^ 63 - 1 then Some (Err (errInvalidDuration orig))
        else Some (Ok (I64.wrap d))
    end.

(** ** The duration formatter *)

Local Open Scope string_scope.
Local Open Scope Z_scope.

Definition digit_char (d : Z) : ascii := ascii_of_N (Z.to_N (byte "0" + d)).

(** The digit loop of [fmt]'s integer formatting: the decimal digits of [u]
    are put in front of [acc], least significant first.  An unsigned 64-bit
    value has at most 20 digits. *)
Fixpoint fmt_digits (fuel : nat) (u : Z) (acc : string) : string :=
  match fuel with
  | O => acc
  | S fuel' =>
      if u <? 10 then String (digit_char u) acc
      else fmt_digits fuel' (u / 10) (String (digit_char (u mod 10)) acc)
  end.

(** [fmt.Sprintf("%d", v)] for a signed 64-bit [v]. *)
Definition fmt_d (v : Z) : string :=
  if v <? 0 then String "-" (fmt_digits 20 (- v) EmptyString)
  else fmt_digits 20 v EmptyString.

Definition formatHigh (d : Z) : string :=
  let f := EmptyString in
  let d := I64.quot d Second in
  let v := I64.rem d 60 in
  let f := if negb (v =? 0) then fmt_d v ++ "s" ++ f else f in
  let d := I64.quot d 60 in
  let v := I64.rem d 60 in
  let f := if negb (v =? 0) then fmt_d v ++ "m" ++ f else f in
  let d := I64.quot d 60 in
  let v := I64.rem d 24 in
  let f := if negb (v =? 0) then fmt_d v ++ "h" ++ f else f in
  let d := I64.quot d 24 in
  let f := if d >? 0 then fmt_d d ++ "d" ++ f else f in
  f.

Definition formatLow (d : Z) : string :=
  let f := EmptyString in
  let d := I64.rem d Second in
  let v := I64.rem d 1000 in
  let f := if negb (v =? 0) then fmt_d v ++ "ns" ++ f else f in
  let d := I64.quot d 1000 in
  let v := I64.rem d 1000 in
  let f := if negb (v =? 0) then fmt_d v ++ (micro_sign ++ "s") ++ f else f in
  let d := I64.quot d 1000 in
  let f := if d >? 0 then fmt_d d ++ "ms" ++ f else f in
  f.

Definition FormatDuration (d : Z) : string :=
  if d =? 0 then "0s" else formatHigh d ++ formatLow d.

(** [time.Duration.Truncate]: [d] rounded toward zero to a multiple of [m]. *)
Definition Duration_Truncate (d m : Z) : Z :=
  if m <=? 0 then d else I64.sub d (I64.rem d m).

Definition FormatSimplifiedDuration (d : Z) : string :=
  if d >? I64.mul Hour 24 then
    fmt_d (I64.quot (Duration_Truncate d (I64.mul Hour 24)) (I64.mul Hour 24))
    ++ "d "
    ++ fmt_d (I64.quot (I64.rem d (I64.mul Hour 24)) Hour) ++ "h"
  else if d >? Hour then
    fmt_d (I64.quot (Duration_Truncate d Hour) Hour) ++ "h"
  else if d >? Minute then
    fmt_d (I64.quot (Duration_Truncate d Minute) Minute) ++ "m"
  else if d >? Second then
    fmt_d (I64.quot (Duration_Truncate d Second) Second) ++ "s"
  else if d >? Millisecond then
    fmt_d (I64.quot (Duration_Truncate d Millisecond) Millisecond) ++ "ms"
  else if d >? Microsecond then
    fmt_d (I64.quot (Duration_Truncate d Microsecond) Microsecond)
    ++ (micro_sign ++ "s")
  else
    fmt_d d ++ "ns".

Local Close Scope string_scope.

(** ** Instants

    A [time.Time] is an instant and a location.  The instant is kept the way
    package [time] keeps it: whole seconds since January 1, year 1 00:00:00
    UTC, an [int64] (what the method [sec] returns), and the nanoseconds
    within the second, from 0 to 999999999.  The location is a fixed offset
    in seconds east of UTC, as made by [time.FixedZone]; [time.UTC] is
    offset 0.  The monotonic clock reading is not modelled.

    The seconds are a [Z], with the bounds of [int64] written out:
    [Time_wf] says that a value is one a [time.Time] can hold, and the
    functions below do to the seconds what the 64-bit arithmetic of the
    package does, so that [Time_Add] and [time_Date] return [int64]
    seconds whatever they are given. *)

Record Time : Type := mkTime {
  abs_sec : Z;
  nsec : Z;
  zone_offset : Z
}.

(** The values a [time.Time] holds. *)
Definition Time_wf (t : Time) : Prop :=
  I64.min <= abs_sec t <= I64.max /\ 0 <= nsec t < 1000000000.

(** The first second of the absolute zero year of package [time], year
    -292277022399, counted from January 1, year 1.  The calendar of the
    package, [Date] and [Clock], starts there: the package says of earlier
    instants that they will not compute correctly. *)
Definition absoluteToInternal : Z := -9223371966579724800.

Definition secondsPerDay : Z := 86400.

(** Days from January 1, year 1 to the civil date [y]-[m]-[d] of the
    proleptic Gregorian calendar; [d] may lie outside the month. *)
Definition days_from_civil (y m d : Z) : Z :=
  let y := if m <=? 2 then y - 1 else y in
  let era := y / 400 in
  let yoe := y - era * 400 in
  let doy := (153 * (if m >? 2 then m - 3 else m + 9) + 2) / 5 + d - 1 in
  let doe := yoe * 365 + yoe / 4 - yoe / 100 + doy in
  era * 146097 + doe - 306.

(** The civil date of a day counted from January 1, year 1. *)
Definition civil_from_days (z : Z) : Z * Z * Z :=
  let z := z + 306 in
  let era := z / 146097 in
  let doe := z - era * 146097 in
  let yoe := (doe - doe / 1460 + doe / 36524 - doe / 146096) / 365 in
  let y := yoe + era * 400 in
  let doy := doe - (365 * yoe + yoe / 4 - yoe / 100) in
  let mp := (5 * doy + 2) / 153 in
  let d := doy - (153 * mp + 2) / 5 + 1 in
  let m := if mp <? 10 then mp + 3 else mp - 9 in
  (if m <=? 2 then y + 1 else y, m, d).

(** Seconds since January 1, year 1 on the clock of [t]'s location. *)
Definition local_sec (t : Time) : Z := abs_sec t + zone_offset t.

(** [t.Date()]: year, month and day in [t]'s location, for an instant
    that is not before [absoluteToInternal] on the clock of the location. *)
Definition Time_Date (t : Time) : Z * Z * Z :=
  civil_from_days (local_sec t / secondsPerDay).

(** [t.Clock()]: hour, minute and second within the day in [t]'s location,
    for such an instant. *)
Definition Time_Clock (t : Time) : Z * Z * Z :=
  let s := local_sec t mod secondsPerDay in
  (s / 3600, (s mod 3600) / 60, s mod 60).

(** [time.Date]: the instant of a civil date and clock reading in the
    location with offset [off]; values outside their usual ranges are
    normalised by carrying into the next larger field.  The package adds
    the seconds up in 64-bit integers, which wrap around. *)
Definition time_Date (year month day hour min sec ns off : Z) : Time :=
  let m := month - 1 in
  let year := year + m / 12 in
  let month := m mod 12 + 1 in
  let sec := sec + ns / 1000000000 in
  let ns := ns mod 1000000000 in
  let local :=
    days_from_civil year month day * secondsPerDay
    + hour * 3600 + min * 60 + sec in
  mkTime (I64.wrap (local - off)) ns off.

(** [addSec]: the seconds plus [d]; a sum that overflows is replaced by the
    largest [int64], or by its opposite when [d] is negative. *)
Definition Time_addSec (sec d : Z) : Z :=
  let sum := I64.add sec d in
  if Bool.eqb (sum >? sec) (d >? 0) then sum
  else if d >? 0 then 2 ^ 63 - 1
  else - (2 ^ 63 - 1).

(** [t.Add(d)]. *)
Definition Time_Add (t : Time) (d : Z) : Time :=
  let dsec := I64.quot d 1000000000 in
  let ns := nsec t + I64.rem d 1000000000 in
  if ns >=? 1000000000 then
    mkTime (Time_addSec (abs_sec t) (dsec + 1)) (ns - 1000000000) (zone_offset t)
  else if ns <? 0 then
    mkTime (Time_addSec (abs_sec t) (dsec - 1)) (ns + 1000000000) (zone_offset t)
  else mkTime (Time_addSec (abs_sec t) dsec) ns (zone_offset t).

(** [t.Truncate(d)]: [t] rounded down to a multiple of [d] since the zero
    time.  It works on the instant, not on its presentation in [t]'s
    location. *)
Definition Time_Truncate (t : Time) (d : Z) : Time :=
  if d <=? 0 then t
  else
    let r := (abs_sec t * 1000000000 + nsec t) mod d in
    Time_Add t (- r).

(** [t.AddDate(years, months, days)]: [time.Date] of the date and clock
    reading of [t] with the years, months and days added. *)
Definition Time_AddDate (t : Time) (years months days : Z) : Time :=
  let '(year, month, day) := Time_Date t in
  let '(hour, min, sec) := Time_Clock t in
  time_Date (year + years) (month + months) (day + days) hour min sec
    (nsec t) (zone_offset t).

(** [t.Format("2006")]: the year, at least four digits. *)
Definition Time_Format_year (t : Time) : string :=
  let '(year, _, _) := Time_Date t in
  let digits := fmt_d (Z.abs year) in
  let padded :=
    (String.concat EmptyString (repeat "0"%string (4 - String.length digits)) ++ digits)%string in
  if year <? 0 then String "-" padded else padded.

(** ** Time expressions *)

(** The UTF-8 encodings of the code points [unicode.IsSpace] accepts. *)
Definition space_runes : list string :=
  [ String "009" EmptyString; String "010" EmptyString;
    String "011" EmptyString; String "012" EmptyString;
    String "013" EmptyString; String "032" EmptyString;
    String "194" (String "133" EmptyString);
    String "194" (String "160" EmptyString);
    String "225" (String "154" (String "128" EmptyString)) ]
  ++ map (fun b => String "226" (String "128" (String (ascii_of_nat b) EmptyString)))
       [128; 129; 130; 131; 132; 133; 134; 135; 136; 137; 138; 168; 169; 175]%nat
  ++ [ String "226" (String "129" (String "159" EmptyString));
       String "227" (String "128" (String "128" EmptyString)) ].

Fixpoint string_rev (s : string) : string :=
  match s with
  | EmptyString => EmptyString
  | String c s' => (string_rev s' ++ String c EmptyString)%string
  end.

(** The number of bytes of the space at the start of [s], 0 if there is
    none. *)
Definition leading_space (runes : list string) (s : string) : nat :=
  match find (fun r => String.prefix r s) runes with
  | Some r => String.length r
  | None => O
  end.

Fixpoint trim_start (fuel : nat) (runes : list string) (s : string) : string :=
  match fuel with
  | O => s
  | S fuel' =>
      match leading_space runes s with
      | O => s
      | n => trim_start fuel' runes (drop n s)
      end
  end.

(** [strings.TrimSpace]: [s] without leading and trailing white space. *)
Definition TrimSpace (s : string) : string :=
  let s := trim_start (String.length s) space_runes s in
  string_rev
    (trim_start (String.length s) (map string_rev space_runes) (string_rev s)).

Definition formatDate : string := "2006-01-02".
Definition formatShortDate : string := "01-02".
Definition RFC3339 : string := "2006-01-02T15:04:05Z07:00".

Section Expressions.

(** [time.Parse] of package [time] is taken as given. *)
Variable time_Parse : string -> string -> result Time.

(** [ParseExprRef] parses a time expression and returns the point in time
    that it represents, relative to the reference time [ref].  As for
    [ParseDuration], [None] stands for a loop out of fuel. *)
Definition ParseExprRef (s : string) (ref : Time) : option (result Time) :=
  let v := TrimSpace s in
  if String.eqb v EmptyString then Some (Err errNoTimeSpecified)
  else if String.eqb v "today" then
    Some (Ok (Time_Truncate ref (I64.mul Hour 24)))
  else if String.eqb v "yesterday" then
    Some (Ok (Time_AddDate (Time_Truncate ref (I64.mul Hour 24)) 0 0 (-1)))
  else if String.eqb v "tomorrow" then
    Some (Ok (Time_AddDate (Time_Truncate ref (I64.mul Hour 24)) 0 0 1))
  else if String.eqb v "now" then Some (Ok ref)
  else
    match v with
    | EmptyString => Some (Err errNoTimeSpecified)
    | String f _ =>
        if (byte f =? byte "+") || (byte f =? byte "-") then
          match ParseDuration v with
          | None => None
          | Some (Err e) => Some (Err e)
          | Some (Ok d) => Some (Ok (Time_Add ref d))
          end
        else if (String.length v =? String.length formatShortDate)%nat then
          Some (time_Parse formatDate (Time_Format_year ref ++ "-" ++ v)%string)
        else if (String.length v =? String.length formatDate)%nat then
          Some (time_Parse formatDate v)
        else
          Some (time_Parse RFC3339 v)
    end.

End Expressions.

(** ** Quoting *)

Definition lowerhex : string := "0123456789abcdef".
Definition runeSelf : Z := 0x80.
Definition runeError : Z := 0xFFFD.

(** [s[n]] for a byte index in range. *)
Definition byte_at (n : nat) (s : string) : option ascii := String.get n s.

(** [lowerhex[n]]; [n] is a half byte, below 16. *)
Definition hex_digit (n : Z) : ascii :=
  match byte_at (Z.to_nat n) lowerhex with
  | Some c => c
  | None => "000"%char
  end.

Definition in_range (lo hi : Z) (c : ascii) : bool :=
  (lo <=? byte c) && (byte c <=? hi).

(** The first rune of the input [String c0 t] and the number of bytes it
    takes, as a [for range] loop over a string decodes it: bytes that are
    not the UTF-8 encoding of a code point give [runeError] and one
    byte. *)
Definition decode_rune (c0 : ascii) (t : string) : Z * nat :=
  let b0 := byte c0 in
  if b0 <? 0x80 then (b0, 1%nat)
  else if b0 <? 0xC2 then (runeError, 1%nat)
  else if b0 <? 0xE0 then
    match t with
    | String c1 _ =>
        if in_range 0x80 0xBF c1
        then ((b0 - 0xC0) * 64 + (byte c1 - 0x80), 2%nat)
        else (runeError, 1%nat)
    | _ => (runeError, 1%nat)
    end
  else if b0 <? 0xF0 then
    let lo := if b0 =? 0xE0 then 0xA0 else 0x80 in
    let hi := if b0 =? 0xED then 0x9F else 0xBF in
    match t with
    | String c1 (String c2 _) =>
        if in_range lo hi c1 && in_range 0x80 0xBF c2
        then (((b0 - 0xE0) * 64 + (byte c1 - 0x80)) * 64 + (byte c2 - 0x80),
              3%nat)
        else (runeError, 1%nat)
    | _ => (runeError, 1%nat)
    end
  else if b0 <? 0xF5 then
    let lo := if b0 =? 0xF0 then 0x90 else 0x80 in
    let hi := if b0 =? 0xF4 then 0x8F else 0xBF in
    match t with
    | String c1 (String c2 (String c3 _)) =>
        if in_range lo hi c1 && in_range 0x80 0xBF c2 && in_range 0x80 0xBF c3
        then ((((b0 - 0xF0) * 64 + (byte c1 - 0x80)) * 64 + (byte c2 - 0x80)) * 64
              + (byte c3 - 0x80), 4%nat)
        else (runeError, 1%nat)
    | _ => (runeError, 1%nat)
    end
  else (runeError, 1%nat).

Definition byte_char (b : Z) : ascii := ascii_of_N (Z.to_N b).

(** [string(c)] for a rune [c]: its UTF-8 encoding, that of [runeError] for
    a value that is not a code point. *)
Definition string_of_rune (c : Z) : string :=
  if (0 <=? c) && (c <? 0x80) then String (byte_char c) EmptyString
  else if (0x80 <=? c) && (c <? 0x800) then
    String (byte_char (0xC0 + c / 64))
      (String (byte_char (0x80 + c mod 64)) EmptyString)
  else if ((0x800 <=? c) && (c <? 0xD800)) || ((0xE000 <=? c) && (c <? 0x10000))
  then
    String (byte_char (0xE0 + c / 4096))
      (String (byte_char (0x80 + (c / 64) mod 64))
         (String (byte_char (0x80 + c mod 64)) EmptyString))
  else if (0x10000 <=? c) && (c <=? 0x10FFFF) then
    String (byte_char (0xF0 + c / 262144))
      (String (byte_char (0x80 + (c / 4096) mod 64))
         (String (byte_char (0x80 + (c / 64) mod 64))
            (String (byte_char (0x80 + c mod 64)) EmptyString)))
  else
    String "239" (String "191" (String "189" EmptyString)).

(** The inner loop of [quote]: [width] bytes from the start of [s], each
    written as a backslash, an [x] and two hexadecimal digits.  [None] is
    an index out of range. *)
Fixpoint escape_bytes (width : nat) (s : string) (buf : string)
    : option string :=
  match width with
  | O => Some buf
  | S width' =>
      match s with
      | EmptyString => None
      | String b s' =>
          escape_bytes width' s'
            (buf ++ String "\" (String "x"
                      (String (hex_digit (Z.shiftr (byte b) 4))
                         (String (hex_digit (Z.land (byte b) 0xF))
                            EmptyString))))%string
      end
  end.

(** The [for range] loop of [quote] on the rest [s] of the input.  Every
    iteration consumes at least one byte; [fuel] bounds their number. *)
Fixpoint quote_loop (fuel : nat) (s : string) (buf : string) : option string :=
  match s with
  | EmptyString => Some buf
  | String c0 t =>
      match fuel with
      | O => None
      | S fuel' =>
          let '(c, size) := decode_rune c0 t in
          let buf' :=
            if (c >=? runeSelf) || (c <? byte " ") then
              let width :=
                if c =? runeError then
                  if (3 <=? String.length s)%nat
                     && String.eqb (take 3 s) (string_of_rune runeError)
                  then 3%nat else 1%nat
                else String.length (string_of_rune c) in
              escape_bytes width s buf
            else
              let buf :=
                if (c =? byte "034") || (c =? byte "\")
                then (buf ++ String "\" EmptyString)%string else buf in
              Some (buf ++ string_of_rune c)%string in
          match buf' with
          | None => None
          | Some buf' => quote_loop fuel' (drop size s) buf'
          end
      end
  end.

(** [quote]: the input between double quotes, with its control and
    non-ASCII bytes escaped.  [None] would be a panic or a loop out of
    fuel; [quote_bytewise] excludes both. *)
Definition quote (s : string) : option string :=
  match quote_loop (String.length s) s (String "034" EmptyString) with
  | None => None
  | Some buf => Some (buf ++ String "034" EmptyString)%string
  end.

(** The text of an error, as the source builds it with [errors.New]; the
    errors of [time.Parse] have none here. *)
Definition error_message (e : error) : option string :=
  match e with
  | errInvalidDuration orig =>
      match quote orig with
      | Some q => Some ("time: invalid duration " ++ q)%string
      | None => None
      end
  | errMissingUnit orig =>
      match quote orig with
      | Some q => Some ("time: missing unit in duration " ++ q)%string
      | None => None
      end
  | errUnknownUnit u orig =>
      match quote u, quote orig with
      | Some qu, Some q =>
          Some ("time: unknown unit " ++ qu ++ " in duration " ++ q)%string
      | _, _ => None
      end
  | errLeadingInt => Some "time: bad [0-9]*"%string
  | errNoTimeSpecified => Some "No time specified"%string
  | errParse _ _ => None
  end.

(** ** Notions used in the statements *)

(** The values of the decimal digits at the start of [s]. *)
Fixpoint digit_run (s : string) : list Z :=
  match s with
  | EmptyString => []
  | String c s' =>
      if is_digit c then (byte c - byte "0") :: digit_run s' else []
  end.

(** [s] after its leading digits. *)
Fixpoint skip_digits (s : string) : string :=
  match s with
  | EmptyString => s
  | String c s' => if is_digit c then skip_digits s' else s
  end.

(** The number whose decimal digits are [ds], computed without any bound,
    starting from [x]. *)
Definition decimal_value_from (x : Z) (ds : list Z) : Z :=
  fold_left (fun a d => 10 * a + d) ds x.

Definition decimal_value (ds : list Z) : Z := decimal_value_from 0 ds.

(** A byte that belongs to a unit: neither a period nor a digit. *)
Definition unit_byte (c : ascii) : bool :=
  negb ((byte c =? byte ".") || ((byte "0" <=? byte c) && (byte c <=? byte "9"))).

Fixpoint unit_text (u : string) : bool :=
  match u with
  | EmptyString => true
  | String c u' => unit_byte c && unit_text u'
  end.

(** [s] is empty or starts with a digit: what may follow a unit in a
    canonical rendering. *)
Definition token_start (s : string) : bool :=
  match s with
  | EmptyString => true
  | String c _ => is_digit c
  end.

(** The token loop, started on [s] with the accumulator [d], returns [r]. *)
Definition parses (orig s : string) (d : Z) (r : result Z) : Prop :=
  exists fuel, parse_tokens fuel orig s d = Some r.

(** One component of the canonical rendering: nothing for zero, else the
    number followed by its unit. *)
Definition component (v : Z) (u : string) : string :=
  if v =? 0 then EmptyString else (fmt_d v ++ u)%string.

(** The error kinds the specification names, and the kind of each error of
    the code.  [ParseDuration] has three messages: "invalid duration",
    "missing unit" and "unknown unit"; it reports an overflow with the
    first of them.  Only the sentinel of [leadingInt] stands for overflow
    alone. *)
Inductive ErrorKind : Type :=
| InvalidDuration
| MissingUnit
| UnknownUnit
| Overflow
| NoTimeSpecified
| InvalidDateOrTimestamp.

Definition error_kind (e : error) : ErrorKind :=
  match e with
  | errInvalidDuration _ => InvalidDuration
  | errMissingUnit _ => MissingUnit
  | errUnknownUnit _ _ => UnknownUnit
  | errLeadingInt => Overflow
  | errNoTimeSpecified => NoTimeSpecified
  | errParse _ _ => InvalidDateOrTimestamp
  end.

(** [s] has a minus sign in it. *)
Fixpoint has_minus (s : string) : bool :=
  match s with
  | EmptyString => false
  | String c s' => (byte c =? byte "-") || has_minus s'
  end.

(** A string of decimal digits. *)
Fixpoint all_digits (s : string) : bool :=
  match s with
  | EmptyString => true
  | String c s' => is_digit c && all_digits s'
  end.

(** The scale after [k] accumulated digits: 1 multiplied [k] times by 10 in
    double precision. *)
Definition scale_after (k : nat) (scale : spec_float) : spec_float :=
  Nat.iter k (fun sc => F64.mul sc (F64.of_uint64 10)) scale.

(** [x] is +0 or a positive finite number below [2 ^ B]. *)
Definition small (B : Z) (x : spec_float) : Prop :=
  match x with
  | S754_zero false => True
  | S754_finite false m e => Zdigits2 (Zpos m) + e <= B
  | _ => False
  end.

(** The largest numerator [leadingFraction] can return with [k] digits
    accumulated. *)
Definition max_numerator (k : nat) : Z := Z.min (10 ^ Z.of_nat k - 1) (2 ^ 63).

(** The quotient of [unit] by [scale] is +0, or so small that its product
    with a numerator of [k] digits stays below [2 ^ 62]. *)
Definition quotient_ok (unit : Z) (k : nat) (scale : spec_float) : bool :=
  match F64.div (F64.of_uint64 unit) scale with
  | S754_zero false => true
  | S754_finite false m e =>
      Zdigits2 (Zpos m) + e + Zdigits2 (max_numerator k) + 2 <=? 62
  | _ => false
  end.

(** [quotient_ok] for every unit of the table and the [n] scales from
    [scale], the scale after [k] digits, on. *)
Fixpoint scales_ok (n k : nat) (scale : spec_float) : bool :=
  match n with
  | O => true
  | S n' =>
      forallb (fun e => quotient_ok (snd e) k scale) unitMap_entries
      && scales_ok n' (S k) (F64.mul scale (F64.of_uint64 10))
  end.

(** [s] is empty or starts with a digit or a period: where the scan of a
    unit stops. *)
Definition number_start (s : string) : bool :=
  match s with
  | EmptyString => true
  | String c _ => (byte c =? byte ".") || is_digit c
  end.

(** Every byte of [s] satisfies [p]. *)
Fixpoint all_bytes (p : ascii -> bool) (s : string) : bool :=
  match s with
  | EmptyString => true
  | String c s' => p c && all_bytes p s'
  end.

(** The byte [c] occurs in [s]. *)
Fixpoint has_byte (c : ascii) (s : string) : bool :=
  match s with
  | EmptyString => false
  | String c' s' => Ascii.eqb c' c || has_byte c s'
  end.

(** The bytes of the duration grammar: the digits, the period and the bytes
    of the units of the table. *)
Definition grammar_byte (c : ascii) : bool :=
  is_digit c || (byte c =? byte ".")
  || existsb (fun e => has_byte c (fst e)) unitMap_entries.

(** The bytes of a canonical rendering: the digits and the bytes of the
    units ["d"], ["h"], ["m"], ["s"], ["ms"], the micro sign with ["s"],
    and ["ns"]. *)
Definition canonical_byte (c : ascii) : bool :=
  is_digit c || has_byte c ("dhmsn" ++ micro_sign).

(** One byte as [quote] writes it when it takes the bytes one by one. *)
Definition quote_byte (b : ascii) : string :=
  if (byte b >=? 0x80) || (byte b <? 0x20) then
    String "\" (String "x"
      (String (hex_digit (Z.shiftr (byte b) 4))
         (String (hex_digit (Z.land (byte b) 0xF)) EmptyString)))
  else if (byte b =? byte "034") || (byte b =? byte "\") then
    String "\" (String b EmptyString)
  else String b EmptyString.

Fixpoint quote_bytes (s : string) : string :=
  match s with
  | EmptyString => EmptyString
  | String b s' => (quote_byte b ++ quote_bytes s')%string
  end.

(** A byte that [quote] escapes: a control byte or a byte that is not
    ASCII. *)
Definition escaped_byte (b : ascii) : bool :=
  (byte b >=? 0x80) || (byte b <? 0x20).

(** A printable ASCII byte, or DEL: from 0x20 to 0x7F. *)
Definition ascii_text_byte (c : ascii) : bool :=
  (0x20 <=? byte c) && (byte c <=? 0x7F).

(** The value of a hexadecimal digit of [lowerhex]. *)
Definition hex_value (c : ascii) : Z :=
  if is_digit c then byte c - byte "0" else byte c - byte "a" + 10.

(** The ASCII white space: tab, line feed, vertical tab, form feed,
    carriage return and space. *)
Definition ascii_space (c : ascii) : bool :=
  ((9 <=? byte c) && (byte c <=? 13)) || (byte c =? 32).

(** A visible ASCII byte, from ['!'] to ['~']. *)
Definition graphic_byte (c : ascii) : bool :=
  (33 <=? byte c) && (byte c <=? 126).

(** The last byte of [s]. *)
Definition last_byte (s : string) : option ascii :=
  match string_rev s with
  | EmptyString => None
  | String l _ => Some l
  end.

(** The instant of [t] in nanoseconds since the zero time. *)
Definition instant_ns (t : Time) : Z := abs_sec t * 1000000000 + nsec t.

(** [s] is empty or ends with a visible ASCII byte. *)
Definition ends_graphic (s : string) : bool :=
  match last_byte s with
  | None => true
  | Some l => graphic_byte l
  end.

(** * Proofs *)

(** ** Bytes and digits *)

Lemma byte_range (c : ascii) : 0 <= byte c < 256.
Proof.
  unfold byte. destruct c as [[] [] [] [] [] [] [] []]; vm_compute; split; congruence.
Qed.

Lemma byte_0 : byte "0" = 48.
Proof. reflexivity. Qed.

Lemma byte_9 : byte "9" = 57.
Proof. reflexivity. Qed.

Lemma is_digit_test (c : ascii) :
  (byte c <? byte "0") || (byte c >? byte "9") = negb (is_digit c).
Proof. unfold is_digit. now rewrite negb_involutive. Qed.

Lemma is_digit_bounds (c : ascii) :
  is_digit c = true <-> 48 <= byte c <= 57.
Proof.
  unfold is_digit. rewrite byte_0, byte_9, negb_true_iff, orb_false_iff.
  rewrite Z.ltb_ge, Z.gtb_ltb, Z.ltb_ge. tauto.
Qed.

Lemma is_digit_false (c : ascii) :
  is_digit c = false <-> byte c < 48 \/ 57 < byte c.
Proof.
  unfold is_digit. rewrite byte_0, byte_9, negb_false_iff, orb_true_iff.
  rewrite Z.ltb_lt, Z.gtb_ltb, Z.ltb_lt. tauto.
Qed.

(** One accumulation step of the lexers does not wrap around when the
    accumulator has passed the check that guards it. *)
Lemma lexer_step_exact (x : Z) (c : ascii) :
  0 <= x <= 2 ^ 63 / 10 -> is_digit c = true ->
  U64.sub (U64.add (U64.mul x 10) (byte c)) 48 = 10 * x + (byte c - 48).
Proof.
  intros Hx Hc. apply is_digit_bounds in Hc.
  change (2 ^ 63 / 10) with 922337203685477580 in Hx.
  unfold U64.sub, U64.add, U64.mul, U64.wrap, U64.modulus.
  change (2 ^ 64) with 18446744073709551616.
  rewrite (Z.mod_small (x * 10)) by lia.
  rewrite (Z.mod_small (x * 10 + byte c)) by lia.
  rewrite Z.mod_small by lia. lia.
Qed.

(** ** The integer lexer *)

Lemma decimal_value_from_mono (ds : list Z) (x : Z) :
  0 <= x -> Forall (fun d => 0 <= d) ds -> x <= decimal_value_from x ds.
Proof.
  revert x. induction ds as [|d ds IH]; intros x Hx Hds.
  - unfold decimal_value_from. simpl. lia.
  - inversion Hds as [|? ? Hd Hds']; subst.
    assert (H : 10 * x + d <= decimal_value_from (10 * x + d) ds)
      by (apply IH; [lia|exact Hds']).
    unfold decimal_value_from in *. cbn [fold_left]. lia.
Qed.

Lemma digit_run_nonneg (s : string) : Forall (fun d => 0 <= d) (digit_run s).
Proof.
  induction s as [|c s IH]; simpl; [constructor|].
  destruct (is_digit c) eqn:E; [|constructor].
  constructor; [|exact IH]. apply is_digit_bounds in E. rewrite byte_0. lia.
Qed.

(** The loop of [leadingInt] fails exactly when some prefix of the digits,
    read as an unbounded number on top of the accumulator, passes 2^63. *)
Lemma leadingInt_from_err_iff (s : string) (x : Z) :
  0 <= x <= 2 ^ 63 ->
  leadingInt_from x s = Err errLeadingInt <->
  exists n, (n <= List.length (digit_run s))%nat
            /\ 2 ^ 63 < decimal_value_from x (firstn n (digit_run s)).
Proof.
  revert x. induction s as [|c s IH]; intros x Hx.
  - cbn [leadingInt_from digit_run]. split; [discriminate|]. intros [n [_ H]].
    rewrite firstn_nil in H. cbv [decimal_value_from fold_left] in H. lia.
  - cbn [leadingInt_from digit_run]. rewrite is_digit_test.
    destruct (is_digit c) eqn:Ec; cbn [negb].
    + assert (Hd : 0 <= byte c - 48 <= 9) by (apply is_digit_bounds in Ec; lia).
      unfold U64.div. rewrite !byte_0.
      destruct (x >? 2 ^ 63 / 10) eqn:Epre.
      * split; [intros _|reflexivity]. exists 1%nat.
        split; [cbn [List.length]; lia|].
        cbv [firstn decimal_value_from fold_left].
        rewrite Z.gtb_ltb, Z.ltb_lt in Epre.
        change (2 ^ 63 / 10) with 922337203685477580 in Epre.
        change (2 ^ 63) with 9223372036854775808. lia.
      * rewrite Z.gtb_ltb, Z.ltb_ge in Epre.
        rewrite lexer_step_exact by (auto; lia).
        destruct (10 * x + (byte c - 48) >? 2 ^ 63) eqn:Epost.
        -- split; [intros _|reflexivity]. exists 1%nat.
           split; [cbn [List.length]; lia|].
           cbv [firstn decimal_value_from fold_left].
           rewrite Z.gtb_ltb, Z.ltb_lt in Epost. lia.
        -- rewrite Z.gtb_ltb, Z.ltb_ge in Epost.
           rewrite IH by lia. split.
           ++ intros [n [Hn H]]. exists (S n).
              split; [cbn [List.length]; lia|exact H].
           ++ intros [[|n] [Hn H]].
              ** cbv [firstn decimal_value_from fold_left] in H. lia.
              ** exists n. split; [cbn [List.length] in Hn; lia|exact H].
    + split; [discriminate|]. intros [n [_ H]].
      rewrite firstn_nil in H. cbv [decimal_value_from fold_left] in H. lia.
Qed.

(** When it does not fail, the loop returns the unbounded value of the whole
    digit run and the input after the digits. *)
Lemma leadingInt_from_ok (s : string) (x : Z) :
  0 <= x <= 2 ^ 63 ->
  leadingInt_from x s <> Err errLeadingInt ->
  leadingInt_from x s = Ok (decimal_value_from x (digit_run s), skip_digits s).
Proof.
  revert x. induction s as [|c s IH]; intros x Hx;
    cbn [leadingInt_from digit_run skip_digits].
  - reflexivity.
  - rewrite is_digit_test. destruct (is_digit c) eqn:Ec; cbn [negb]; [|reflexivity].
    assert (Hd : 0 <= byte c - 48 <= 9) by (apply is_digit_bounds in Ec; lia).
    unfold U64.div. rewrite !byte_0.
    destruct (x >? 2 ^ 63 / 10) eqn:Epre; [congruence|].
    rewrite Z.gtb_ltb, Z.ltb_ge in Epre.
    rewrite lexer_step_exact by (auto; lia).
    destruct (10 * x + (byte c - 48) >? 2 ^ 63) eqn:Epost; [congruence|].
    rewrite Z.gtb_ltb, Z.ltb_ge in Epost. intros H.
    rewrite IH by (auto; lia). reflexivity.
Qed.

Lemma leadingInt_from_err_kind (s : string) (x : Z) (e : error) :
  leadingInt_from x s = Err e -> e = errLeadingInt.
Proof.
  revert x. induction s as [|c s IH]; intros x; cbn [leadingInt_from];
    [discriminate|].
  destruct (_ || _); [discriminate|].
  destruct (x >? _); [congruence|].
  destruct (_ >? _); [congruence|]. apply IH.
Qed.

Lemma decimal_value_prefix_le (ds : list Z) (n : nat) (x : Z) :
  0 <= x -> Forall (fun d => 0 <= d) ds ->
  0 <= decimal_value_from x (firstn n ds) <= decimal_value_from x ds.
Proof.
  intros Hx Hds.
  assert (Hboth : Forall (fun d => 0 <= d) (firstn n ds ++ skipn n ds))
    by (now rewrite firstn_skipn).
  apply Forall_app in Hboth. destruct Hboth as [Hpre Hsuf].
  pose proof (decimal_value_from_mono (firstn n ds) x Hx Hpre) as H1.
  split; [lia|].
  rewrite <- (firstn_skipn n ds) at 2.
  unfold decimal_value_from at 2. rewrite fold_left_app.
  apply (decimal_value_from_mono (skipn n ds)); [|exact Hsuf].
  fold (decimal_value_from x (firstn n ds)). lia.
Qed.

(** C4, as the code has it.  [leadingInt] fails exactly when the digits read
    so far, taken as an unbounded number, pass 2^63 at some step: the
    threshold is one more than the signed 64-bit maximum.  (The loop checks
    [x > 2^63/10] before each multiply-add and [x > 2^63] after it; no step
    wraps around.)  The error is then [errLeadingInt]; otherwise the result
    is the value of the whole digit run and the input after the digits. *)
Theorem leadingInt_overflow_iff (s : string) :
  (leadingInt s = Err errLeadingInt <->
   exists n, (n <= List.length (digit_run s))%nat
             /\ 2 ^ 63 < decimal_value (firstn n (digit_run s)))
  /\ leadingInt s =
     (if 2 ^ 63 <? decimal_value (digit_run s) then Err errLeadingInt
      else Ok (decimal_value (digit_run s), skip_digits s)).
Proof.
  assert (H0 : 0 <= 0 <= 2 ^ 63) by (change (2 ^ 63) with 9223372036854775808; lia).
  pose proof (leadingInt_from_err_iff s 0 H0) as Hiff.
  split; [exact Hiff|].
  unfold leadingInt, decimal_value in *.
  destruct (2 ^ 63 <? decimal_value_from 0 (digit_run s)) eqn:E.
  - apply Hiff. exists (List.length (digit_run s)). split; [lia|].
    rewrite firstn_all. now apply Z.ltb_lt.
  - apply leadingInt_from_ok; [exact H0|]. intros Herr.
    apply Hiff in Herr. destruct Herr as [n [_ Hn]].
    pose proof (decimal_value_prefix_le (digit_run s) n 0 ltac:(lia)
                  (digit_run_nonneg s)) as Hle.
    apply Z.ltb_ge in E. lia.
Qed.

(** C4, as stated, fails: the digits of 2^63 pass the signed 64-bit maximum
    and [leadingInt] accepts them. *)
Lemma leadingInt_accepts_past_max_int64 :
  ~ (forall s : string,
       leadingInt s = Err errLeadingInt <->
       exists n, (n <= List.length (digit_run s))%nat
                 /\ I64.max < decimal_value (firstn n (digit_run s))).
Proof.
  intros H. specialize (H "9223372036854775808"%string).
  destruct H as [_ H].
  assert (E : leadingInt "9223372036854775808" = Err errLeadingInt).
  { apply H. exists 19%nat. split; [vm_compute; lia|vm_compute; reflexivity]. }
  vm_compute in E. discriminate E.
Qed.

(** ** Strings *)

Lemma append_assoc (a b c : string) : ((a ++ b) ++ c = a ++ b ++ c)%string.
Proof. induction a as [|x a IH]; cbn; [reflexivity|now rewrite IH]. Qed.

Lemma append_nil_r (a : string) : (a ++ EmptyString = a)%string.
Proof. induction a as [|x a IH]; cbn; [reflexivity|now rewrite IH]. Qed.

Lemma length_append (a b : string) :
  String.length (a ++ b) = (String.length a + String.length b)%nat.
Proof. induction a as [|x a IH]; cbn; [reflexivity|now rewrite IH]. Qed.

Lemma take_append (a b : string) : take (String.length a) (a ++ b) = a.
Proof. induction a as [|x a IH]; cbn; [now destruct b|now rewrite IH]. Qed.

Lemma drop_append (a b : string) : drop (String.length a) (a ++ b) = b.
Proof. induction a as [|x a IH]; cbn; [now destruct b|exact IH]. Qed.

Lemma length_drop (n : nat) (s : string) :
  String.length (drop n s) = (String.length s - n)%nat.
Proof.
  revert s. induction n as [|n IH]; intros [|c s]; cbn; try reflexivity.
  apply IH.
Qed.

(** ** The lexers consume a prefix of their input *)

Lemma leadingInt_from_length (s : string) (x v : Z) (r : string) :
  leadingInt_from x s = Ok (v, r) -> (String.length r <= String.length s)%nat.
Proof.
  revert x. induction s as [|c s IH]; intros x; cbn [leadingInt_from].
  - intros E. injection E as _ <-. lia.
  - destruct (_ || _).
    + intros E. injection E as _ <-. lia.
    + destruct (x >? _); [discriminate|].
      destruct (_ >? _); [discriminate|].
      intros E. apply IH in E. cbn [String.length]. lia.
Qed.

Lemma leadingFraction_from_length (s : string) (x : Z) (sc : spec_float)
    (o : bool) :
  (String.length (snd (leadingFraction_from x sc o s)) <= String.length s)%nat.
Proof.
  revert x sc o. induction s as [|c s IH]; intros x sc o;
    cbn [leadingFraction_from].
  - cbn. lia.
  - destruct (_ || _); [cbn; lia|].
    cbn [String.length].
    destruct o; [specialize (IH x sc true); lia|].
    destruct (x >? _); [specialize (IH x sc true); lia|].
    destruct (_ >? _); [specialize (IH x sc true); lia|].
    match goal with |- context [leadingFraction_from ?a ?b ?c s] =>
      specialize (IH a b c) end. lia.
Qed.

Lemma unit_end_le (s : string) : (unit_end s <= String.length s)%nat.
Proof.
  induction s as [|c s IH]; cbn [unit_end String.length]; [lia|].
  destruct (_ || _); lia.
Qed.

(** ** Termination of the token loop *)

(** An iteration that succeeds leaves less input than it was given. *)
Lemma parse_token_shrinks (orig : string) (c0 : ascii) (t : string)
    (d : Z) (s' : string) (d' : Z) :
  parse_token orig c0 t d = Ok (s', d') ->
  (String.length s' <= String.length t)%nat.
Proof.
  unfold parse_token.
  destruct (negb _); [discriminate|].
  destruct (leadingInt (String c0 t)) as [[v s1]|e] eqn:Eint; [|discriminate].
  apply leadingInt_from_length in Eint. cbn [String.length] in Eint.
  set (frac := match s1 with EmptyString => _ | String _ _ => _ end).
  assert (Hfrac : (String.length (snd (fst frac)) <= String.length s1)%nat).
  { subst frac. destruct s1 as [|c s1']; [cbn; lia|].
    destruct (byte c =? byte "."); [|cbn; lia].
    pose proof (leadingFraction_from_length s1' 0 (F64.of_uint64 1) false) as H.
    fold (leadingFraction s1') in H.
    destruct (leadingFraction s1') as [[f sc] s2]. cbn in *. lia. }
  destruct frac as [[[f scale] s2] post]. cbn [fst snd] in Hfrac.
  destruct (negb _ && negb post); [discriminate|].
  destruct (unit_end s2 =? 0)%nat eqn:Ei; [discriminate|].
  apply Nat.eqb_neq in Ei.
  destruct (unitMap _); [|discriminate].
  destruct (v >? _); [discriminate|].
  destruct (_ && _); [discriminate|].
  destruct (_ >? _); [discriminate|].
  intros E. injection E as <- _. rewrite length_drop.
  pose proof (unit_end_le s2). lia.
Qed.

Lemma parse_tokens_fuel_enough (fuel : nat) (orig s : string) (d : Z) :
  (String.length s <= fuel)%nat -> parse_tokens fuel orig s d <> None.
Proof.
  revert s d. induction fuel as [|fuel IH]; intros [|c0 t] d Hlen;
    cbn [parse_tokens]; try discriminate.
  - cbn in Hlen. lia.
  - destruct (parse_token orig c0 t d) as [[s' d']|e] eqn:E; [|discriminate].
    apply IH. apply parse_token_shrinks in E. cbn in Hlen. lia.
Qed.

Lemma parse_tokens_fuel_more (fuel fuel' : nat) (orig s : string) (d : Z)
    (r : result Z) :
  parse_tokens fuel orig s d = Some r -> (fuel <= fuel')%nat ->
  parse_tokens fuel' orig s d = Some r.
Proof.
  revert fuel' s d. induction fuel as [|fuel IH]; intros fuel' [|c0 t] d;
    cbn [parse_tokens]; try discriminate.
  - intros E _. now destruct fuel'.
  - intros E _. now destruct fuel'.
  - intros E Hle. destruct fuel' as [|fuel']; [lia|]. cbn [parse_tokens].
    destruct (parse_token orig c0 t d) as [[s' d']|e]; [|exact E].
    apply IH; [exact E|lia].
Qed.

(** The loop, given the fuel [ParseDuration] gives it, returns what it
    returns with any fuel that is enough. *)
Lemma parse_tokens_length_fuel (fuel : nat) (orig s : string) (d : Z)
    (r : result Z) :
  parse_tokens fuel orig s d = Some r ->
  parse_tokens (String.length s) orig s d = Some r.
Proof.
  intros E.
  destruct (parse_tokens (String.length s) orig s d) as [r'|] eqn:E'.
  - destruct (Nat.le_ge_cases fuel (String.length s)) as [H|H].
    + rewrite (parse_tokens_fuel_more _ _ _ _ _ _ E H) in E'. now symmetry.
    + rewrite (parse_tokens_fuel_more _ _ _ _ _ _ E' H) in E. congruence.
  - exfalso. revert E'. apply parse_tokens_fuel_enough. lia.
Qed.

(** [ParseDuration] always returns. *)
Lemma ParseDuration_total (s : string) : ParseDuration s <> None.
Proof.
  unfold ParseDuration. destruct (consume_sign s) as [neg s'].
  destruct (String.eqb s' "0"); [discriminate|].
  destruct (String.eqb s' EmptyString); [discriminate|].
  destruct (parse_tokens _ _ _ _) as [[d|e]|] eqn:E; try discriminate.
  - destruct neg; [discriminate|]. destruct (d >? _); discriminate.
  - exfalso. revert E. apply parse_tokens_fuel_enough. lia.
Qed.

(** ** Decimal rendering and the integer lexer *)

Lemma byte_digit_char (d : Z) : 0 <= d <= 9 -> byte (digit_char d) = 48 + d.
Proof.
  intros H.
  assert (C : d = 0 \/ d = 1 \/ d = 2 \/ d = 3 \/ d = 4 \/ d = 5 \/ d = 6
              \/ d = 7 \/ d = 8 \/ d = 9) by lia.
  repeat (destruct C as [C|C]; [subst d; reflexivity|]). subst d; reflexivity.
Qed.

Lemma is_digit_digit_char (d : Z) : 0 <= d <= 9 -> is_digit (digit_char d) = true.
Proof. intros H. apply is_digit_bounds. rewrite byte_digit_char by exact H. lia. Qed.

Lemma digit_test (c : ascii) :
  (byte "0" <=? byte c) && (byte c <=? byte "9") = is_digit c.
Proof.
  unfold is_digit. rewrite byte_0, byte_9.
  destruct (Z.leb_spec 48 (byte c)), (Z.leb_spec (byte c) 57),
    (Z.ltb_spec (byte c) 48); rewrite ?Z.gtb_ltb;
    destruct (Z.ltb_spec 57 (byte c)); cbn; try reflexivity; lia.
Qed.

Lemma fmt_digits_app (fuel : nat) (u : Z) (acc : string) :
  fmt_digits fuel u acc = (fmt_digits fuel u EmptyString ++ acc)%string.
Proof.
  revert u acc. induction fuel as [|fuel IH]; intros u acc; cbn [fmt_digits].
  - reflexivity.
  - destruct (u <? 10); [reflexivity|].
    rewrite (IH _ (String _ acc)), (IH _ (String _ EmptyString)).
    now rewrite append_assoc.
Qed.

Lemma fmt_digits_head (fuel : nat) (u : Z) (acc : string) :
  0 <= u ->
  exists c t, fmt_digits (S fuel) u acc = String c t /\ is_digit c = true
              /\ (String.length acc <= String.length t)%nat.
Proof.
  revert u acc. induction fuel as [|fuel IH]; intros u acc Hu.
  - cbn [fmt_digits]. destruct (Z.ltb_spec u 10).
    + eexists _, _. split; [reflexivity|].
      split; [apply is_digit_digit_char; lia|lia].
    + eexists _, _. split; [reflexivity|].
      split; [apply is_digit_digit_char|lia].
      pose proof (Z.mod_pos_bound u 10). lia.
  - remember (S fuel) as k. cbn [fmt_digits]. destruct (Z.ltb_spec u 10).
    + eexists _, _. split; [reflexivity|].
      split; [apply is_digit_digit_char; lia|lia].
    + subst k.
      destruct (IH (u / 10) (String (digit_char (u mod 10)) acc))
        as (c & t & E & Hc & Hlen); [apply Z.div_pos; lia|].
      exists c, t. split; [exact E|]. split; [exact Hc|].
      cbn [String.length] in Hlen. lia.
Qed.

Lemma leadingInt_from_digit (x d : Z) (acc : string) :
  0 <= d <= 9 -> 0 <= x -> 10 * x + d <= 2 ^ 63 ->
  leadingInt_from x (String (digit_char d) acc) = leadingInt_from (10 * x + d) acc.
Proof.
  intros Hd Hx Hle. cbn [leadingInt_from].
  rewrite is_digit_test, is_digit_digit_char by exact Hd. cbn [negb].
  unfold U64.div. rewrite byte_0.
  change (2 ^ 63) with 9223372036854775808 in *.
  change (9223372036854775808 / 10) with 922337203685477580.
  destruct (Z.gtb_spec x 922337203685477580); [lia|].
  rewrite lexer_step_exact;
    [|change (2 ^ 63 / 10) with 922337203685477580; lia
     |apply is_digit_digit_char; exact Hd].
  rewrite byte_digit_char by exact Hd.
  replace (10 * x + (48 + d - 48)) with (10 * x + d) by lia.
  destruct (Z.gtb_spec (10 * x + d) 9223372036854775808); [lia|reflexivity].
Qed.

(** Reading back the digits [fmt] wrote gives the number they were written
    from, as long as it does not pass 2^63. *)
Lemma leadingInt_from_fmt_digits (fuel : nat) (u : Z) (acc : string) :
  0 <= u <= 2 ^ 63 -> u < 10 ^ Z.of_nat fuel ->
  leadingInt_from 0 (fmt_digits fuel u acc) = leadingInt_from u acc.
Proof.
  revert u acc. induction fuel as [|fuel IH]; intros u acc Hu Hfuel.
  - cbn [fmt_digits]. change (10 ^ Z.of_nat 0) with 1 in Hfuel.
    now replace u with 0 by lia.
  - cbn [fmt_digits]. destruct (Z.ltb_spec u 10).
    + rewrite leadingInt_from_digit by lia. now replace (10 * 0 + u) with u by lia.
    + rewrite Nat2Z.inj_succ, Z.pow_succ_r in Hfuel by lia.
      pose proof (Z.div_mod u 10 ltac:(lia)) as Hdm.
      pose proof (Z.mod_pos_bound u 10 ltac:(lia)) as Hm.
      rewrite IH by lia.
      rewrite leadingInt_from_digit by lia.
      now replace (10 * (u / 10) + u mod 10) with u by lia.
Qed.

Lemma leadingInt_from_stop (x : Z) (s : string) :
  match s with EmptyString => True | String c _ => is_digit c = false end ->
  leadingInt_from x s = Ok (x, s).
Proof.
  destruct s as [|c s]; intros H; cbn [leadingInt_from]; [reflexivity|].
  now rewrite is_digit_test, H.
Qed.

(** ** One canonical token *)

Lemma unit_end_append (u rest : string) :
  unit_text u = true -> token_start rest = true ->
  unit_end (u ++ rest) = String.length u.
Proof.
  intros Hu Hrest. induction u as [|c u IH].
  - cbn [append String.length]. destruct rest as [|c r]; [reflexivity|].
    cbn [unit_end token_start] in *. now rewrite digit_test, Hrest, orb_true_r.
  - cbn [unit_text] in Hu. apply andb_true_iff in Hu. destruct Hu as [Hc Hu].
    cbn [append unit_end String.length]. unfold unit_byte in Hc.
    apply negb_true_iff in Hc. rewrite Hc. now rewrite IH.
Qed.

Lemma unit_byte_not_digit (c : ascii) : unit_byte c = true -> is_digit c = false.
Proof.
  unfold unit_byte. rewrite digit_test, negb_true_iff, orb_false_iff. tauto.
Qed.

Lemma unit_byte_not_period (c : ascii) :
  unit_byte c = true -> (byte c =? byte ".") = false.
Proof.
  unfold unit_byte. rewrite negb_true_iff, orb_false_iff. tauto.
Qed.

Lemma U64_wrap_small (x : Z) : 0 <= x < 2 ^ 64 -> U64.wrap x = x.
Proof. intros H. unfold U64.wrap, U64.modulus. now apply Z.mod_small. Qed.

(** An iteration on a token as [fmt] writes it, a non-negative number and
    a unit of the table, followed by the start of another token or by
    nothing, adds the number times the scale of the unit. *)
Lemma parse_token_canonical (orig : string) (n : Z) (u : string) (sc : Z)
    (rest : string) (d : Z) (c0 : ascii) (t : string) :
  0 <= n -> unit_text u = true -> u <> EmptyString -> unitMap u = Some sc ->
  0 < sc -> 0 <= d -> d + n * sc <= 2 ^ 63 -> token_start rest = true ->
  (fmt_d n ++ u ++ rest)%string = String c0 t ->
  parse_token orig c0 t d = Ok (rest, d + n * sc).
Proof.
  intros Hn Hu Hne Hmap Hsc Hd Hsum Hrest Heq.
  assert (Hnsc : n * sc <= 2 ^ 63) by lia.
  assert (Hn63 : n <= 2 ^ 63) by nia.
  change (2 ^ 63) with 9223372036854775808 in *.
  unfold fmt_d in Heq. destruct (Z.ltb_spec n 0) as [Hneg|_]; [lia|].
  rewrite <- fmt_digits_app in Heq.
  destruct (fmt_digits_head 19 n (u ++ rest) Hn) as (c & t' & E & Hc & Hlen).
  assert (Hct : c = c0 /\ t' = t).
  { rewrite E in Heq. now injection Heq. }
  destruct Hct; subst c t'.
  destruct u as [|c1 u']; [congruence|].
  cbn [unit_text] in Hu. apply andb_true_iff in Hu. destruct Hu as [Hc1 Hu'].
  assert (Hint : leadingInt (String c0 t) = Ok (n, (String c1 u' ++ rest)%string)).
  { unfold leadingInt. rewrite <- E.
    rewrite leadingInt_from_fmt_digits;
      [|change (2 ^ 63) with 9223372036854775808; lia
       |change (10 ^ Z.of_nat 20) with 100000000000000000000; lia].
    apply leadingInt_from_stop. cbn [append].
    now apply unit_byte_not_digit. }
  unfold parse_token.
  rewrite digit_test, Hc, orb_true_r. cbn [negb].
  rewrite Hint. cbv beta iota zeta.
  assert (Hpre : (String.length (String c0 t)
                  =? String.length (String c1 u' ++ rest))%nat = false).
  { apply Nat.eqb_neq. cbn [String.length]. lia. }
  rewrite Hpre. cbn [append negb andb].
  rewrite (unit_byte_not_period c1 Hc1). cbv beta iota zeta.
  change (String c1 (u' ++ rest)) with (String c1 u' ++ rest)%string.
  rewrite unit_end_append
    by (auto; cbn [unit_text]; now rewrite Hc1, Hu').
  cbn [String.length Nat.eqb].
  change (S (String.length u')) with (String.length (String c1 u')).
  rewrite take_append, drop_append, Hmap.
  unfold U64.div.
  assert (Hdiv : n <= 9223372036854775808 / sc)
    by (apply Z.div_le_lower_bound; lia).
  change (2 ^ 63) with 9223372036854775808.
  destruct (Z.gtb_spec n (9223372036854775808 / sc)); [lia|].
  change (0 >? 0) with false. cbn [andb].
  unfold U64.add, U64.mul.
  rewrite (U64_wrap_small (n * sc))
    by (change (2 ^ 64) with 18446744073709551616; nia).
  rewrite U64_wrap_small
    by (change (2 ^ 64) with 18446744073709551616; nia).
  destruct (Z.gtb_spec (d + n * sc) 9223372036854775808); [lia|reflexivity].
Qed.

Lemma parses_done (orig : string) (d : Z) : parses orig EmptyString d (Ok d).
Proof. now exists O. Qed.

Lemma parses_token (orig : string) (n : Z) (u : string) (sc : Z)
    (rest : string) (d : Z) (r : result Z) :
  0 <= n -> unit_text u = true -> u <> EmptyString -> unitMap u = Some sc ->
  0 < sc -> 0 <= d -> d + n * sc <= 2 ^ 63 -> token_start rest = true ->
  parses orig rest (d + n * sc) r ->
  parses orig (fmt_d n ++ u ++ rest) d r.
Proof.
  intros Hn Hu Hne Hmap Hsc Hd Hsum Hrest [fuel Hp].
  destruct (fmt_d n ++ u ++ rest)%string as [|c0 t] eqn:E.
  - exfalso. unfold fmt_d in E. destruct (n <? 0); [discriminate|].
    destruct (fmt_digits_head 19 n EmptyString Hn) as (c & t' & E' & _).
    rewrite E' in E. discriminate.
  - exists (S fuel). cbn [parse_tokens].
    now rewrite (parse_token_canonical orig n u sc rest d c0 t).
Qed.

(** ** The canonical rendering, component by component *)

Local Open Scope string_scope.
Local Open Scope Z_scope.

Lemma I64_wrap_small (x : Z) : I64.min <= x <= I64.max -> I64.wrap x = x.
Proof.
  unfold I64.wrap, I64.min, I64.max. intros H.
  change (2 ^ 63) with 9223372036854775808 in *.
  change (2 ^ 64) with 18446744073709551616.
  rewrite Z.mod_small by lia. lia.
Qed.

Lemma I64_quot_nonneg (x y : Z) :
  0 <= x <= I64.max -> 0 < y -> I64.quot x y = x / y /\ 0 <= x / y <= x.
Proof.
  intros Hx Hy. unfold I64.quot. rewrite Z.quot_div_nonneg by lia.
  assert (H : 0 <= x / y <= x).
  { split; [apply Z.div_pos; lia|]. apply Z.div_le_upper_bound; nia. }
  split; [|exact H]. apply I64_wrap_small. unfold I64.min, I64.max in *. lia.
Qed.

Lemma I64_rem_nonneg (x y : Z) : 0 <= x -> 0 < y -> I64.rem x y = x mod y.
Proof. intros Hx Hy. unfold I64.rem. apply Z.rem_mod_nonneg; lia. Qed.

Lemma prepend_nonzero (v : Z) (u f : string) :
  (if negb (v =? 0) then fmt_d v ++ u ++ f else f)
  = (component v u ++ f).
Proof.
  unfold component. destruct (v =? 0); cbn [negb]; [reflexivity|].
  now rewrite append_assoc.
Qed.

Lemma prepend_positive (v : Z) (u f : string) :
  0 <= v ->
  (if v >? 0 then fmt_d v ++ u ++ f else f) = (component v u ++ f).
Proof.
  intros Hv. unfold component.
  destruct (Z.gtb_spec v 0), (Z.eqb_spec v 0); try lia; [|reflexivity].
  now rewrite append_assoc.
Qed.

(** The seven numbers of the canonical rendering of a non-negative
    duration. *)
Lemma FormatDuration_components (d : Z) :
  0 < d <= I64.max ->
  FormatDuration d =
  (component (d / Second / 60 / 60 / 24) "d"
   ++ component ((d / Second / 60 / 60) mod 24) "h"
   ++ component ((d / Second / 60) mod 60) "m"
   ++ component ((d / Second) mod 60) "s"
   ++ component (d mod Second / 1000 / 1000) "ms"
   ++ component ((d mod Second / 1000) mod 1000) (micro_sign ++ "s")
   ++ component ((d mod Second) mod 1000) "ns").
Proof.
  intros Hd. unfold FormatDuration.
  destruct (Z.eqb_spec d 0); [lia|].
  assert (HS : 0 < Second) by reflexivity.
  unfold formatHigh, formatLow.
  destruct (I64_quot_nonneg d Second) as [-> H1]; [lia|lia|].
  destruct (I64_quot_nonneg (d / Second) 60) as [-> H2]; [lia|lia|].
  destruct (I64_quot_nonneg (d / Second / 60) 60) as [-> H3]; [lia|lia|].
  destruct (I64_quot_nonneg (d / Second / 60 / 60) 24) as [-> H4]; [lia|lia|].
  rewrite !I64_rem_nonneg by lia.
  pose proof (Z.mod_pos_bound d Second HS) as HL.
  assert (HL' : 0 <= d mod Second <= I64.max)
    by (split; [lia|]; pose proof (Z.mod_le d Second); lia).
  destruct (I64_quot_nonneg (d mod Second) 1000) as [-> H5]; [lia|lia|].
  destruct (I64_quot_nonneg (d mod Second / 1000) 1000) as [-> H6]; [lia|lia|].
  rewrite !I64_rem_nonneg by lia.
  rewrite !prepend_nonzero, !prepend_positive by lia.
  rewrite !append_nil_r, !append_assoc. reflexivity.
Qed.

Lemma token_start_component (v : Z) (u rest : string) :
  0 <= v -> token_start rest = true ->
  token_start (component v u ++ rest) = true.
Proof.
  intros Hv Hrest. unfold component. destruct (v =? 0); [exact Hrest|].
  unfold fmt_d. destruct (Z.ltb_spec v 0); [lia|].
  rewrite append_assoc, <- fmt_digits_app.
  destruct (fmt_digits_head 19 v (u ++ rest) Hv) as (c & t & E & Hc & _).
  rewrite E. exact Hc.
Qed.

Lemma parses_component (orig : string) (v : Z) (u : string) (sc : Z)
    (rest : string) (d : Z) (r : result Z) :
  0 <= v -> unit_text u = true -> u <> EmptyString -> unitMap u = Some sc ->
  0 < sc -> 0 <= d -> d + v * sc <= 2 ^ 63 -> token_start rest = true ->
  parses orig rest (d + v * sc) r ->
  parses orig (component v u ++ rest) d r.
Proof.
  intros Hv Hu Hne Hmap Hsc Hd Hsum Hrest Hp. unfold component.
  destruct (Z.eqb_spec v 0) as [->|Hv0].
  - now replace (d + 0 * sc) with d in Hp by lia.
  - rewrite append_assoc. now apply (parses_token orig v u sc).
Qed.

(** The token loop reads a canonical rendering back to the duration it was
    made from. *)
Lemma parses_FormatDuration (orig : string) (d : Z) :
  0 < d <= I64.max -> parses orig (FormatDuration d) 0 (Ok d).
Proof.
  intros Hd. rewrite FormatDuration_components by exact Hd.
  rewrite <- (append_nil_r (component ((d mod Second) mod 1000) "ns")).
  unfold I64.max in Hd. change (2 ^ 63) with 9223372036854775808 in Hd.
  assert (HS : Second = 1000000000) by reflexivity.
  set (secs := d / Second). set (low := d mod Second).
  pose proof (Z.div_mod d Second ltac:(lia)) as E0. fold secs low in E0.
  pose proof (Z.mod_pos_bound d Second ltac:(lia)) as B0. fold low in B0.
  assert (Hsecs : 0 <= secs) by (apply Z.div_pos; lia).
  set (mins := secs / 60). set (hrs := mins / 60).
  pose proof (Z.div_mod secs 60 ltac:(lia)) as E1. fold mins in E1.
  pose proof (Z.mod_pos_bound secs 60 ltac:(lia)) as B1.
  assert (Hmins : 0 <= mins) by (apply Z.div_pos; lia).
  pose proof (Z.div_mod mins 60 ltac:(lia)) as E2. fold hrs in E2.
  pose proof (Z.mod_pos_bound mins 60 ltac:(lia)) as B2.
  assert (Hhrs : 0 <= hrs) by (apply Z.div_pos; lia).
  pose proof (Z.div_mod hrs 24 ltac:(lia)) as E3.
  pose proof (Z.mod_pos_bound hrs 24 ltac:(lia)) as B3.
  assert (Hdays : 0 <= hrs / 24) by (apply Z.div_pos; lia).
  set (l1 := low / 1000).
  pose proof (Z.div_mod low 1000 ltac:(lia)) as E4. fold l1 in E4.
  pose proof (Z.mod_pos_bound low 1000 ltac:(lia)) as B4.
  assert (Hl1 : 0 <= l1) by (apply Z.div_pos; lia).
  pose proof (Z.div_mod l1 1000 ltac:(lia)) as E5.
  pose proof (Z.mod_pos_bound l1 1000 ltac:(lia)) as B5.
  assert (Hms : 0 <= l1 / 1000) by (apply Z.div_pos; lia).
  set (D := hrs / 24) in *. set (H := hrs mod 24) in *.
  set (M := mins mod 60) in *. set (S := secs mod 60) in *.
  set (ms := l1 / 1000) in *. set (us := l1 mod 1000) in *.
  set (ns := low mod 1000) in *.
  assert (Etotal : d = D * 86400000000000 + H * 3600000000000
                       + M * 60000000000 + S * 1000000000
                       + ms * 1000000 + us * 1000 + ns) by lia.
  change (2 ^ 63) with 9223372036854775808 in *.
  apply (parses_component orig D "d" 86400000000000);
    try reflexivity; try discriminate; try lia;
    [repeat apply token_start_component; try lia; reflexivity|].
  apply (parses_component orig H "h" 3600000000000);
    try reflexivity; try discriminate; try lia;
    [repeat apply token_start_component; try lia; reflexivity|].
  apply (parses_component orig M "m" 60000000000);
    try reflexivity; try discriminate; try lia;
    [repeat apply token_start_component; try lia; reflexivity|].
  apply (parses_component orig S "s" 1000000000);
    try reflexivity; try discriminate; try lia;
    [repeat apply token_start_component; try lia; reflexivity|].
  apply (parses_component orig ms "ms" 1000000);
    try reflexivity; try discriminate; try lia;
    [repeat apply token_start_component; try lia; reflexivity|].
  apply (parses_component orig us (micro_sign ++ "s") 1000);
    try reflexivity; try discriminate; try lia;
    [repeat apply token_start_component; try lia; reflexivity|].
  apply (parses_component orig ns "ns" 1);
    try reflexivity; try discriminate; try lia.
  replace (0 + D * 86400000000000 + H * 3600000000000 + M * 60000000000
           + S * 1000000000 + ms * 1000000 + us * 1000 + ns * 1)
    with d by lia.
  apply parses_done.
Qed.

(** ** From the token loop to [ParseDuration] *)

(** After an iteration the accumulator is between 0 and 2^63. *)
Lemma parse_token_acc_bound (orig : string) (c0 : ascii) (t : string)
    (d : Z) (s' : string) (d' : Z) :
  parse_token orig c0 t d = Ok (s', d') -> 0 <= d' <= 2 ^ 63.
Proof.
  unfold parse_token.
  destruct (negb _); [discriminate|].
  destruct (leadingInt (String c0 t)) as [[v s1]|e]; [|discriminate].
  destruct (match s1 with EmptyString => _ | String _ _ => _ end)
    as [[[f scale] s2] post].
  destruct (negb _ && negb post); [discriminate|].
  destruct (unit_end s2 =? 0)%nat; [discriminate|].
  destruct (unitMap _); [|discriminate].
  destruct (v >? _); [discriminate|].
  destruct (_ && _); [discriminate|].
  match goal with |- context [U64.add d ?w >? _] => set (a := U64.add d w) end.
  destruct (Z.gtb_spec a (2 ^ 63)); [discriminate|].
  intros E. injection E as _ <-. split; [|lia].
  subst a. unfold U64.add, U64.wrap, U64.modulus.
  apply Z.mod_pos_bound. reflexivity.
Qed.

Lemma parse_tokens_acc_bound (fuel : nat) (orig s : string) (d0 d : Z) :
  parse_tokens fuel orig s d0 = Some (Ok d) ->
  0 <= d0 <= 2 ^ 63 -> 0 <= d <= 2 ^ 63.
Proof.
  revert s d0. induction fuel as [|fuel IH]; intros [|c0 t] d0;
    cbn [parse_tokens]; try discriminate.
  - intros E. now injection E as <-.
  - intros E. now injection E as <-.
  - destruct (parse_token orig c0 t d0) as [[s' d']|e] eqn:Et; [|discriminate].
    intros E _. apply (IH _ _ E). eapply parse_token_acc_bound; eauto.
Qed.

(** The token loop does not accept a sign, and it does not accept the bare
    ["0"]. *)
Lemma parses_no_sign (orig : string) (c : ascii) (t : string) (d0 : Z)
    (d : Z) :
  parses orig (String c t) d0 (Ok d) ->
  consume_sign (String c t) = (false, String c t).
Proof.
  intros [[|fuel] H]; cbn [parse_tokens] in H; [discriminate|].
  unfold parse_token in H.
  destruct (negb _) eqn:E; [discriminate|].
  apply negb_false_iff in E. rewrite digit_test in E.
  assert (Hc : byte c = 46 \/ 48 <= byte c <= 57).
  { apply orb_true_iff in E. destruct E as [E|E].
    - left. now apply Z.eqb_eq in E.
    - right. now apply is_digit_bounds. }
  unfold consume_sign.
  change (byte "-") with 45. change (byte "+") with 43.
  destruct (Z.eqb_spec (byte c) 45), (Z.eqb_spec (byte c) 43);
    try lia; reflexivity.
Qed.

Lemma parses_not_bare_zero (orig : string) (d0 d : Z) :
  ~ parses orig "0" d0 (Ok d).
Proof. intros [[|fuel] H]; cbn in H; discriminate. Qed.

(** The last step of [ParseDuration], on what the token loop returned. *)
Lemma ParseDuration_final (s : string) (neg : bool) (body : string) (d : Z) :
  consume_sign s = (neg, body) -> body <> EmptyString ->
  parses s body 0 (Ok d) ->
  0 <= d <= 2 ^ 63 /\
  ParseDuration s =
  Some (if neg then Ok (- d)
        else if d =? 2 ^ 63 then Err (errInvalidDuration s) else Ok d).
Proof.
  intros Hsign Hne Hp.
  assert (Hd : 0 <= d <= 2 ^ 63).
  { destruct Hp as [fuel Hp]. apply (parse_tokens_acc_bound _ _ _ _ _ Hp).
    change (2 ^ 63) with 9223372036854775808. lia. }
  split; [exact Hd|].
  unfold ParseDuration. rewrite Hsign.
  destruct (String.eqb_spec body "0") as [->|_];
    [now apply parses_not_bare_zero in Hp|].
  destruct (String.eqb_spec body EmptyString) as [->|_]; [congruence|].
  destruct Hp as [fuel Hp]. rewrite (parse_tokens_length_fuel _ _ _ _ _ Hp).
  change (2 ^ 63) with 9223372036854775808 in *.
  destruct (Z.eqb_spec d 9223372036854775808) as [->|Hlt].
  - destruct neg; reflexivity.
  - rewrite I64_wrap_small
      by (unfold I64.min, I64.max;
          change (2 ^ 63) with 9223372036854775808; lia).
    destruct neg.
    + unfold I64.neg. rewrite I64_wrap_small; [reflexivity|].
      unfold I64.min, I64.max. change (2 ^ 63) with 9223372036854775808. lia.
    + destruct (Z.gtb_spec d (9223372036854775808 - 1)); [lia|reflexivity].
Qed.

(** What [ParseDuration] returned without error, it got from the token
    loop, unless the input was a zero without unit. *)
Lemma ParseDuration_ok_inv (s : string) (d : Z) :
  ParseDuration s = Some (Ok d) ->
  let '(neg, body) := consume_sign s in
  (body = "0" /\ d = 0)
  \/ (body <> "0" /\ body <> EmptyString
      /\ exists a, parses s body 0 (Ok a) /\ 0 <= a <= 2 ^ 63
                   /\ (if neg then d = - a else a <= I64.max /\ d = a)).
Proof.
  unfold ParseDuration. destruct (consume_sign s) as [neg body].
  destruct (String.eqb_spec body "0") as [->|Hz];
    [intros E; injection E as <-; now left|].
  destruct (String.eqb_spec body EmptyString) as [->|Hne]; [discriminate|].
  destruct (parse_tokens _ s body 0) as [[a|e']|] eqn:E; try discriminate.
  intros H. right. split; [exact Hz|]. split; [exact Hne|]. exists a.
  assert (Ha : 0 <= a <= 2 ^ 63).
  { apply (parse_tokens_acc_bound _ _ _ _ _ E).
    change (2 ^ 63) with 9223372036854775808. lia. }
  split; [now exists (String.length body)|]. split; [exact Ha|].
  unfold I64.max. change (2 ^ 63) with 9223372036854775808 in *.
  destruct neg.
  - injection H as <-.
    destruct (Z.eq_dec a 9223372036854775808) as [->|Hlt]; [reflexivity|].
    rewrite I64_wrap_small
      by (unfold I64.min, I64.max; change (2 ^ 63) with 9223372036854775808; lia).
    unfold I64.neg. apply I64_wrap_small.
    unfold I64.min, I64.max. change (2 ^ 63) with 9223372036854775808. lia.
  - destruct (Z.gtb_spec a (9223372036854775808 - 1)); [discriminate|].
    injection H as <-. split; [lia|].
    apply I64_wrap_small.
    unfold I64.min, I64.max. change (2 ^ 63) with 9223372036854775808. lia.
Qed.

(** C1.  For every non-negative duration [d], that is every [d] from 0 to
    2^63-1 nanoseconds, parsing the canonical rendering gives [d] back:
    [ParseDuration (FormatDuration d)] returns [d] and no error. *)
Theorem ParseDuration_FormatDuration (d : Z) :
  0 <= d <= I64.max -> ParseDuration (FormatDuration d) = Some (Ok d).
Proof.
  intros Hd. destruct (Z.eq_dec d 0) as [->|Hnz]; [reflexivity|].
  pose proof (parses_FormatDuration (FormatDuration d) d ltac:(lia)) as Hp.
  destruct (FormatDuration d) as [|c t] eqn:E.
  - destruct Hp as [[|fuel] Hp]; cbn in Hp; injection Hp as Hp; lia.
  - pose proof (parses_no_sign _ _ _ _ _ Hp) as Hsign.
    destruct (ParseDuration_final _ _ _ _ Hsign ltac:(discriminate) Hp)
      as [_ ->].
    unfold I64.max in Hd. change (2 ^ 63) with 9223372036854775808 in *.
    destruct (Z.eqb_spec d 9223372036854775808); [lia|reflexivity].
Qed.

Lemma ParseDuration_FormatDuration_witness :
  0 <= 720488008008008 <= I64.max
  /\ ParseDuration (FormatDuration 720488008008008) = Some (Ok 720488008008008).
Proof.
  assert (H : 0 <= 720488008008008 <= I64.max) by (unfold I64.max; lia).
  split; [exact H|]. exact (ParseDuration_FormatDuration 720488008008008 H).
Defined.

(** ** The end of [ParseDuration], the zero literal, fractions, rejects *)

(** C3, as the code has it.  At the end of [ParseDuration] the accumulator
    [d] of the token loop is between 0 and 2^63.  If the sign was negative
    the result is [-d], so ["-9223372036854775808ns"] gives exactly -2^63.
    If it was not, an accumulator above 2^63-1 is rejected, with the same
    invalid-duration error the parser has for malformed input (the code has
    no error of its own for overflow): ["9223372036854775808ns"] fails and
    ["9223372036854775807ns"] gives 2^63-1. *)
Theorem ParseDuration_sign_and_bound :
  (forall (s : string) (neg : bool) (body : string) (d : Z),
      consume_sign s = (neg, body) -> body <> EmptyString ->
      parses s body 0 (Ok d) ->
      0 <= d <= 2 ^ 63 /\
      ParseDuration s =
      Some (if neg then Ok (- d)
            else if d =? 2 ^ 63 then Err (errInvalidDuration s) else Ok d))
  /\ ParseDuration "-9223372036854775808ns" = Some (Ok (- 2 ^ 63))
  /\ ParseDuration "9223372036854775808ns"
     = Some (Err (errInvalidDuration "9223372036854775808ns"))
  /\ ParseDuration "9223372036854775807ns" = Some (Ok (2 ^ 63 - 1)).
Proof.
  split; [exact ParseDuration_final|].
  repeat split; vm_compute; reflexivity.
Qed.

Lemma ParseDuration_sign_and_bound_witness :
  0 <= 7 <= 2 ^ 63 /\ ParseDuration "-7ns" = Some (Ok (- 7)).
Proof.
  apply (proj1 ParseDuration_sign_and_bound "-7ns"%string true "7ns"%string 7).
  - reflexivity.
  - discriminate.
  - exists 1%nat. reflexivity.
Defined.

(** C3, as stated, fails: the error for an accumulator of 2^63 under a
    non-negative sign is not of a kind of its own; it is the invalid-duration
    error. *)
Lemma ParseDuration_overflow_is_invalid_duration :
  ~ (exists e : error,
        ParseDuration "9223372036854775808ns" = Some (Err e)
        /\ error_kind e = Overflow).
Proof.
  intros [e [H K]]. vm_compute in H. injection H as <-. discriminate K.
Qed.

(** C5.  ["0"], ["-0"] and ["+0"] give zero through the special case, which
    is taken exactly when the input without its sign is ["0"]: the token
    loop itself rejects a bare ["0"] for its missing unit.  ["0s"] and
    ["0.0h"] do not take the special case; the token loop looks their units
    up and gives zero.  For every input, [ParseDuration] gives zero when
    the input without its sign is ["0"], and whatever else it returns
    without error is what the token loop made of the non-empty input
    without its sign, negated after a minus sign. *)
Theorem ParseDuration_zero_literal :
  (ParseDuration "0" = Some (Ok 0)
   /\ ParseDuration "-0" = Some (Ok 0)
   /\ ParseDuration "+0" = Some (Ok 0))
  /\ (forall s : string,
         snd (consume_sign s) = "0"%string
         <-> s = "0"%string \/ s = "-0"%string \/ s = "+0"%string)
  /\ (forall (fuel : nat) (orig : string),
         parse_tokens (S fuel) orig "0" 0 = Some (Err (errMissingUnit orig)))
  /\ (snd (consume_sign "0s") <> "0"%string
      /\ parse_tokens 2 "0s" "0s" 0 = Some (Ok 0)
      /\ unitMap "s" = Some Second
      /\ ParseDuration "0s" = Some (Ok 0))
  /\ (snd (consume_sign "0.0h") <> "0"%string
      /\ parse_tokens 4 "0.0h" "0.0h" 0 = Some (Ok 0)
      /\ unitMap "h" = Some Hour
      /\ ParseDuration "0.0h" = Some (Ok 0))
  /\ (forall s : string,
         snd (consume_sign s) = "0"%string -> ParseDuration s = Some (Ok 0))
  /\ (forall (s : string) (d : Z),
         ParseDuration s = Some (Ok d) ->
         (snd (consume_sign s) = "0"%string /\ d = 0)
         \/ (snd (consume_sign s) <> "0"%string
             /\ snd (consume_sign s) <> EmptyString
             /\ exists a : Z,
                  parses s (snd (consume_sign s)) 0 (Ok a)
                  /\ 0 <= a <= 2 ^ 63
                  /\ d = (if fst (consume_sign s) then - a else a))).
Proof.
  split; [repeat split|].
  split.
  { intros s. split.
    - destruct s as [|c s]; [discriminate|]. unfold consume_sign.
      change (byte "-") with 45. change (byte "+") with 43.
      destruct (Z.eqb_spec (byte c) 45) as [E|E].
      + cbn [orb snd]. intros ->. right; left.
        replace c with "-"%char; [reflexivity|].
        destruct c as [[] [] [] [] [] [] [] []]; vm_compute in E;
          try discriminate E; reflexivity.
      + destruct (Z.eqb_spec (byte c) 43) as [E'|E'].
        * cbn [orb snd]. intros ->. right; right.
          replace c with "+"%char; [reflexivity|].
          destruct c as [[] [] [] [] [] [] [] []]; vm_compute in E';
            try discriminate E'; reflexivity.
        * cbn [orb snd]. intros ->. now left.
    - intros [-> | [-> | ->]]; reflexivity. }
  split; [intros fuel orig; reflexivity|].
  split; [split; [vm_compute; discriminate|repeat split]|].
  split; [split; [vm_compute; discriminate|repeat split]|].
  split.
  { intros s Hs. unfold ParseDuration.
    destruct (consume_sign s) as [neg body]. cbn [snd] in Hs.
    now rewrite Hs. }
  intros s d H. pose proof (ParseDuration_ok_inv s d H) as Hinv.
  destruct (consume_sign s) as [neg body]. cbn [fst snd].
  destruct Hinv as [[Hz Hd]|(Hz & Hne & a & Hp & Ha & Hs)]; [now left|].
  right. split; [exact Hz|]. split; [exact Hne|].
  exists a. split; [exact Hp|]. split; [exact Ha|].
  destruct neg; [exact Hs|exact (proj2 Hs)].
Qed.

(** C6.  ["1.5h"] gives exactly 5400000000000 nanoseconds, 90 minutes: the
    integer part, 1 hour, is exact, and the fraction 5/10 adds
    [uint64(float64(5) * (float64(Hour) / 10))], computed in double
    precision, which is 1800000000000. *)
Theorem ParseDuration_fraction_of_hour :
  ParseDuration "1.5h" = Some (Ok 5400000000000)
  /\ 5400000000000 = 90 * Minute
  /\ leadingInt "1.5h" = Ok (1, ".5h"%string)
  /\ leadingFraction "5h" = (5, F64.of_uint64 10, "h"%string)
  /\ U64.mul 1 Hour = 3600000000000
  /\ F64.to_uint64
       (F64.mul (F64.of_uint64 5) (F64.div (F64.of_uint64 Hour) (F64.of_uint64 10)))
     = 1800000000000
  /\ parse_token "1.5h" "1" ".5h" 0
     = Ok (EmptyString,
           U64.add 0
             (U64.add (U64.mul 1 Hour)
                (F64.to_uint64
                   (F64.mul (F64.of_uint64 5)
                      (F64.div (F64.of_uint64 Hour) (F64.of_uint64 10)))))).
Proof. repeat split. Qed.

(** C7.  [ParseDuration] rejects the empty input, [".s"] and ["-.s"] with the
    invalid-duration error, ["5"] with the missing-unit error and ["5x"]
    with the unknown-unit error, for the unit ["x"]. *)
Theorem ParseDuration_rejects_malformed :
  ParseDuration EmptyString = Some (Err (errInvalidDuration EmptyString))
  /\ ParseDuration ".s" = Some (Err (errInvalidDuration ".s"))
  /\ ParseDuration "-.s" = Some (Err (errInvalidDuration "-.s"))
  /\ ParseDuration "5" = Some (Err (errMissingUnit "5"))
  /\ ParseDuration "5x" = Some (Err (errUnknownUnit "x" "5x"))
  /\ unitMap "x" = None
  /\ error_kind (errInvalidDuration EmptyString) = InvalidDuration
  /\ error_kind (errMissingUnit "5") = MissingUnit
  /\ error_kind (errUnknownUnit "x" "5x") = UnknownUnit.
Proof. repeat split. Qed.

(** ** The formatters on negative durations and at the thresholds *)

Local Open Scope string_scope.
Local Open Scope Z_scope.

Lemma I64_quot_nonpos (x y : Z) :
  I64.min <= x <= 0 -> 0 < y ->
  I64.quot x y = Z.quot x y /\ x <= Z.quot x y <= 0.
Proof.
  intros Hx Hy. unfold I64.quot.
  assert (H : x <= Z.quot x y <= 0).
  { replace x with (- (- x)) at 2 3 by lia.
    rewrite Z.quot_opp_l by lia. rewrite Z.quot_div_nonneg by lia.
    assert (0 <= - x / y <= - x).
    { split; [apply Z.div_pos; lia|]. apply Z.div_le_upper_bound; nia. }
    lia. }
  split; [|exact H]. apply I64_wrap_small. unfold I64.min, I64.max in *. lia.
Qed.

Lemma rem_nonpos (x y : Z) : x <= 0 -> 0 < y -> Z.rem x y <= 0.
Proof. intros Hx Hy. apply Z.rem_nonpos; lia. Qed.

Lemma prepend_not_positive (v : Z) (u f : string) :
  v <= 0 -> (if v >? 0 then fmt_d v ++ u ++ f else f) = f.
Proof. intros Hv. destruct (Z.gtb_spec v 0); [lia|reflexivity]. Qed.

Lemma component_negative (v : Z) (u : string) :
  v < 0 -> component v u = String "-" (fmt_d (- v) ++ u).
Proof.
  intros Hv. unfold component, fmt_d.
  destruct (Z.eqb_spec v 0); [lia|].
  destruct (Z.ltb_spec v 0); [|lia].
  destruct (Z.ltb_spec (- v) 0); [lia|reflexivity].
Qed.

(** C8, as the code has it.  [FormatDuration] has no special handling of a
    negative duration [d].  Its quotients and remainders truncate towards
    zero and so are zero or negative: the hours, minutes, seconds,
    microseconds and nanoseconds that are not zero are each written with a
    minus sign of their own, and the days and the milliseconds, written only
    when positive, are left out. *)
Theorem FormatDuration_negative (d : Z) :
  I64.min <= d < 0 ->
  let secs := Z.quot d Second in
  let low := Z.rem d Second in
  let h := Z.rem (Z.quot (Z.quot secs 60) 60) 24 in
  let m := Z.rem (Z.quot secs 60) 60 in
  let s := Z.rem secs 60 in
  let us := Z.rem (Z.quot low 1000) 1000 in
  let ns := Z.rem low 1000 in
  FormatDuration d =
    component h "h" ++ component m "m" ++ component s "s"
    ++ component us (micro_sign ++ "s") ++ component ns "ns"
  /\ (h <= 0 /\ m <= 0 /\ s <= 0 /\ us <= 0 /\ ns <= 0)
  /\ (forall (v : Z) (u : string),
         v < 0 -> component v u = String "-" (fmt_d (- v) ++ u)).
Proof.
  intros Hd secs low h m s us ns.
  assert (HS : 0 < Second) by reflexivity.
  destruct (I64_quot_nonpos d Second) as [E1 H1]; [lia|lia|].
  destruct (I64_quot_nonpos secs 60) as [E2 H2]; [subst secs; lia|lia|].
  destruct (I64_quot_nonpos (Z.quot secs 60) 60) as [E3 H3]; [lia|lia|].
  destruct (I64_quot_nonpos (Z.quot (Z.quot secs 60) 60) 24) as [E4 H4];
    [lia|lia|].
  assert (HL : I64.min <= low <= 0).
  { subst low. pose proof (Z.rem_nonpos d Second ltac:(lia) ltac:(lia)).
    pose proof (Z.rem_bound_abs d Second ltac:(lia)).
    unfold I64.min. change (2 ^ 63) with 9223372036854775808.
    change Second with 1000000000 in *. lia. }
  destruct (I64_quot_nonpos low 1000) as [E5 H5]; [lia|lia|].
  destruct (I64_quot_nonpos (Z.quot low 1000) 1000) as [E6 H6]; [lia|lia|].
  split; [|split; [|exact component_negative]].
  - unfold FormatDuration. destruct (Z.eqb_spec d 0); [lia|].
    unfold formatHigh, formatLow, I64.rem.
    fold secs low. rewrite E1. fold secs. rewrite E2, E3, E4, E5, E6.
    rewrite !prepend_nonzero, !prepend_not_positive by lia.
    rewrite !append_nil_r, !append_assoc. reflexivity.
  - subst h m s us ns. repeat split; apply rem_nonpos; lia.
Qed.

Lemma FormatDuration_negative_witness :
  I64.min <= -3661000001001 < 0
  /\ FormatDuration (-3661000001001) = "-1h-1m-1s-1µs-1ns".
Proof.
  assert (H : I64.min <= -3661000001001 < 0)
    by (unfold I64.min; change (2 ^ 63) with 9223372036854775808; lia).
  split; [exact H|].
  exact (proj1 (FormatDuration_negative (-3661000001001) H)).
Defined.

(** C8, as stated, fails: minus five seconds is rendered with a minus
    sign. *)
Lemma FormatDuration_negative_has_sign :
  ~ (forall d : Z, I64.min <= d < 0 -> has_minus (FormatDuration d) = false).
Proof.
  intros H. specialize (H (-5000000000)).
  assert (E : has_minus (FormatDuration (-5000000000)) = true) by reflexivity.
  rewrite H in E; [discriminate|].
  unfold I64.min. change (2 ^ 63) with 9223372036854775808. lia.
Qed.

(** C10.  [FormatSimplifiedDuration] sends every duration that is not more
    than one microsecond, every negative one among them, to its last case,
    which writes the signed count of nanoseconds and ["ns"]: minus two
    hours is ["-7200000000000ns"].  The comparisons of the other cases are
    strict: a duration equal to a threshold is written in the next smaller
    unit, one hour as ["60m"]. *)
Theorem FormatSimplifiedDuration_default_case :
  (forall d : Z, d <= Microsecond -> FormatSimplifiedDuration d = fmt_d d ++ "ns")
  /\ FormatSimplifiedDuration (- (2 * Hour)) = "-7200000000000ns"
  /\ FormatSimplifiedDuration (Hour * 24) = "24h"
  /\ FormatSimplifiedDuration Hour = "60m"
  /\ FormatSimplifiedDuration Minute = "60s"
  /\ FormatSimplifiedDuration Second = "1000ms"
  /\ FormatSimplifiedDuration Millisecond = "1000µs"
  /\ FormatSimplifiedDuration Microsecond = "1000ns"
  /\ FormatSimplifiedDuration (Microsecond + 1) = "1µs"
  /\ FormatSimplifiedDuration (Hour + 1) = "1h"
  /\ FormatSimplifiedDuration (Hour * 24 + 1) = "1d 0h".
Proof.
  split; [|repeat split].
  intros d Hd. unfold FormatSimplifiedDuration.
  change (I64.mul Hour 24) with 86400000000000.
  change Hour with 3600000000000. change Minute with 60000000000.
  change Second with 1000000000. change Millisecond with 1000000.
  change Microsecond with 1000 in *.
  repeat match goal with
         | |- context [?a >? ?b] => destruct (Z.gtb_spec a b); [lia|]
         end.
  reflexivity.
Qed.

Lemma FormatSimplifiedDuration_default_case_witness :
  -5 <= Microsecond /\ FormatSimplifiedDuration (-5) = fmt_d (-5) ++ "ns".
Proof.
  assert (H : -5 <= Microsecond) by (unfold Microsecond, Nanosecond; lia).
  split; [exact H|].
  exact (proj1 FormatSimplifiedDuration_default_case (-5) H).
Defined.

(** ** The named days of [ParseExprRef] *)

Local Open Scope string_scope.
Local Open Scope Z_scope.

(** [addSec] adds when the sum is an [int64]. *)
Lemma Time_addSec_exact (sec d : Z) :
  I64.min <= sec + d <= I64.max -> Time_addSec sec d = sec + d.
Proof.
  intros H. unfold Time_addSec, I64.add. rewrite (I64_wrap_small _ H).
  cbv zeta.
  destruct (Z.gtb_spec (sec + d) sec), (Z.gtb_spec d 0);
    try reflexivity; lia.
Qed.

(** [Truncate] to 24 hours gives midnight UTC of the UTC day of the
    instant, whatever the location: it keeps the location and changes the
    instant to a whole number of days since the zero time.  The instant is
    not in the first day of the [int64] seconds, where that midnight has no
    [int64]. *)
Lemma Time_Truncate_day (t : Time) :
  0 <= nsec t < 1000000000 ->
  I64.min + secondsPerDay <= abs_sec t <= I64.max ->
  Time_Truncate t (I64.mul Hour 24)
  = mkTime (secondsPerDay * (abs_sec t / secondsPerDay)) 0 (zone_offset t).
Proof.
  intros Hns Hsec. unfold Time_Truncate, secondsPerDay in *.
  change (I64.mul Hour 24) with 86400000000000.
  change (86400000000000 <=? 0) with false. cbv iota.
  destruct t as [a ns off]. cbn [abs_sec nsec zone_offset] in *.
  pose proof (Z.div_mod a 86400 ltac:(lia)) as Ea.
  pose proof (Z.mod_pos_bound a 86400 ltac:(lia)) as Ba.
  set (q := a / 86400) in *. set (m := a mod 86400) in *.
  assert (Er : (a * 1000000000 + ns) mod 86400000000000 = m * 1000000000 + ns).
  { symmetry. apply (Z.mod_unique _ _ q); [left; lia|lia]. }
  rewrite Er. unfold Time_Add. cbn [abs_sec nsec zone_offset].
  assert (Eq : I64.quot (- (m * 1000000000 + ns)) 1000000000 = - m).
  { unfold I64.quot. rewrite Z.quot_opp_l by lia.
    rewrite Z.quot_div_nonneg by lia.
    replace ((m * 1000000000 + ns) / 1000000000) with m
      by (apply (Z.div_unique _ _ m ns); lia).
    apply I64_wrap_small. unfold I64.min, I64.max.
    change (2 ^ 63) with 9223372036854775808. lia. }
  assert (Erem : I64.rem (- (m * 1000000000 + ns)) 1000000000 = - ns).
  { unfold I64.rem. rewrite Z.rem_opp_l by lia.
    rewrite Z.rem_mod_nonneg by lia.
    replace ((m * 1000000000 + ns) mod 1000000000) with ns
      by (apply (Z.mod_unique _ _ m ns); [left; lia|lia]).
    reflexivity. }
  rewrite Eq, Erem. replace (ns + - ns) with 0 by lia.
  change (0 >=? 1000000000) with false. change (0 <? 0) with false. cbv iota.
  rewrite Time_addSec_exact by lia.
  f_equal. lia.
Qed.

(** ["today"] is the midnight of UTC before the reference time, for every
    reference time a [time.Time] holds, the first day of the [int64]
    seconds apart. *)
Lemma ParseExprRef_today (time_Parse : string -> string -> result Time)
    (ref : Time) :
  0 <= nsec ref < 1000000000 ->
  I64.min + secondsPerDay <= abs_sec ref <= I64.max ->
  ParseExprRef time_Parse "today" ref
  = Some (Ok (mkTime (secondsPerDay * (abs_sec ref / secondsPerDay)) 0
                (zone_offset ref))).
Proof.
  intros Hns Hsec.
  change (ParseExprRef time_Parse "today" ref)
    with (Some (Ok (Time_Truncate ref (I64.mul Hour 24)))).
  now rewrite Time_Truncate_day.
Qed.

(** C2 fails on the code for a reference time outside UTC.  At 02:00 on
    November 14, 2024, five hours east of UTC, ["today"] is 05:00 on
    November 13 on the clock of the reference time: not a midnight, and
    not the day of the reference time.  ["yesterday"] and ["tomorrow"] are
    05:00 on November 12 and 14. *)
Theorem ParseExprRef_today_not_local_midnight
    (time_Parse : string -> string -> result Time) :
  let ref := time_Date 2024 11 14 2 0 0 0 (5 * 3600) in
  (Time_Date ref = (2024, 11, 14) /\ Time_Clock ref = (2, 0, 0))
  /\ (exists t, ParseExprRef time_Parse "today" ref = Some (Ok t)
                /\ Time_Date t = (2024, 11, 13) /\ Time_Clock t = (5, 0, 0)
                /\ zone_offset t = 5 * 3600)
  /\ (exists t, ParseExprRef time_Parse "yesterday" ref = Some (Ok t)
                /\ Time_Date t = (2024, 11, 12) /\ Time_Clock t = (5, 0, 0))
  /\ (exists t, ParseExprRef time_Parse "tomorrow" ref = Some (Ok t)
                /\ Time_Date t = (2024, 11, 14) /\ Time_Clock t = (5, 0, 0)).
Proof.
  intros ref.
  split; [split; reflexivity|].
  split; [eexists; split; [reflexivity|repeat split]|].
  split; eexists; (split; [reflexivity|repeat split]).
Qed.

(** ** The fraction lexer *)

Local Open Scope string_scope.
Local Open Scope Z_scope.

(** After an overflow the loop only skips digits. *)
Lemma leadingFraction_from_overflow (s : string) (x : Z) (scale : spec_float) :
  leadingFraction_from x scale true s = (x, scale, skip_digits s).
Proof.
  induction s as [|c s IH]; cbn [leadingFraction_from skip_digits].
  - reflexivity.
  - rewrite is_digit_test. destruct (is_digit c); cbn [negb]; [exact IH|reflexivity].
Qed.

(** Before an overflow the loop accumulates the longest run of digits whose
    value, read as an unbounded number on top of [x], does not pass 2^63;
    it skips the digits after them. *)
Lemma leadingFraction_from_spec (s : string) (x : Z) (scale : spec_float) :
  0 <= x <= 2 ^ 63 ->
  exists k : nat,
    (k <= List.length (digit_run s))%nat
    /\ leadingFraction_from x scale false s
       = (decimal_value_from x (firstn k (digit_run s)),
          scale_after k scale, skip_digits s)
    /\ 0 <= decimal_value_from x (firstn k (digit_run s)) <= 2 ^ 63
    /\ ((k < List.length (digit_run s))%nat ->
        2 ^ 63 < decimal_value_from x (firstn (S k) (digit_run s))).
Proof.
  revert x scale. induction s as [|c s IH]; intros x scale Hx.
  - exists O. cbn. repeat split; try lia.
  - cbn [leadingFraction_from digit_run skip_digits]. rewrite is_digit_test.
    destruct (is_digit c) eqn:Ec; cbn [negb].
    2:{ exists O. cbn. repeat split; try lia. }
    assert (Hd : 0 <= byte c - 48 <= 9) by (apply is_digit_bounds in Ec; lia).
    unfold U64.div. rewrite !byte_0.
    change (2 ^ 63) with 9223372036854775808 in *.
    change ((9223372036854775808 - 1) / 10) with 922337203685477580.
    destruct (Z.gtb_spec x 922337203685477580) as [Hpre|Hpre].
    + exists O. rewrite leadingFraction_from_overflow.
      cbn [firstn List.length]. cbv [decimal_value_from fold_left scale_after Nat.iter nat_rect].
      repeat split; try lia.
    + rewrite lexer_step_exact
        by (auto; change (2 ^ 63 / 10) with 922337203685477580; lia).
      destruct (Z.gtb_spec (10 * x + (byte c - 48)) 9223372036854775808)
        as [Hpost|Hpost].
      * exists O. rewrite leadingFraction_from_overflow.
        cbn [firstn List.length]. cbv [decimal_value_from fold_left scale_after Nat.iter nat_rect].
        repeat split; try lia.
      * destruct (IH (10 * x + (byte c - 48))
                    (F64.mul scale (F64.of_uint64 10)))
          as (k & Hk & E & Hv & Hnext);
          [change (2 ^ 63) with 9223372036854775808; lia|].
        exists (S k). cbn [List.length firstn].
        split; [lia|]. split; [|split].
        -- rewrite E. unfold scale_after. rewrite Nat.iter_succ_r. reflexivity.
        -- exact Hv.
        -- intros Hlt. apply Hnext. lia.
Qed.

Lemma skip_digits_append (ds rest : string) :
  all_digits ds = true ->
  match rest with EmptyString => True | String c _ => is_digit c = false end ->
  skip_digits (ds ++ rest) = rest.
Proof.
  intros Hds Hrest. induction ds as [|c ds IH]; cbn [append].
  - destruct rest as [|c r]; [reflexivity|]. cbn [skip_digits]. now rewrite Hrest.
  - cbn [all_digits] in Hds. apply andb_true_iff in Hds. destruct Hds as [Hc Hds].
    cbn [skip_digits]. rewrite Hc. now apply IH.
Qed.

(** ** Double precision: magnitudes *)

Lemma digits2_pos_size (p : positive) : digits2_pos p = Pos.size p.
Proof. induction p as [p IH|p IH|]; cbn; now rewrite ?IH. Qed.

Lemma Zdigits2_log2 (m : Z) : 0 < m -> Zdigits2 m = Z.log2 m + 1.
Proof.
  destruct m as [|p|p]; try lia. intros _. cbn [Zdigits2].
  rewrite digits2_pos_size.
  destruct p as [p|p|]; cbn [Pos.size Z.log2]; try reflexivity;
    now rewrite Pos2Z.inj_succ.
Qed.

Lemma Zdigits2_nonneg (m : Z) : 0 <= Zdigits2 m.
Proof. destruct m; cbn; lia. Qed.

Lemma Zdigits2_pos (p : positive) : 1 <= Zdigits2 (Zpos p).
Proof. cbn. lia. Qed.

Lemma Zdigits2_bound (m : Z) : 0 <= m -> m < 2 ^ Zdigits2 m.
Proof.
  intros Hm. destruct (Z.eq_dec m 0) as [->|Hnz]; [reflexivity|].
  rewrite Zdigits2_log2 by lia.
  pose proof (Z.log2_spec m ltac:(lia)) as H. unfold Z.succ in H. lia.
Qed.

Lemma Zdigits2_le (a b : Z) : 0 <= a <= b -> Zdigits2 a <= Zdigits2 b.
Proof.
  intros H. destruct (Z.eq_dec a 0) as [->|Ha]; [apply Zdigits2_nonneg|].
  rewrite !Zdigits2_log2 by lia.
  pose proof (Z.log2_le_mono a b ltac:(lia)). lia.
Qed.

Lemma Zdigits2_succ (m : Z) : 0 <= m -> Zdigits2 (m + 1) <= Zdigits2 m + 1.
Proof.
  intros Hm. destruct (Z.eq_dec m 0) as [->|Hnz]; [cbn; lia|].
  rewrite !Zdigits2_log2 by lia.
  pose proof (Z.log2_succ_le m) as H. unfold Z.succ in H. lia.
Qed.

Lemma Zdigits2_mul (a b : Z) :
  0 < a -> 0 < b -> Zdigits2 (a * b) <= Zdigits2 a + Zdigits2 b.
Proof.
  intros Ha Hb. rewrite !Zdigits2_log2 by nia.
  pose proof (Z.log2_mul_above a b ltac:(lia) ltac:(lia)). lia.
Qed.

Lemma Zdigits2_div_pow2 (m n : Z) :
  0 <= m -> 0 < n -> Zdigits2 (m / 2 ^ n) + n <= Z.max (Zdigits2 m) n.
Proof.
  intros Hm Hn.
  assert (Hp : 0 < 2 ^ n) by (apply Z.pow_pos_nonneg; lia).
  assert (Hq : 0 <= m / 2 ^ n) by (apply Z.div_pos; lia).
  destruct (Z.eq_dec (m / 2 ^ n) 0) as [->|Hnz]; [cbn; lia|].
  assert (Hm0 : 0 < m).
  { destruct (Z.eq_dec m 0) as [->|]; [|lia]. now rewrite Z.div_0_l in Hnz by lia. }
  rewrite (Zdigits2_log2 (m / 2 ^ n)) by lia.
  rewrite (Zdigits2_log2 m) by lia.
  rewrite <- Z.shiftr_div_pow2 by lia.
  rewrite Z.log2_shiftr by lia.
  destruct (Z_lt_dec (Z.log2 m) n) as [Hlt|Hge]; [|lia].
  exfalso. apply Hnz. apply Z.div_small. split; [lia|].
  pose proof (Z.log2_spec m Hm0) as [_ H]. unfold Z.succ in H.
  apply (Z.lt_le_trans _ _ _ H). apply Z.pow_le_mono_r; lia.
Qed.

(** ** Double precision: the rounding of [SpecFloat] *)

Lemma shr_1_m (mrs : shr_record) :
  0 <= shr_m mrs -> shr_m (shr_1 mrs) = shr_m mrs / 2.
Proof.
  destruct mrs as [m r s]. cbn [shr_m]. intros Hm.
  rewrite <- Z.div2_div.
  destruct m as [|[p|p|]|p]; try reflexivity. lia.
Qed.

Lemma iter_pos_shr_1_m (p : positive) (mrs : shr_record) :
  0 <= shr_m mrs ->
  shr_m (iter_pos shr_1 p mrs) = shr_m mrs / 2 ^ Zpos p.
Proof.
  revert mrs. induction p as [p IH|p IH|]; intros mrs Hm; cbn [iter_pos].
  - assert (Hp : 0 < 2 ^ Zpos p) by (apply Z.pow_pos_nonneg; lia).
    assert (H1 : 0 <= shr_m (shr_1 mrs))
      by (rewrite shr_1_m by lia; apply Z.div_pos; lia).
    assert (H2 : 0 <= shr_m (iter_pos shr_1 p (shr_1 mrs)))
      by (rewrite IH by lia; apply Z.div_pos; lia).
    rewrite IH, IH, shr_1_m by lia.
    rewrite !Z.div_div by lia.
    replace (Zpos p~1) with (1 + Zpos p + Zpos p) by lia.
    rewrite !Z.pow_add_r by lia. change (2 ^ 1) with 2. f_equal. ring.
  - assert (Hp : 0 < 2 ^ Zpos p) by (apply Z.pow_pos_nonneg; lia).
    assert (H2 : 0 <= shr_m (iter_pos shr_1 p mrs))
      by (rewrite IH by lia; apply Z.div_pos; lia).
    rewrite IH, IH by lia.
    rewrite !Z.div_div by lia.
    replace (Zpos p~0) with (Zpos p + Zpos p) by lia.
    rewrite !Z.pow_add_r by lia. f_equal.
  - rewrite shr_1_m by lia. reflexivity.
Qed.

Lemma shr_record_of_loc_m (m : Z) (l : location) :
  shr_m (shr_record_of_loc m l) = m.
Proof. destruct l as [|[]]; reflexivity. Qed.

(** The first step of rounding keeps the mantissa non-negative and does not
    raise the magnitude above that of its input, or above the least one. *)
Lemma shr_fexp_magnitude (m e : Z) (l : location) :
  0 <= m ->
  0 <= shr_m (fst (shr_fexp F64.prec F64.emax m e l))
  /\ Zdigits2 (shr_m (fst (shr_fexp F64.prec F64.emax m e l)))
     + snd (shr_fexp F64.prec F64.emax m e l)
     <= Z.max (Zdigits2 m + e) (-1074).
Proof.
  intros Hm. unfold shr_fexp, shr, fexp, emin, F64.prec, F64.emax.
  change (3 - 1024 - 53) with (-1074).
  destruct (Z.max (Zdigits2 m + e - 53) (-1074) - e) as [|p|p] eqn:En;
    cbn [fst snd]; rewrite ?shr_record_of_loc_m; try (split; lia).
  rewrite iter_pos_shr_1_m by (rewrite shr_record_of_loc_m; lia).
  rewrite shr_record_of_loc_m.
  assert (Hp : 0 < 2 ^ Zpos p) by (apply Z.pow_pos_nonneg; lia).
  split; [apply Z.div_pos; lia|].
  pose proof (Zdigits2_div_pow2 m (Zpos p) Hm ltac:(lia)). lia.
Qed.

Lemma round_nearest_even_bounds (m : Z) (l : location) :
  m <= round_nearest_even m l <= m + 1.
Proof. destruct l as [|[]]; cbn; try destruct (Z.even m); lia. Qed.

(** Rounding a non-negative mantissa raises the magnitude by one at
    most. *)
Lemma binary_round_aux_small (mx ex : Z) (lx : location) (B : Z) :
  0 <= mx -> Zdigits2 mx + ex + 1 <= B -> -1073 <= B <= 972 ->
  small B (binary_round_aux F64.prec F64.emax false mx ex lx).
Proof.
  intros Hmx HB Hrange. unfold binary_round_aux.
  pose proof (shr_fexp_magnitude mx ex lx Hmx) as [H1 H2].
  destruct (shr_fexp F64.prec F64.emax mx ex lx) as [mrs' e'].
  cbn [fst snd] in H1, H2.
  set (m1 := round_nearest_even (shr_m mrs') (loc_of_shr_record mrs')).
  pose proof (round_nearest_even_bounds (shr_m mrs') (loc_of_shr_record mrs'))
    as Hr. fold m1 in Hr.
  assert (Hm1 : Zdigits2 m1 <= Zdigits2 (shr_m mrs') + 1).
  { pose proof (Zdigits2_le m1 (shr_m mrs' + 1) ltac:(lia)).
    pose proof (Zdigits2_succ (shr_m mrs') H1). lia. }
  pose proof (shr_fexp_magnitude m1 e' loc_Exact ltac:(lia)) as [H3 H4].
  destruct (shr_fexp F64.prec F64.emax m1 e' loc_Exact) as [mrs'' e''].
  cbn [fst snd] in H3, H4.
  revert H3 H4. destruct (shr_m mrs'') as [|m|m] eqn:Em; intros H3 H4; [exact I| |lia].
  pose proof (Zdigits2_pos m) as Hpos.
  unfold F64.emax, F64.prec. change (1024 - 53) with 971.
  destruct (Z.leb_spec e'' 971); [unfold small; lia|lia].
Qed.

Lemma digits2_pos_iter_xO (m d : positive) :
  digits2_pos (Pos.iter xO m d) = (digits2_pos m + d)%positive.
Proof.
  induction d as [|d IH] using Pos.peano_ind.
  - cbn. lia.
  - rewrite Pos.iter_succ. cbn [digits2_pos]. rewrite IH. lia.
Qed.

Lemma shl_align_magnitude (mx : positive) (ex ex' : Z) :
  Zdigits2 (Zpos (fst (shl_align mx ex ex'))) + snd (shl_align mx ex ex')
  = Zdigits2 (Zpos mx) + ex.
Proof.
  unfold shl_align. destruct (ex' - ex) as [|d|d] eqn:E; cbn [fst snd];
    try reflexivity.
  cbn [Zdigits2]. rewrite digits2_pos_iter_xO. lia.
Qed.

(** The conversion of a positive integer. *)
Lemma of_uint64_small (f B : Z) :
  0 < f -> Zdigits2 f + 1 <= B -> B <= 972 -> small B (F64.of_uint64 f).
Proof.
  intros Hf HB Hle. destruct f as [|p|p]; try lia.
  unfold F64.of_uint64, binary_normalize, binary_round.
  pose proof (shl_align_magnitude p 0
                (fexp F64.prec F64.emax (Zpos (digits2_pos p) + 0))) as H.
  destruct (shl_align p 0 _) as [mz ez]. cbn [fst snd] in H.
  pose proof (Zdigits2_pos p).
  apply binary_round_aux_small; lia.
Qed.

(** The product of two small numbers. *)
Lemma mul_small (x y : spec_float) (Bx By B : Z) :
  small Bx x -> small By y -> Bx + By + 1 <= B -> -1073 <= B <= 972 ->
  small B (F64.mul x y).
Proof.
  intros Hx Hy HB Hrange.
  destruct x as [[|]| | |[|] mx ex]; cbn [small] in Hx; try contradiction;
    destruct y as [[|]| | |[|] my ey]; cbn [small] in Hy; try contradiction;
    try exact I.
  unfold F64.mul, SFmul. cbn [xorb].
  apply binary_round_aux_small; [lia| |exact Hrange].
  pose proof (Zdigits2_mul (Zpos mx) (Zpos my) ltac:(lia) ltac:(lia)) as H.
  rewrite <- Pos2Z.inj_mul in H. lia.
Qed.

(** The integer part of a small number. *)
Lemma trunc_small (x : spec_float) (B : Z) :
  small B x -> 0 <= B -> 0 <= F64.trunc x < 2 ^ B.
Proof.
  intros Hx HB.
  assert (Hpow : 0 < 2 ^ B) by (apply Z.pow_pos_nonneg; lia).
  destruct x as [[|]| | |[|] m e]; cbn [small] in Hx; try contradiction;
    cbn [F64.trunc]; try lia.
  pose proof (Zdigits2_bound (Zpos m) ltac:(lia)) as Hm.
  pose proof (Zdigits2_pos m) as Hd.
  destruct (Z.geb_spec e 0) as [He|He].
  - split; [apply Z.mul_nonneg_nonneg; [lia|apply Z.pow_nonneg; lia]|].
    apply (Z.lt_le_trans _ (2 ^ Zdigits2 (Zpos m) * 2 ^ e)).
    + apply Z.mul_lt_mono_pos_r; [apply Z.pow_pos_nonneg; lia|exact Hm].
    + rewrite <- Z.pow_add_r by lia. apply Z.pow_le_mono_r; lia.
  - assert (Hp : 0 < 2 ^ (- e)) by (apply Z.pow_pos_nonneg; lia).
    split; [apply Z.div_pos; lia|].
    apply Z.div_lt_upper_bound; [exact Hp|].
    destruct (Z_le_dec 0 (Zdigits2 (Zpos m) + e)) as [Hge|Hlt].
    + apply (Z.lt_le_trans _ _ _ Hm).
      rewrite <- Z.pow_add_r by lia. apply Z.pow_le_mono_r; lia.
    + apply (Z.lt_le_trans _ _ _ Hm).
      apply (Z.le_trans _ (2 ^ (- e) * 1)); [|nia].
      rewrite Z.mul_1_r. apply Z.pow_le_mono_r; lia.
Qed.

(** ** The scaled fraction stays small *)

Lemma scale_after_succ (k : nat) (scale : spec_float) :
  scale_after (S k) scale = scale_after k (F64.mul scale (F64.of_uint64 10)).
Proof. unfold scale_after. now rewrite Nat.iter_succ_r. Qed.

Lemma scales_ok_spec (n k : nat) (scale : spec_float) :
  scales_ok n k scale = true ->
  forall (j : nat) (u : string) (unit : Z),
    (j < n)%nat -> In (u, unit) unitMap_entries ->
    quotient_ok unit (k + j) (scale_after j scale) = true.
Proof.
  revert k scale. induction n as [|n IH]; intros k scale H j u unit Hj Hin;
    [lia|].
  cbn [scales_ok] in H. apply andb_true_iff in H. destruct H as [H0 Hrest].
  destruct j as [|j].
  - rewrite Nat.add_0_r. rewrite forallb_forall in H0.
    exact (H0 (u, unit) Hin).
  - rewrite scale_after_succ, Nat.add_succ_r.
    apply (IH (S k) _ Hrest j u unit); [lia|exact Hin].
Qed.

Lemma scale_after_infinity (j : nat) :
  scale_after j (S754_infinity false) = S754_infinity false.
Proof.
  induction j as [|j IH]; [reflexivity|].
  change (scale_after (S j) (S754_infinity false))
    with (F64.mul (scale_after j (S754_infinity false)) (F64.of_uint64 10)).
  now rewrite IH.
Qed.

Lemma scale_after_overflow (k : nat) :
  (309 <= k)%nat -> scale_after k (F64.of_uint64 1) = S754_infinity false.
Proof.
  intros Hk. replace k with ((k - 309) + 309)%nat by lia.
  unfold scale_after. rewrite Nat.iter_add.
  change (Nat.iter 309 _ _) with (scale_after 309 (F64.of_uint64 1)).
  replace (scale_after 309 (F64.of_uint64 1)) with (S754_infinity false)
    by (vm_compute; reflexivity).
  apply scale_after_infinity.
Qed.

Lemma unit_finite (u : string) (unit : Z) :
  In (u, unit) unitMap_entries ->
  exists m e, F64.of_uint64 unit = S754_finite false m e.
Proof.
  intros Hin. cbn [In unitMap_entries] in Hin.
  repeat (destruct Hin as [Hin|Hin];
          [injection Hin as _ <-; eexists _, _; vm_compute; reflexivity|]).
  contradiction.
Qed.

(** For every unit of the table and every number of accumulated digits the
    quotient of the unit by the scale is small. *)
Lemma quotient_ok_all (k : nat) (u : string) (unit : Z) :
  In (u, unit) unitMap_entries ->
  quotient_ok unit k (scale_after k (F64.of_uint64 1)) = true.
Proof.
  intros Hin. destruct (Nat.lt_ge_cases k 310) as [Hlt|Hge].
  - assert (T : scales_ok 310 0 (F64.of_uint64 1) = true)
      by (vm_compute; reflexivity).
    exact (scales_ok_spec 310 0 _ T k u unit Hlt Hin).
  - unfold quotient_ok. rewrite scale_after_overflow by lia.
    destruct (unit_finite u unit Hin) as (m & e & ->). reflexivity.
Qed.

(** The fraction of a unit that [ParseDuration] adds is below [2 ^ 62]. *)
Lemma scaled_fraction_bound (k : nat) (u : string) (unit f : Z) :
  In (u, unit) unitMap_entries -> 0 < f <= max_numerator k ->
  0 <= F64.trunc
         (F64.mul (F64.of_uint64 f)
            (F64.div (F64.of_uint64 unit) (scale_after k (F64.of_uint64 1))))
    < 2 ^ 62.
Proof.
  intros Hin Hf.
  pose proof (quotient_ok_all k u unit Hin) as Hq. unfold quotient_ok in Hq.
  assert (Hmax : max_numerator k <= 2 ^ 63) by (unfold max_numerator; lia).
  assert (Hdf : Zdigits2 f <= Zdigits2 (max_numerator k))
    by (apply Zdigits2_le; lia).
  assert (Hd64 : Zdigits2 (max_numerator k) <= 64)
    by (apply (Zdigits2_le _ (2 ^ 63)); lia).
  assert (Hsf : small (Zdigits2 f + 1) (F64.of_uint64 f))
    by (apply of_uint64_small; lia).
  pose proof (Zdigits2_nonneg f) as Hnn.
  apply trunc_small; [|lia].
  destruct (F64.div _ _) as [[|]| | |[|] m e]; try discriminate.
  - apply (mul_small _ _ (Zdigits2 f + 1) (60 - Zdigits2 f));
      [exact Hsf|exact I|lia|lia].
  - apply Z.leb_le in Hq.
    apply (mul_small _ _ (Zdigits2 f + 1) (Zdigits2 (Zpos m) + e));
      [exact Hsf|cbn [small]; lia|lia|lia].
Qed.

(** ** A fraction of any length *)

Lemma digit_run_range (s : string) :
  Forall (fun d => 0 <= d <= 9) (digit_run s).
Proof.
  induction s as [|c s IH]; cbn [digit_run]; [constructor|].
  destruct (is_digit c) eqn:E; [|constructor].
  constructor; [|exact IH]. apply is_digit_bounds in E. rewrite byte_0. lia.
Qed.

Lemma decimal_value_from_lt (l : list Z) (x : Z) :
  0 <= x -> Forall (fun d => 0 <= d <= 9) l ->
  decimal_value_from x l < (x + 1) * 10 ^ Z.of_nat (List.length l).
Proof.
  revert x. induction l as [|d l IH]; intros x Hx Hl.
  - cbv [decimal_value_from fold_left List.length]. change (10 ^ Z.of_nat 0) with 1. lia.
  - inversion Hl as [|? ? Hd Hl']; subst.
    assert (H : decimal_value_from (10 * x + d) l
                < (10 * x + d + 1) * 10 ^ Z.of_nat (List.length l))
      by (apply IH; [lia|exact Hl']).
    cbn [List.length]. rewrite Nat2Z.inj_succ, Z.pow_succ_r by lia.
    assert (Hp : 0 < 10 ^ Z.of_nat (List.length l))
      by (apply Z.pow_pos_nonneg; lia).
    unfold decimal_value_from in *. cbn [fold_left]. nia.
Qed.

(** What [leadingFraction] returns: a numerator of [k] digits, the scale
    after [k] digits, and the input after all its leading digits. *)
Lemma leadingFraction_result (s : string) :
  exists (k : nat) (f : Z),
    leadingFraction s = (f, scale_after k (F64.of_uint64 1), skip_digits s)
    /\ 0 <= f <= max_numerator k.
Proof.
  destruct (leadingFraction_from_spec s 0 (F64.of_uint64 1))
    as (k & Hk & E & Hv & _);
    [change (2 ^ 63) with 9223372036854775808; lia|].
  exists k, (decimal_value_from 0 (firstn k (digit_run s))).
  split; [exact E|]. split; [lia|].
  assert (Hall : Forall (fun d => 0 <= d <= 9) (firstn k (digit_run s))).
  { pose proof (digit_run_range s) as H.
    rewrite <- (firstn_skipn k (digit_run s)) in H.
    now apply Forall_app in H. }
  pose proof (decimal_value_from_lt _ 0 ltac:(lia) Hall) as Hlt.
  rewrite firstn_length_le in Hlt by exact Hk.
  unfold max_numerator. lia.
Qed.

Lemma unit_end_all (u : string) :
  unit_text u = true -> unit_end u = String.length u.
Proof.
  intros Hu. rewrite <- (append_nil_r u) at 1.
  now apply unit_end_append.
Qed.

Lemma unit_entry (u : string) (unit : Z) :
  In (u, unit) unitMap_entries ->
  unit_text u = true /\ u <> EmptyString /\ unitMap u = Some unit /\ 0 < unit.
Proof.
  intros Hin. cbn [In unitMap_entries] in Hin.
  repeat (destruct Hin as [Hin|Hin];
          [injection Hin as <- <-;
           repeat split; (discriminate || reflexivity)|]).
  contradiction.
Qed.

(** An iteration on a zero, a period, digits, however many, and a unit of
    the table succeeds, and adds less than [2 ^ 62]. *)
Lemma parse_token_fraction (orig ds u : string) (unit : Z) :
  all_digits ds = true -> In (u, unit) unitMap_entries ->
  exists d : Z,
    0 <= d < 2 ^ 62
    /\ parse_token orig "0" (String "." (ds ++ u)) 0 = Ok (EmptyString, d).
Proof.
  intros Hds Hin.
  destruct (unit_entry u unit Hin) as (Hu & Hne & Hmap & Hpos).
  assert (Hfirst : match u with
                   | EmptyString => True
                   | String c _ => is_digit c = false
                   end).
  { destruct u as [|c u']; [exact I|]. cbn [unit_text] in Hu.
    apply andb_true_iff in Hu. now apply unit_byte_not_digit. }
  assert (Hint : leadingInt (String "0" (String "." (ds ++ u)))
                 = Ok (0, String "." (ds ++ u))).
  { unfold leadingInt. change "0"%char with (digit_char 0).
    rewrite leadingInt_from_digit
      by (change (2 ^ 63) with 9223372036854775808; lia).
    apply leadingInt_from_stop. reflexivity. }
  destruct (leadingFraction_result (ds ++ u)) as (k & f & Efrac & Hf).
  rewrite (skip_digits_append ds u Hds Hfirst) in Efrac.
  unfold parse_token.
  rewrite digit_test. change (is_digit "0") with true.
  rewrite orb_true_r. cbn [negb].
  rewrite Hint. cbv beta iota zeta.
  assert (Hpre : (String.length (String "0" (String "." (ds ++ u)))
                  =? String.length (String "." (ds ++ u)))%nat = false)
    by (apply Nat.eqb_neq; cbn [String.length]; lia).
  rewrite Hpre. change (byte "." =? byte ".") with true. cbv iota.
  rewrite Efrac. cbv beta iota zeta. cbn [negb andb].
  rewrite (unit_end_all u Hu).
  assert (Hlen : (String.length u =? 0)%nat = false)
    by (apply Nat.eqb_neq; destruct u; [congruence|cbn; lia]).
  rewrite Hlen.
  pose proof (take_append u EmptyString) as Htake.
  pose proof (drop_append u EmptyString) as Hdrop.
  rewrite append_nil_r in Htake, Hdrop.
  rewrite Htake, Hdrop, Hmap.
  unfold U64.div.
  assert (Hq : 0 <= 2 ^ 63 / unit) by (apply Z.div_pos; lia).
  destruct (Z.gtb_spec 0 (2 ^ 63 / unit)); [lia|].
  change (U64.mul 0 unit) with 0.
  destruct (Z.gtb_spec f 0) as [Hfpos|Hfzero]; cbn [andb].
  - pose proof (scaled_fraction_bound k u unit f Hin ltac:(lia)) as HT.
    set (T := F64.trunc _) in *.
    change (2 ^ 62) with 4611686018427387904 in *.
    unfold F64.to_uint64. fold T.
    rewrite (U64_wrap_small T)
      by (change (2 ^ 64) with 18446744073709551616; lia).
    unfold U64.add. rewrite !Z.add_0_l.
    rewrite !(U64_wrap_small T)
      by (change (2 ^ 64) with 18446744073709551616; lia).
    change (2 ^ 63) with 9223372036854775808.
    destruct (Z.gtb_spec T 9223372036854775808); [lia|].
    exists T. split; [lia|reflexivity].
  - change (U64.add 0 0) with 0. change (0 >? 2 ^ 63) with false. cbv iota.
    exists 0. split; [lia|reflexivity].
Qed.

(** C9.  [leadingFraction] returns no error.  For every input it consumes
    all the leading digits, however many; its numerator is the value of
    the longest run of digits that does not pass 2^63 and its scale is 10
    to the length of that run.  Once a digit would take the numerator past
    that, the digits after it are consumed and neither the numerator nor
    the scale changes.  So a zero, a period, any string of digits and a
    unit of the table, ["s"] among them, parse without error. *)
Theorem leadingFraction_never_fails :
  (forall s : string,
      exists (k : nat) (f : Z),
        (k <= List.length (digit_run s))%nat
        /\ leadingFraction s
           = (f, scale_after k (F64.of_uint64 1), skip_digits s)
        /\ f = decimal_value (firstn k (digit_run s))
        /\ 0 <= f <= 2 ^ 63
        /\ ((k < List.length (digit_run s))%nat ->
            2 ^ 63 < decimal_value (firstn (S k) (digit_run s))))
  /\ (forall (s : string) (x : Z) (scale : spec_float),
         leadingFraction_from x scale true s = (x, scale, skip_digits s))
  /\ (forall (ds u : string) (unit : Z),
         all_digits ds = true -> In (u, unit) unitMap_entries ->
         exists d : Z,
           0 <= d < 2 ^ 62
           /\ ParseDuration ("0." ++ ds ++ u) = Some (Ok d))
  /\ leadingFraction "9999999999999999999999999s"
     = (999999999999999999, scale_after 18 (F64.of_uint64 1), "s").
Proof.
  split; [|split; [|split]].
  - intros s.
    destruct (leadingFraction_from_spec s 0 (F64.of_uint64 1))
      as (k & Hk & E & Hv & Hnext);
      [change (2 ^ 63) with 9223372036854775808; lia|].
    exists k, (decimal_value (firstn k (digit_run s))).
    repeat split; try assumption; apply Hv.
  - exact leadingFraction_from_overflow.
  - intros ds u unit Hds Hin.
    change ("0." ++ ds ++ u) with (String "0" (String "." (ds ++ u))).
    set (s := String "0" (String "." (ds ++ u))).
    destruct (parse_token_fraction s ds u unit Hds Hin) as (d & Hd & Htok).
    exists d. split; [exact Hd|].
    assert (Hp : parses s s 0 (Ok d)).
    { exists 1%nat. unfold s at 2. cbn [parse_tokens]. now rewrite Htok. }
    destruct (ParseDuration_final s false s d) as [_ ->];
      [reflexivity|discriminate|exact Hp|].
    change (2 ^ 62) with 4611686018427387904 in Hd.
    change (2 ^ 63) with 9223372036854775808.
    destruct (Z.eqb_spec d 9223372036854775808); [lia|reflexivity].
  - vm_compute. reflexivity.
Qed.

Lemma leadingFraction_never_fails_witness :
  exists d : Z,
    0 <= d < 2 ^ 62
    /\ ParseDuration "0.3333333333333333333333333333333333333s" = Some (Ok d).
Proof.
  apply (proj1 (proj2 (proj2 leadingFraction_never_fails))
           "3333333333333333333333333333333333333" "s" Second).
  - reflexivity.
  - cbn. tauto.
Defined.

(** * More of the code

    Properties of the duration parser and formatters, of [quote] and of
    [ParseExprRef] beyond those the specification states. *)

Local Open Scope string_scope.
Local Open Scope Z_scope.

(** ** The errors of [ParseDuration] *)

Lemma parse_token_errors (orig : string) (c0 : ascii) (t : string) (d : Z)
    (e : error) :
  parse_token orig c0 t d = Err e ->
  e = errInvalidDuration orig \/ e = errMissingUnit orig
  \/ exists u, e = errUnknownUnit u orig /\ unitMap u = None
               /\ unit_text u = true /\ u <> EmptyString.
Proof.
  unfold parse_token.
  destruct (negb _); [intros E; injection E as <-; now left|].
  destruct (leadingInt (String c0 t)) as [[v s1]|e'];
    [|intros E; injection E as <-; now left].
  destruct (match s1 with EmptyString => _ | String _ _ => _ end)
    as [[[f scale] s2] post].
  destruct (negb _ && negb post); [intros E; injection E as <-; now left|].
  destruct (unit_end s2 =? 0)%nat eqn:Ei;
    [intros E; injection E as <-; right; now left|].
  destruct (unitMap (take (unit_end s2) s2)) eqn:Emap.
  - destruct (v >? _); [intros E; injection E as <-; now left|].
    destruct (_ && _); [intros E; injection E as <-; now left|].
    destruct (_ >? _); [intros E; injection E as <-; now left|discriminate].
  - intros E; injection E as <-. right; right.
    exists (take (unit_end s2) s2). split; [reflexivity|].
    split; [exact Emap|]. apply Nat.eqb_neq in Ei.
    clear -Ei. induction s2 as [|c s2 IH]; [now cbn in Ei|].
    cbn [unit_end] in *.
    destruct (_ || _) eqn:Ec; [now cbn in Ei|].
    cbn [take unit_text]. split; [|discriminate].
    unfold unit_byte. rewrite Ec. cbn [negb andb].
    destruct (Nat.eq_dec (unit_end s2) 0) as [E0|E0].
    + rewrite E0. now destruct s2.
    + now apply IH.
Qed.

Lemma parse_tokens_errors (fuel : nat) (orig s : string) (d : Z) (e : error) :
  parse_tokens fuel orig s d = Some (Err e) ->
  e = errInvalidDuration orig \/ e = errMissingUnit orig
  \/ exists u, e = errUnknownUnit u orig /\ unitMap u = None
               /\ unit_text u = true /\ u <> EmptyString.
Proof.
  revert s d. induction fuel as [|fuel IH]; intros [|c0 t] d;
    cbn [parse_tokens]; try discriminate.
  destruct (parse_token orig c0 t d) as [[s' d']|e'] eqn:E.
  - apply IH.
  - intros H. injection H as <-. eapply parse_token_errors; eauto.
Qed.

(** X1.  Every error of [ParseDuration] is one of its three messages, about the
    input as it was given, sign included; the unit of an unknown-unit error
    is a non-empty run of bytes, none a digit or a period, that is not in
    the table. *)
Theorem ParseDuration_errors (s : string) (e : error) :
  ParseDuration s = Some (Err e) ->
  e = errInvalidDuration s \/ e = errMissingUnit s
  \/ exists u, e = errUnknownUnit u s /\ unitMap u = None
               /\ unit_text u = true /\ u <> EmptyString.
Proof.
  unfold ParseDuration. destruct (consume_sign s) as [neg body].
  destruct (String.eqb body "0"); [discriminate|].
  destruct (String.eqb body EmptyString);
    [intros E; injection E as <-; now left|].
  destruct (parse_tokens _ s body 0) as [[d|e']|] eqn:E; try discriminate.
  - destruct neg; [discriminate|].
    destruct (d >? _); [|discriminate]. intros H. injection H as <-. now left.
  - intros H. injection H as <-. eapply parse_tokens_errors; eauto.
Qed.

Lemma ParseDuration_errors_witness :
  errUnknownUnit "h " "1h 30m" = errInvalidDuration "1h 30m"
  \/ errUnknownUnit "h " "1h 30m" = errMissingUnit "1h 30m"
  \/ exists u, errUnknownUnit "h " "1h 30m" = errUnknownUnit u "1h 30m"
               /\ unitMap u = None /\ unit_text u = true /\ u <> EmptyString.
Proof.
  apply (ParseDuration_errors "1h 30m" (errUnknownUnit "h " "1h 30m")).
  reflexivity.
Defined.

(** ** The token loop and the text of the errors *)

Lemma parse_token_orig (orig orig' : string) (c0 : ascii) (t : string)
    (d : Z) (p : string * Z) :
  parse_token orig c0 t d = Ok p -> parse_token orig' c0 t d = Ok p.
Proof.
  unfold parse_token.
  destruct (negb _); [discriminate|].
  destruct (leadingInt (String c0 t)) as [[v s1]|e']; [|discriminate].
  destruct (match s1 with EmptyString => _ | String _ _ => _ end)
    as [[[f scale] s2] post].
  destruct (negb _ && negb post); [discriminate|].
  destruct (unit_end s2 =? 0)%nat; [discriminate|].
  destruct (unitMap _); [|discriminate].
  destruct (v >? _); [discriminate|].
  destruct (_ && _); [discriminate|].
  destruct (_ >? _); [discriminate|]. exact (fun E => E).
Qed.

Lemma parses_orig (orig orig' s : string) (d r : Z) :
  parses orig s d (Ok r) -> parses orig' s d (Ok r).
Proof.
  intros [fuel H]. exists fuel. revert s d H.
  induction fuel as [|fuel IH]; intros [|c0 t] d; cbn [parse_tokens];
    try discriminate; try exact (fun E => E).
  destruct (parse_token orig c0 t d) as [[s' d']|e] eqn:E; [|discriminate].
  rewrite (parse_token_orig _ orig' _ _ _ _ E). apply IH.
Qed.

(** ** Signs *)

(** X2.  A duration that parses without a sign parses to the same value after a
    plus sign and to the opposite value after a minus sign. *)
Theorem ParseDuration_signed (s : string) (d : Z) :
  consume_sign s = (false, s) -> ParseDuration s = Some (Ok d) ->
  ParseDuration (String "+" s) = Some (Ok d)
  /\ ParseDuration (String "-" s) = Some (Ok (- d)).
Proof.
  intros Hsign H. pose proof (ParseDuration_ok_inv s d H) as Hinv.
  rewrite Hsign in Hinv.
  destruct Hinv as [[-> ->]|(Hz & Hne & a & Hp & Ha & Hle & ->)];
    [split; reflexivity|].
  unfold I64.max in Hle. change (2 ^ 63) with 9223372036854775808 in *.
  split.
  - destruct (ParseDuration_final (String "+" s) false s a) as [_ ->];
      [reflexivity|exact Hne|exact (parses_orig _ _ _ _ _ Hp)|].
    change (2 ^ 63) with 9223372036854775808.
    destruct (Z.eqb_spec a 9223372036854775808); [lia|reflexivity].
  - destruct (ParseDuration_final (String "-" s) true s a) as [_ ->];
      [reflexivity|exact Hne|exact (parses_orig _ _ _ _ _ Hp)|reflexivity].
Qed.

Lemma ParseDuration_signed_witness :
  ParseDuration (String "+" "1h30m") = Some (Ok 5400000000000)
  /\ ParseDuration (String "-" "1h30m") = Some (Ok (- 5400000000000)).
Proof.
  apply (ParseDuration_signed "1h30m" 5400000000000); reflexivity.
Defined.

(** ** The accumulator *)

Lemma unitMap_In (u : string) (unit : Z) :
  unitMap u = Some unit -> In (u, unit) unitMap_entries.
Proof.
  unfold unitMap. induction unitMap_entries as [|[k v] m IH]; cbn [lookup];
    [discriminate|].
  destruct (String.eqb_spec k u) as [->|_].
  - intros E. injection E as ->. now left.
  - intros E. right. now apply IH.
Qed.

Lemma unitMap_pos (u : string) (unit : Z) : unitMap u = Some unit -> 0 < unit.
Proof. intros H. apply unitMap_In in H. now apply unit_entry in H. Qed.

Lemma leadingInt_from_range (s : string) (x v : Z) (r : string) :
  0 <= x <= 2 ^ 63 -> leadingInt_from x s = Ok (v, r) -> 0 <= v <= 2 ^ 63.
Proof.
  revert x. induction s as [|c s IH]; intros x Hx; cbn [leadingInt_from].
  - intros E. now injection E as <- _.
  - destruct (_ || _); [intros E; now injection E as <- _|].
    destruct (x >? _); [discriminate|].
    set (x' := U64.sub _ _).
    destruct (Z.gtb_spec x' (2 ^ 63)); [discriminate|].
    apply IH. split; [|assumption].
    subst x'. unfold U64.sub, U64.wrap, U64.modulus.
    apply Z.mod_pos_bound. reflexivity.
Qed.

(** An iteration adds to the accumulator, modulo 2^64, a value that does
    not depend on it and is 2^63 at most. *)
Lemma parse_token_value (orig : string) (c0 : ascii) (t : string) (x : Z)
    (s' : string) (x1 : Z) :
  parse_token orig c0 t x = Ok (s', x1) ->
  exists v : Z,
    0 <= v <= 2 ^ 63 /\ x1 = U64.add x v /\ x1 <= 2 ^ 63
    /\ forall y : Z,
         parse_token orig c0 t y
         = if U64.add y v >? 2 ^ 63 then Err (errInvalidDuration orig)
           else Ok (s', U64.add y v).
Proof.
  unfold parse_token.
  destruct (negb _); [discriminate|].
  destruct (leadingInt (String c0 t)) as [[n s1]|e'] eqn:Eint; [|discriminate].
  apply leadingInt_from_range in Eint;
    [|change (2 ^ 63) with 9223372036854775808; lia].
  destruct (match s1 with EmptyString => _ | String _ _ => _ end)
    as [[[f scale] s2] post].
  destruct (negb _ && negb post); [discriminate|].
  destruct (unit_end s2 =? 0)%nat; [discriminate|].
  destruct (unitMap _) as [unit|] eqn:Emap; [|discriminate].
  apply unitMap_pos in Emap.
  destruct (Z.gtb_spec n (U64.div (2 ^ 63) unit)) as [|Hn]; [discriminate|].
  set (v := if f >? 0 then U64.add (U64.mul n unit) _ else U64.mul n unit).
  destruct ((f >? 0) && (v >? 2 ^ 63)) eqn:Ev; [discriminate|].
  destruct (Z.gtb_spec (U64.add x v) (2 ^ 63)) as [|Hx]; [discriminate|].
  intros E. injection E as <- <-.
  exists v. repeat split; try assumption; try reflexivity.
  - subst v. destruct (f >? 0); unfold U64.add, U64.mul, U64.wrap, U64.modulus;
      apply Z.mod_pos_bound; reflexivity.
  - destruct (f >? 0) eqn:Ef.
    + cbn [andb] in Ev. rewrite Z.gtb_ltb in Ev. now apply Z.ltb_ge in Ev.
    + subst v. cbv iota. unfold U64.div in Hn.
      assert (Hprod : n * unit <= 2 ^ 63).
      { pose proof (Z.mul_div_le (2 ^ 63) unit Emap). nia. }
      unfold U64.mul. rewrite U64_wrap_small; [exact Hprod|].
      change (2 ^ 63) with 9223372036854775808 in *.
      change (2 ^ 64) with 18446744073709551616. nia.
Qed.

(** ** The token loop on a concatenation *)

Lemma leadingInt_from_append (s s2 : string) (x v : Z) (r : string) :
  leadingInt_from x s = Ok (v, r) -> r <> EmptyString ->
  leadingInt_from x (s ++ s2) = Ok (v, r ++ s2).
Proof.
  revert x. induction s as [|c s IH]; intros x; cbn [leadingInt_from append].
  - intros E. injection E as _ <-. congruence.
  - destruct (_ || _).
    + intros E _. now injection E as <- <-.
    + destruct (x >? _); [discriminate|].
      destruct (_ >? _); [discriminate|]. apply IH.
Qed.

Lemma leadingFraction_from_append (s s2 : string) (x : Z) (sc : spec_float)
    (o : bool) :
  snd (leadingFraction_from x sc o s) <> EmptyString ->
  leadingFraction_from x sc o (s ++ s2)
  = (fst (leadingFraction_from x sc o s), snd (leadingFraction_from x sc o s) ++ s2).
Proof.
  revert x sc o. induction s as [|c s IH]; intros x sc o;
    cbn [leadingFraction_from append].
  - cbn. congruence.
  - destruct (_ || _); [reflexivity|].
    destruct o; [apply IH|].
    destruct (x >? _); [apply IH|].
    destruct (_ >? _); apply IH.
Qed.

Lemma unit_end_append_number (a b : string) :
  number_start b = true -> unit_end (a ++ b) = unit_end a.
Proof.
  intros Hb. induction a as [|c a IH]; cbn [append unit_end].
  - destruct b as [|c b]; [reflexivity|]. cbn [unit_end number_start] in *.
    now rewrite digit_test, Hb.
  - destruct (_ || _); [reflexivity|]. now rewrite IH.
Qed.

Lemma take_append_le (n : nat) (a b : string) :
  (n <= String.length a)%nat -> take n (a ++ b) = take n a.
Proof.
  revert a. induction n as [|n IH]; intros [|c a] H; cbn in *; try reflexivity;
    try lia. now rewrite IH by lia.
Qed.

Lemma drop_append_le (n : nat) (a b : string) :
  (n <= String.length a)%nat -> drop n (a ++ b) = drop n a ++ b.
Proof.
  revert a. induction n as [|n IH]; intros [|c a] H; cbn in *; try reflexivity;
    try lia. now rewrite IH by lia.
Qed.

(** An iteration that succeeds does the same when more input, starting
    with a digit or a period, follows. *)
Lemma parse_token_append (orig : string) (c0 : ascii) (t s2 : string)
    (d : Z) (s' : string) (d' : Z) :
  parse_token orig c0 t d = Ok (s', d') -> number_start s2 = true ->
  parse_token orig c0 (t ++ s2) d = Ok (s' ++ s2, d').
Proof.
  intros H Hs2. unfold parse_token in *.
  destruct (negb _); [discriminate|].
  destruct (leadingInt (String c0 t)) as [[n s1]|e'] eqn:Eint; [|discriminate].
  destruct s1 as [|c1 s1'].
  { exfalso. cbv beta iota zeta in H.
    destruct (negb _ && negb false); discriminate. }
  change (String c0 (t ++ s2)) with (String c0 t ++ s2).
  unfold leadingInt in *.
  rewrite (leadingInt_from_append _ s2 _ _ _ Eint) by discriminate.
  cbn [append]. cbv beta iota zeta in H |- *.
  assert (Hpre : (String.length (String c0 t ++ s2)
                  =? String.length (String c1 (s1' ++ s2)))%nat
                 = (String.length (String c0 t)
                    =? String.length (String c1 s1'))%nat).
  { cbn [append String.length]. rewrite !length_append.
    destruct (Nat.eqb_spec (S (String.length t)) (S (String.length s1')));
      [apply Nat.eqb_eq|apply Nat.eqb_neq]; lia. }
  change (String c0 (t ++ s2)) with (String c0 t ++ s2). rewrite Hpre.
  set (pre := negb (String.length (String c0 t) =? String.length (String c1 s1'))%nat) in *.
  destruct (byte c1 =? byte ".").
  - destruct (leadingFraction s1') as [[f scale] r] eqn:Ef.
    destruct r as [|cr r'].
    { exfalso. cbv beta iota zeta in H.
      destruct (negb pre && _); discriminate. }
    unfold leadingFraction in *.
    rewrite (leadingFraction_from_append s1' s2), Ef by (rewrite Ef; discriminate).
    cbn [fst snd]. cbv beta iota zeta in H |- *.
    assert (Hpost : (String.length (s1' ++ s2)
                     =? String.length (String cr r' ++ s2))%nat
                    = (String.length s1' =? String.length (String cr r'))%nat).
    { rewrite !length_append.
      destruct (Nat.eqb_spec (String.length s1') (String.length (String cr r')));
        [apply Nat.eqb_eq|apply Nat.eqb_neq]; lia. }
    rewrite Hpost.
    destruct (negb pre && _); [discriminate|].
    rewrite (unit_end_append_number _ _ Hs2).
    destruct (unit_end (String cr r') =? 0)%nat; [discriminate|].
    pose proof (unit_end_le (String cr r')) as Hle.
    rewrite take_append_le, drop_append_le by exact Hle.
    destruct (unitMap _); [|discriminate].
    destruct (n >? _); [discriminate|].
    destruct (_ && _); [discriminate|].
    destruct (_ >? _); [discriminate|].
    now injection H as <- <-.
  - cbv beta iota zeta in H |- *.
    destruct (negb pre && _); [discriminate|].
    change (String c1 (s1' ++ s2)) with (String c1 s1' ++ s2).
    rewrite (unit_end_append_number _ _ Hs2).
    destruct (unit_end (String c1 s1') =? 0)%nat; [discriminate|].
    pose proof (unit_end_le (String c1 s1')) as Hle.
    rewrite take_append_le, drop_append_le by exact Hle.
    destruct (unitMap _); [|discriminate].
    destruct (n >? _); [discriminate|].
    destruct (_ && _); [discriminate|].
    destruct (_ >? _); [discriminate|].
    now injection H as <- <-.
Qed.

Lemma parses_fun (orig s : string) (d : Z) (r r' : result Z) :
  parses orig s d r -> parses orig s d r' -> r = r'.
Proof.
  intros [f H] [f' H'].
  pose proof (parse_tokens_fuel_more _ (Nat.max f f') _ _ _ _ H
                (Nat.le_max_l f f')) as E.
  pose proof (parse_tokens_fuel_more _ (Nat.max f f') _ _ _ _ H'
                (Nat.le_max_r f f')) as E'.
  congruence.
Qed.

Lemma parses_total (orig s : string) (d : Z) : exists r, parses orig s d r.
Proof.
  destruct (parse_tokens (String.length s) orig s d) as [r|] eqn:E.
  - exists r. now exists (String.length s).
  - exfalso. revert E. apply parse_tokens_fuel_enough. lia.
Qed.

(** The loop on a concatenation: after the first part it goes on with the
    second, from the accumulator the first part left. *)
Lemma parses_append (orig s1 s2 : string) (a b : Z) (r : result Z) :
  parses orig s1 a (Ok b) -> number_start s2 = true ->
  parses orig (s1 ++ s2) a r <-> parses orig s2 b r.
Proof.
  intros H1 Hs2.
  assert (Hto : forall r0, parses orig s2 b r0 -> parses orig (s1 ++ s2) a r0).
  { intros r0 [f2 H2]. destruct H1 as [f1 H1]. exists (f1 + f2)%nat.
    revert s1 a H1. induction f1 as [|f1 IH]; intros [|c0 t] a;
      cbn [parse_tokens append]; try discriminate.
    - intros E. injection E as ->. exact H2.
    - intros E. injection E as ->.
      apply (parse_tokens_fuel_more f2); [exact H2|lia].
    - destruct (parse_token orig c0 t a) as [[s' a']|e] eqn:Et; [|discriminate].
      intros E. cbn [Nat.add parse_tokens].
      rewrite (parse_token_append _ _ _ _ _ _ _ Et Hs2). now apply IH. }
  split; [|apply Hto].
  intros H. destruct (parses_total orig s2 b) as [r0 H0].
  rewrite (parses_fun _ _ _ _ _ H (Hto r0 H0)). exact H0.
Qed.

(** Two runs of the loop on the same input, one from an accumulator [a]
    higher than the other: if both succeed, the results differ by [a]. *)
Lemma parse_tokens_shift (fuel : nat) (orig s : string) (a x y y' : Z) :
  1 <= a <= 2 ^ 63 - 1 -> 0 <= x -> a + x <= 2 ^ 63 ->
  parse_tokens fuel orig s x = Some (Ok y) ->
  parse_tokens fuel orig s (a + x) = Some (Ok y') ->
  y' = a + y.
Proof.
  intros Ha. revert s x. induction fuel as [|fuel IH]; intros [|c0 t] x Hx Hax;
    cbn [parse_tokens]; try discriminate.
  - intros E E'. injection E as <-. now injection E' as <-.
  - intros E E'. injection E as <-. now injection E' as <-.
  - destruct (parse_token orig c0 t x) as [[s' x1]|e] eqn:Et; [|discriminate].
    destruct (parse_token_value _ _ _ _ _ _ Et) as (v & Hv & Ex1 & Hx1 & Hall).
    rewrite (Hall (a + x)).
    change (2 ^ 63) with 9223372036854775808 in *.
    assert (E1 : x1 = x + v).
    { rewrite Ex1. unfold U64.add. apply U64_wrap_small.
      change (2 ^ 64) with 18446744073709551616. lia. }
    assert (E2 : U64.add (a + x) v = a + x1).
    { unfold U64.add. rewrite U64_wrap_small; [lia|].
      change (2 ^ 64) with 18446744073709551616. lia. }
    rewrite E2.
    destruct (Z.gtb_spec (a + x1) 9223372036854775808); [discriminate|].
    apply IH; lia.
Qed.

Lemma parses_number_start (orig s : string) (d r : Z) :
  parses orig s d (Ok r) -> number_start s = true.
Proof.
  destruct s as [|c t]; [reflexivity|].
  intros [[|fuel] H]; cbn [parse_tokens] in H; [discriminate|].
  unfold parse_token in H. cbn [number_start].
  destruct (negb _) eqn:E; [discriminate|].
  apply negb_false_iff in E. now rewrite digit_test in E.
Qed.

Lemma consume_sign_append (c : ascii) (t s2 : string) :
  consume_sign (String c t) = (false, String c t) ->
  consume_sign (String c t ++ s2) = (false, String c t ++ s2).
Proof.
  cbn [append]. unfold consume_sign.
  destruct (_ || _); [|reflexivity].
  intros E. injection E as _ E.
  exfalso. assert (H : String.length t = String.length (String c t)) by congruence.
  cbn in H. lia.
Qed.

(** X3.  When two unsigned durations parse and their concatenation parses too,
    it parses to their sum. *)
Theorem ParseDuration_concat (s1 s2 : string) (d1 d2 d : Z) :
  consume_sign s1 = (false, s1) -> consume_sign s2 = (false, s2) ->
  s1 <> "0" -> s2 <> "0" ->
  ParseDuration s1 = Some (Ok d1) -> ParseDuration s2 = Some (Ok d2) ->
  ParseDuration (s1 ++ s2) = Some (Ok d) ->
  d = d1 + d2.
Proof.
  intros Hu1 Hu2 Hz1 Hz2 H1 H2 H.
  pose proof (ParseDuration_ok_inv _ _ H1) as I1. rewrite Hu1 in I1.
  pose proof (ParseDuration_ok_inv _ _ H2) as I2. rewrite Hu2 in I2.
  destruct I1 as [[? _]|(_ & Hne1 & a1 & Hp1 & Ha1 & Hle1 & ->)]; [congruence|].
  destruct I2 as [[? _]|(_ & Hne2 & a2 & Hp2 & Ha2 & Hle2 & ->)]; [congruence|].
  destruct s1 as [|c t]; [congruence|].
  pose proof (ParseDuration_ok_inv _ _ H) as I.
  rewrite (consume_sign_append _ _ _ Hu1) in I.
  destruct I as [[E _]|(_ & _ & a & Hp & Ha & Hle & ->)].
  { exfalso. destruct s2 as [|c2 t2]; [congruence|].
    assert (L : String.length (String c t ++ String c2 t2) = 1%nat)
      by now rewrite E.
    rewrite length_append in L. cbn in L. lia. }
  pose proof (parses_number_start _ _ _ _ Hp2) as Hs2.
  apply (parses_orig _ (String c t ++ s2)) in Hp1.
  apply (parses_orig _ (String c t ++ s2)) in Hp2.
  apply (parses_append _ _ _ _ _ _ Hp1 Hs2) in Hp.
  unfold I64.max in *. change (2 ^ 63) with 9223372036854775808 in *.
  destruct (Z.eq_dec a1 0) as [->|Hnz].
  - pose proof (parses_fun _ _ _ _ _ Hp Hp2) as E. injection E as ->. lia.
  - destruct Hp as [f Hp]. destruct Hp2 as [f2 Hp2].
    pose proof (parse_tokens_fuel_more _ (Nat.max f f2) _ _ _ _ Hp
                  (Nat.le_max_l f f2)) as E.
    pose proof (parse_tokens_fuel_more _ (Nat.max f f2) _ _ _ _ Hp2
                  (Nat.le_max_r f f2)) as E2.
    replace a1 with (a1 + 0) in E by lia.
    apply (parse_tokens_shift (Nat.max f f2) (String c t ++ s2) s2 a1 0 a2 a);
      try assumption; change (2 ^ 63) with 9223372036854775808; lia.
Qed.

Lemma ParseDuration_concat_witness : 5400000000000 = 3600000000000 + 1800000000000.
Proof.
  apply (ParseDuration_concat "1h" "30m"); try reflexivity; discriminate.
Defined.

(** ** Tokens and units *)

Lemma fmt_d_token_start (n : Z) (rest : string) :
  0 <= n -> exists c t, (fmt_d n ++ rest) = String c t /\ is_digit c = true.
Proof.
  intros Hn. unfold fmt_d. destruct (Z.ltb_spec n 0); [lia|].
  rewrite <- fmt_digits_app.
  destruct (fmt_digits_head 19 n rest Hn) as (c & t & E & Hc & _).
  now exists c, t.
Qed.

Lemma consume_sign_digit (c : ascii) (t : string) :
  is_digit c = true -> consume_sign (String c t) = (false, String c t).
Proof.
  intros Hc. apply is_digit_bounds in Hc. unfold consume_sign.
  change (byte "-") with 45. change (byte "+") with 43.
  destruct (Z.eqb_spec (byte c) 45), (Z.eqb_spec (byte c) 43); try lia.
  reflexivity.
Qed.

(** X4.  A number as [%d] writes it, followed by a unit of the table, parses to
    the number times the scale of the unit, whenever that is a
    [Duration]. *)
Theorem ParseDuration_token (n : Z) (u : string) (unit : Z) :
  In (u, unit) unitMap_entries -> 0 <= n -> n * unit <= I64.max ->
  ParseDuration (fmt_d n ++ u) = Some (Ok (n * unit)).
Proof.
  intros Hin Hn Hle.
  destruct (unit_entry u unit Hin) as (Hu & Hne & Hmap & Hpos).
  unfold I64.max in Hle. change (2 ^ 63) with 9223372036854775808 in Hle.
  assert (Hp : parses (fmt_d n ++ u) (fmt_d n ++ u) 0 (Ok (n * unit))).
  { rewrite <- (append_nil_r u) at 2.
    apply (parses_token _ n u unit EmptyString 0); try assumption;
      try reflexivity; try (change (2 ^ 63) with 9223372036854775808; lia).
    cbn [Z.add]. apply parses_done. }
  destruct (fmt_d_token_start n u Hn) as (c & t & E & Hc).
  rewrite E in *.
  destruct (ParseDuration_final _ false _ _ (consume_sign_digit c t Hc)
              ltac:(discriminate) Hp) as [_ ->].
  change (2 ^ 63) with 9223372036854775808.
  destruct (Z.eqb_spec (n * unit) 9223372036854775808); [lia|reflexivity].
Qed.

Lemma ParseDuration_token_witness :
  ParseDuration (fmt_d 3 ++ (greek_mu ++ "s")) = Some (Ok (3 * Microsecond)).
Proof.
  apply ParseDuration_token.
  - cbn. tauto.
  - lia.
  - unfold I64.max. cbn. lia.
Defined.

(** X5.  A token written after a duration that parses adds its value: the units
    may come in any order and any number of times. *)
Theorem ParseDuration_append_token (s : string) (d n : Z) (u : string)
    (unit : Z) :
  consume_sign s = (false, s) -> s <> "0" ->
  ParseDuration s = Some (Ok d) ->
  In (u, unit) unitMap_entries -> 0 <= n -> d + n * unit <= I64.max ->
  ParseDuration (s ++ fmt_d n ++ u) = Some (Ok (d + n * unit)).
Proof.
  intros Hu Hz H Hin Hn Hle.
  destruct (unit_entry u unit Hin) as (Hut & Hne & Hmap & Hpos).
  pose proof (ParseDuration_ok_inv _ _ H) as I. rewrite Hu in I.
  destruct I as [[? _]|(_ & Hnes & a & Hp & Ha & Hle1 & ->)]; [congruence|].
  unfold I64.max in *. change (2 ^ 63) with 9223372036854775808 in *.
  destruct s as [|c t]; [congruence|].
  set (tok := fmt_d n ++ u) in *.
  assert (Hstart : number_start tok = true).
  { subst tok. destruct (fmt_d_token_start n u Hn) as (c' & t' & E & Hc).
    rewrite E. cbn [number_start]. rewrite Hc. apply orb_true_r. }
  assert (Hp2 : parses (String c t ++ tok) tok a (Ok (a + n * unit))).
  { subst tok. rewrite <- (append_nil_r u) at 2.
    apply (parses_token _ n u unit EmptyString a); try assumption;
      try reflexivity; try (change (2 ^ 63) with 9223372036854775808; lia).
    apply parses_done. }
  apply (parses_orig _ (String c t ++ tok)) in Hp.
  apply (parses_append _ _ _ _ _ _ Hp Hstart) in Hp2.
  destruct (ParseDuration_final _ false _ _ (consume_sign_append _ _ tok Hu)
              ltac:(discriminate) Hp2) as [_ ->].
  change (2 ^ 63) with 9223372036854775808.
  destruct (Z.eqb_spec (a + n * unit) 9223372036854775808); [lia|reflexivity].
Qed.

Lemma ParseDuration_append_token_witness :
  ParseDuration ("30m" ++ fmt_d 2 ++ "h") = Some (Ok (30 * Minute + 2 * Hour)).
Proof.
  apply (ParseDuration_append_token "30m" (30 * Minute) 2 "h" Hour).
  - reflexivity.
  - discriminate.
  - reflexivity.
  - cbn. tauto.
  - lia.
  - unfold I64.max. cbn. lia.
Defined.

(** ** The bytes of an accepted input *)

Lemma all_bytes_append (p : ascii -> bool) (a b : string) :
  all_bytes p (a ++ b) = all_bytes p a && all_bytes p b.
Proof.
  induction a as [|c a IH]; cbn [append all_bytes]; [reflexivity|].
  now rewrite IH, andb_assoc.
Qed.

Lemma all_bytes_weaken (p q : ascii -> bool) (s : string) :
  (forall c, p c = true -> q c = true) ->
  all_bytes p s = true -> all_bytes q s = true.
Proof.
  intros Hpq. induction s as [|c s IH]; cbn [all_bytes]; [reflexivity|].
  rewrite !andb_true_iff. intros [Hc Hs]. split; [now apply Hpq|now apply IH].
Qed.

Lemma leadingInt_from_split (s : string) (x v : Z) (r : string) :
  leadingInt_from x s = Ok (v, r) ->
  exists ds, s = ds ++ r /\ all_bytes is_digit ds = true.
Proof.
  revert x. induction s as [|c s IH]; intros x; cbn [leadingInt_from].
  - intros E. injection E as _ <-. now exists EmptyString.
  - rewrite is_digit_test. destruct (is_digit c) eqn:Ec; cbn [negb].
    + destruct (x >? _); [discriminate|].
      destruct (_ >? _); [discriminate|].
      intros E. destruct (IH _ E) as (ds & -> & Hds).
      exists (String c ds). split; [reflexivity|].
      cbn [all_bytes]. now rewrite Ec.
    + intros E. injection E as _ <-. now exists EmptyString.
Qed.

Lemma leadingFraction_from_split (s : string) (x : Z) (sc : spec_float)
    (o : bool) :
  exists ds, s = ds ++ snd (leadingFraction_from x sc o s)
             /\ all_bytes is_digit ds = true.
Proof.
  revert x sc o. induction s as [|c s IH]; intros x sc o;
    cbn [leadingFraction_from].
  - now exists EmptyString.
  - rewrite is_digit_test. destruct (is_digit c) eqn:Ec; cbn [negb];
      [|now exists EmptyString].
    assert (Hstep : forall x' sc' o',
               exists ds, String c s = ds ++ snd (leadingFraction_from x' sc' o' s)
                          /\ all_bytes is_digit ds = true).
    { intros x' sc' o'. destruct (IH x' sc' o') as (ds & E & Hds).
      exists (String c ds). split; [cbn [append]; now rewrite <- E|].
      cbn [all_bytes]. now rewrite Ec. }
    destruct o; [apply Hstep|].
    destruct (x >? _); [apply Hstep|].
    destruct (_ >? _); apply Hstep.
Qed.

Lemma take_drop (n : nat) (s : string) : s = take n s ++ drop n s.
Proof.
  revert s. induction n as [|n IH]; intros [|c s]; cbn; try reflexivity.
  now rewrite <- IH.
Qed.

Lemma has_byte_all (s : string) (p : ascii -> bool) :
  (forall c, has_byte c s = true -> p c = true) -> all_bytes p s = true.
Proof.
  induction s as [|c s IH]; intros H; cbn [all_bytes]; [reflexivity|].
  rewrite H by (cbn [has_byte]; now rewrite Ascii.eqb_refl).
  apply IH. intros c' Hc'. apply H. cbn [has_byte]. rewrite Hc'.
  apply orb_true_r.
Qed.

Lemma unit_bytes_grammar (u : string) (unit : Z) :
  unitMap u = Some unit -> all_bytes grammar_byte u = true.
Proof.
  intros H. apply unitMap_In in H. apply has_byte_all. intros c Hc.
  unfold grammar_byte. apply orb_true_iff. right.
  apply existsb_exists. now exists (u, unit).
Qed.

Lemma digits_grammar (ds : string) :
  all_bytes is_digit ds = true -> all_bytes grammar_byte ds = true.
Proof.
  apply all_bytes_weaken. intros c Hc. unfold grammar_byte. now rewrite Hc.
Qed.

(** What an iteration consumes is made of bytes of the grammar. *)
Lemma parse_token_consumes (orig : string) (c0 : ascii) (t : string) (d : Z)
    (s' : string) (d' : Z) :
  parse_token orig c0 t d = Ok (s', d') ->
  exists consumed, String c0 t = consumed ++ s'
                   /\ all_bytes grammar_byte consumed = true.
Proof.
  unfold parse_token.
  destruct (negb _); [discriminate|].
  destruct (leadingInt (String c0 t)) as [[n s1]|e'] eqn:Eint; [|discriminate].
  apply leadingInt_from_split in Eint. destruct Eint as (ds & -> & Hds).
  assert (Hfrac : forall f scale s2 post,
             match s1 with
             | EmptyString => (0, F64.of_uint64 1, s1, false)
             | String c s1' =>
                 if byte c =? byte "." then
                   let pl := String.length s1' in
                   let '(f, scale, s2) := leadingFraction s1' in
                   (f, scale, s2, negb (pl =? String.length s2)%nat)
                 else (0, F64.of_uint64 1, s1, false)
             end = (f, scale, s2, post) ->
             exists fr, s1 = fr ++ s2 /\ all_bytes grammar_byte fr = true).
  { intros f scale s2 post. destruct s1 as [|c s1'].
    - intros E. injection E as _ _ <- _. now exists EmptyString.
    - destruct (byte c =? byte ".") eqn:Ec.
      + destruct (leadingFraction_from_split s1' 0 (F64.of_uint64 1) false)
          as (fs & E & Hfs).
        fold (leadingFraction s1') in E.
        destruct (leadingFraction s1') as [[f0 sc0] r0]. cbn [snd] in E.
        intros E'. injection E' as _ _ <- _.
        exists (String c fs). split; [cbn [append]; now rewrite <- E|].
        cbn [all_bytes]. rewrite (digits_grammar _ Hfs).
        unfold grammar_byte. rewrite Ec. now rewrite orb_true_r.
      + intros E. injection E as _ _ <- _. now exists EmptyString. }
  destruct (match s1 with EmptyString => _ | String _ _ => _ end)
    as [[[f scale] s2] post].
  destruct (Hfrac f scale s2 post eq_refl) as (fr & -> & Hfr).
  destruct (negb _ && negb post); [discriminate|].
  destruct (unit_end s2 =? 0)%nat; [discriminate|].
  destruct (unitMap _) as [unit|] eqn:Emap; [|discriminate].
  destruct (n >? _); [discriminate|].
  destruct (_ && _); [discriminate|].
  destruct (_ >? _); [discriminate|].
  intros E. injection E as <- _.
  exists (ds ++ fr ++ take (unit_end s2) s2). split.
  - rewrite !append_assoc. now rewrite <- take_drop.
  - rewrite !all_bytes_append, (digits_grammar _ Hds), Hfr.
    now rewrite (unit_bytes_grammar _ _ Emap).
Qed.

Lemma parses_grammar (orig s : string) (d r : Z) :
  parses orig s d (Ok r) -> all_bytes grammar_byte s = true.
Proof.
  intros [fuel H]. revert s d H.
  induction fuel as [|fuel IH]; intros [|c0 t] d; cbn [parse_tokens];
    try discriminate; try reflexivity.
  destruct (parse_token orig c0 t d) as [[s' d']|e] eqn:E; [|discriminate].
  intros H. destruct (parse_token_consumes _ _ _ _ _ _ E) as (cs & -> & Hcs).
  rewrite all_bytes_append, Hcs. exact (IH _ _ H).
Qed.

(** X6.  An input that [ParseDuration] accepts is made, after its sign, of
    digits, periods and bytes of the units of the table: it has no white
    space and no second sign. *)
Theorem ParseDuration_accepts_grammar_bytes (s : string) (d : Z) :
  ParseDuration s = Some (Ok d) ->
  all_bytes grammar_byte (snd (consume_sign s)) = true
  /\ grammar_byte " " = false /\ grammar_byte "-" = false
  /\ grammar_byte "+" = false.
Proof.
  intros H. split; [|repeat split].
  pose proof (ParseDuration_ok_inv _ _ H) as I.
  destruct (consume_sign s) as [neg body]. cbn [snd].
  destruct I as [[-> _]|(_ & _ & a & Hp & _)]; [reflexivity|].
  exact (parses_grammar _ _ _ _ Hp).
Qed.

Lemma ParseDuration_accepts_grammar_bytes_witness :
  all_bytes grammar_byte (snd (consume_sign "-1.5h30m")) = true
  /\ grammar_byte " " = false /\ grammar_byte "-" = false
  /\ grammar_byte "+" = false.
Proof.
  apply (ParseDuration_accepts_grammar_bytes "-1.5h30m" (- 7200000000000)).
  reflexivity.
Defined.

(** ** The canonical rendering of a non-negative duration *)

Lemma fmt_digits_all_digits (fuel : nat) (u : Z) (acc : string) :
  0 <= u -> all_bytes is_digit acc = true ->
  all_bytes is_digit (fmt_digits fuel u acc) = true.
Proof.
  revert u acc. induction fuel as [|fuel IH]; intros u acc Hu Hacc;
    cbn [fmt_digits]; [exact Hacc|].
  destruct (Z.ltb_spec u 10).
  - cbn [all_bytes]. rewrite is_digit_digit_char by lia. exact Hacc.
  - apply IH; [apply Z.div_pos; lia|].
    cbn [all_bytes]. rewrite is_digit_digit_char; [exact Hacc|].
    pose proof (Z.mod_pos_bound u 10). lia.
Qed.

Lemma component_canonical (v : Z) (u : string) :
  0 <= v -> all_bytes canonical_byte u = true ->
  all_bytes canonical_byte (component v u) = true.
Proof.
  intros Hv Hu. unfold component. destruct (v =? 0); [reflexivity|].
  rewrite all_bytes_append, Hu, andb_true_r.
  unfold fmt_d. destruct (Z.ltb_spec v 0); [lia|].
  apply (all_bytes_weaken is_digit).
  - intros c Hc. unfold canonical_byte. now rewrite Hc.
  - now apply fmt_digits_all_digits.
Qed.

(** X7.  The rendering of a non-negative duration is not empty and starts with a
    digit; it is made of digits and unit letters, with no sign, no period
    and no white space. *)
Theorem FormatDuration_canonical (d : Z) :
  0 <= d <= I64.max ->
  (exists c t, FormatDuration d = String c t /\ is_digit c = true)
  /\ all_bytes canonical_byte (FormatDuration d) = true
  /\ canonical_byte "-" = false /\ canonical_byte "+" = false
  /\ canonical_byte "." = false /\ canonical_byte " " = false.
Proof.
  intros Hd. split; [|split; [|repeat split]].
  - destruct (Z.eq_dec d 0) as [->|Hnz]; [now exists "0"%char, "s"|].
    pose proof (parses_FormatDuration EmptyString d ltac:(lia)) as Hp.
    assert (Hs : token_start (FormatDuration d) = true).
    { rewrite FormatDuration_components by lia.
      rewrite <- (append_nil_r (component ((d mod Second) mod 1000) "ns")).
      assert (HS : 0 < Second) by reflexivity.
      pose proof (Z.mod_pos_bound d Second HS).
      repeat (apply token_start_component;
              [first [apply Z.div_pos; [|lia]
                     |apply Z.mod_pos_bound; lia]|]);
        try reflexivity;
        repeat (first [apply Z.div_pos; [|lia]|lia]). }
    destruct (FormatDuration d) as [|c t].
    + destruct Hp as [[|f] Hp]; cbn in Hp; injection Hp as Hp; lia.
    + now exists c, t.
  - destruct (Z.eq_dec d 0) as [->|Hnz]; [reflexivity|].
    rewrite FormatDuration_components by lia.
    assert (HS : 0 < Second) by reflexivity.
    pose proof (Z.mod_pos_bound d Second HS).
    rewrite !all_bytes_append.
    rewrite !component_canonical;
      try reflexivity;
      repeat (first [apply Z.div_pos; [|lia]
                    |apply Z.mod_pos_bound; lia|lia]).
Qed.

Lemma FormatDuration_canonical_witness :
  (exists c t, FormatDuration 90061001001001 = String c t /\ is_digit c = true)
  /\ all_bytes canonical_byte (FormatDuration 90061001001001) = true
  /\ canonical_byte "-" = false /\ canonical_byte "+" = false
  /\ canonical_byte "." = false /\ canonical_byte " " = false.
Proof.
  apply FormatDuration_canonical. unfold I64.max. lia.
Defined.

(** X8.  Two different non-negative durations have different renderings. *)
Theorem FormatDuration_injective (d1 d2 : Z) :
  0 <= d1 <= I64.max -> 0 <= d2 <= I64.max ->
  FormatDuration d1 = FormatDuration d2 -> d1 = d2.
Proof.
  assert (Hzero : forall d, 0 < d <= I64.max -> FormatDuration d <> "0s").
  { intros d Hd E. pose proof (parses_FormatDuration EmptyString d Hd) as Hp.
    rewrite E in Hp.
    assert (Hp0 : parses EmptyString "0s" 0 (Ok 0)) by (now exists 1%nat).
    pose proof (parses_fun _ _ _ _ _ Hp Hp0) as H. injection H as H. lia. }
  intros H1 H2 E.
  destruct (Z.eq_dec d1 0) as [->|N1], (Z.eq_dec d2 0) as [->|N2];
    try reflexivity.
  - exfalso. apply (Hzero d2); [lia|]. now rewrite <- E.
  - exfalso. apply (Hzero d1); [lia|]. now rewrite E.
  - pose proof (parses_FormatDuration EmptyString d1 ltac:(lia)) as P1.
    pose proof (parses_FormatDuration EmptyString d2 ltac:(lia)) as P2.
    rewrite E in P1. pose proof (parses_fun _ _ _ _ _ P1 P2) as H.
    now injection H.
Qed.

Lemma FormatDuration_injective_witness : 60000000000 = 60000000000.
Proof.
  apply (FormatDuration_injective 60000000000 60000000000);
    try (unfold I64.max; lia). reflexivity.
Defined.

(** ** The simplified rendering *)

Lemma Truncate_quot (d m : Z) :
  0 <= d <= I64.max -> 0 < m ->
  I64.quot (Duration_Truncate d m) m = d / m.
Proof.
  intros Hd Hm. unfold Duration_Truncate.
  destruct (Z.leb_spec m 0); [lia|].
  rewrite I64_rem_nonneg by lia.
  pose proof (Z.mod_pos_bound d m Hm) as Hb.
  pose proof (Z.div_mod d m ltac:(lia)) as Hdm.
  assert (Hq : 0 <= d / m) by (apply Z.div_pos; lia).
  assert (Hsub : I64.sub d (d mod m) = m * (d / m)).
  { unfold I64.sub. rewrite I64_wrap_small; [lia|].
    unfold I64.min, I64.max in *. nia. }
  rewrite Hsub.
  destruct (I64_quot_nonneg (m * (d / m)) m) as [-> _]; [nia|lia|].
  rewrite Z.mul_comm. apply Z.div_mul. lia.
Qed.

(** X9.  Above one microsecond the simplified rendering shows the duration in
    the largest unit it is strictly more than, divided by that unit and
    rounded down: a count from 1 to 1000, 60 or 24.  Above a day it shows
    the whole days and, from 0 to 23, the whole hours left. *)
Theorem FormatSimplifiedDuration_truncates (d : Z) :
  Microsecond < d <= I64.max ->
  (d <= Millisecond ->
   FormatSimplifiedDuration d = fmt_d (d / Microsecond) ++ (micro_sign ++ "s")
   /\ 1 <= d / Microsecond <= 1000)
  /\ (Millisecond < d <= Second ->
      FormatSimplifiedDuration d = fmt_d (d / Millisecond) ++ "ms"
      /\ 1 <= d / Millisecond <= 1000)
  /\ (Second < d <= Minute ->
      FormatSimplifiedDuration d = fmt_d (d / Second) ++ "s"
      /\ 1 <= d / Second <= 60)
  /\ (Minute < d <= Hour ->
      FormatSimplifiedDuration d = fmt_d (d / Minute) ++ "m"
      /\ 1 <= d / Minute <= 60)
  /\ (Hour < d <= Hour * 24 ->
      FormatSimplifiedDuration d = fmt_d (d / Hour) ++ "h"
      /\ 1 <= d / Hour <= 24)
  /\ (Hour * 24 < d ->
      FormatSimplifiedDuration d
      = fmt_d (d / (Hour * 24)) ++ "d " ++ fmt_d (d mod (Hour * 24) / Hour) ++ "h"
      /\ 1 <= d / (Hour * 24) <= 106751
      /\ 0 <= d mod (Hour * 24) / Hour <= 23).
Proof.
  intros Hd. unfold FormatSimplifiedDuration.
  change (I64.mul Hour 24) with (Hour * 24).
  assert (Hdr : 0 <= d <= I64.max)
    by (change Microsecond with 1000 in Hd; lia).
  rewrite !Truncate_quot by (try exact Hdr; reflexivity).
  rewrite I64_rem_nonneg by (try reflexivity; lia).
  change (Hour * 24) with 86400000000000 in *.
  change Hour with 3600000000000 in *. change Minute with 60000000000 in *.
  change Second with 1000000000 in *. change Millisecond with 1000000 in *.
  change Microsecond with 1000 in *.
  unfold I64.max in *. change (2 ^ 63) with 9223372036854775808 in *.
  assert (Hmod : 0 <= d mod 86400000000000 < 86400000000000)
    by (apply Z.mod_pos_bound; lia).
  destruct (I64_quot_nonneg (d mod 86400000000000) 3600000000000) as [-> _];
    [unfold I64.max; change (2 ^ 63) with 9223372036854775808; lia|lia|].
  repeat split; intros;
    repeat match goal with
           | |- context [?a >? ?b] =>
               destruct (Z.gtb_spec a b); try lia
           end;
    try reflexivity;
    try (apply Z.div_le_lower_bound; lia);
    try (apply Z.div_le_upper_bound; lia);
    try (apply Z.div_pos; lia);
    try (apply Z.lt_succ_r; apply Z.div_lt_upper_bound; lia).
Qed.

Lemma FormatSimplifiedDuration_truncates_witness :
  FormatSimplifiedDuration 5399999999999 = fmt_d (5399999999999 / Hour) ++ "h"
  /\ 1 <= 5399999999999 / Hour <= 24.
Proof.
  assert (H : Microsecond < 5399999999999 <= I64.max)
    by (unfold I64.max; cbn; lia).
  apply (proj1 (proj2 (proj2 (proj2 (proj2
           (FormatSimplifiedDuration_truncates 5399999999999 H)))))).
  cbn. lia.
Defined.

(** ** The lexers on short and on rendered numbers *)

Lemma digit_run_append (ds rest : string) :
  all_digits ds = true ->
  match rest with EmptyString => True | String c _ => is_digit c = false end ->
  digit_run (ds ++ rest) = digit_run ds
  /\ List.length (digit_run ds) = String.length ds.
Proof.
  intros Hds Hrest. induction ds as [|c ds IH]; cbn [append digit_run String.length].
  - split; [|reflexivity]. destruct rest as [|c r]; [reflexivity|].
    cbn [digit_run]. now rewrite Hrest.
  - cbn [all_digits] in Hds. apply andb_true_iff in Hds. destruct Hds as [Hc Hds].
    rewrite Hc. destruct (IH Hds) as [-> E]. cbn [List.length]. now rewrite E.
Qed.

Lemma scale_after_exact (k : nat) :
  (k <= 22)%nat ->
  scale_after k (F64.of_uint64 1) = F64.of_uint64 (10 ^ Z.of_nat k).
Proof.
  intros Hk.
  do 23 (destruct k as [|k]; [vm_compute; reflexivity|]). lia.
Qed.

(** X10.  Up to 18 digits after the period, [leadingFraction] loses nothing: the
    numerator is the value of all the digits and the scale is the exact
    power of ten. *)
Theorem leadingFraction_exact (ds rest : string) :
  all_digits ds = true -> (String.length ds <= 18)%nat ->
  match rest with EmptyString => True | String c _ => is_digit c = false end ->
  leadingFraction (ds ++ rest)
  = (decimal_value (digit_run ds),
     F64.of_uint64 (10 ^ Z.of_nat (String.length ds)), rest)
  /\ 0 <= decimal_value (digit_run ds) < 10 ^ Z.of_nat (String.length ds).
Proof.
  intros Hds Hlen Hrest.
  destruct (digit_run_append ds rest Hds Hrest) as [Erun Elen].
  assert (Hbound : forall n, (n <= String.length ds)%nat ->
            0 <= decimal_value_from 0 (firstn n (digit_run ds))
            < 10 ^ Z.of_nat n).
  { intros n Hn.
    assert (Hall : Forall (fun d => 0 <= d <= 9) (firstn n (digit_run ds))).
    { pose proof (digit_run_range ds) as H.
      rewrite <- (firstn_skipn n (digit_run ds)) in H.
      now apply Forall_app in H. }
    pose proof (decimal_value_from_lt _ 0 ltac:(lia) Hall) as Hlt.
    rewrite firstn_length_le in Hlt by lia.
    pose proof (decimal_value_prefix_le (digit_run ds) n 0 ltac:(lia)
                  (digit_run_nonneg ds)). lia. }
  destruct (leadingFraction_from_spec (ds ++ rest) 0 (F64.of_uint64 1))
    as (k & Hk & E & Hv & Hnext);
    [change (2 ^ 63) with 9223372036854775808; lia|].
  rewrite Erun, Elen in *.
  assert (Ek : k = String.length ds).
  { destruct (Nat.eq_dec k (String.length ds)) as [|Hne]; [assumption|].
    exfalso. assert (Hlt : (k < String.length ds)%nat) by lia.
    specialize (Hnext Hlt).
    pose proof (Hbound (S k) ltac:(lia)) as [_ Hb].
    assert (10 ^ Z.of_nat (S k) <= 10 ^ 18)
      by (apply Z.pow_le_mono_r; lia).
    change (2 ^ 63) with 9223372036854775808 in Hnext.
    change (10 ^ 18) with 1000000000000000000 in *. lia. }
  subst k. rewrite <- Elen in E at 1. rewrite firstn_all in E.
  unfold leadingFraction. rewrite E.
  rewrite scale_after_exact by lia.
  rewrite (skip_digits_append ds rest Hds Hrest).
  split; [reflexivity|].
  pose proof (Hbound (String.length ds) ltac:(lia)) as Hb.
  replace (firstn (String.length ds) (digit_run ds)) with (digit_run ds) in Hb
    by (rewrite <- Elen; now rewrite firstn_all).
  exact Hb.
Qed.

Lemma leadingFraction_exact_witness :
  leadingFraction ("125" ++ "ms")
  = (decimal_value (digit_run "125"),
     F64.of_uint64 (10 ^ Z.of_nat (String.length "125")), "ms")
  /\ 0 <= decimal_value (digit_run "125") < 10 ^ Z.of_nat (String.length "125").
Proof.
  apply leadingFraction_exact.
  - reflexivity.
  - cbn. lia.
  - reflexivity.
Defined.

(** X11.  [leadingInt] reads back what [%d] writes: a number from 0 to 2^63
    followed by anything that does not start with a digit. *)
Theorem leadingInt_reads_fmt_d (n : Z) (rest : string) :
  0 <= n <= 2 ^ 63 ->
  match rest with EmptyString => True | String c _ => is_digit c = false end ->
  leadingInt (fmt_d n ++ rest) = Ok (n, rest).
Proof.
  intros Hn Hrest. unfold fmt_d. destruct (Z.ltb_spec n 0); [lia|].
  rewrite <- fmt_digits_app. unfold leadingInt.
  rewrite leadingInt_from_fmt_digits; [now apply leadingInt_from_stop|exact Hn|].
  change (2 ^ 63) with 9223372036854775808 in Hn.
  change (10 ^ Z.of_nat 20) with 100000000000000000000. lia.
Qed.

Lemma leadingInt_reads_fmt_d_witness :
  leadingInt (fmt_d (2 ^ 63) ++ "ns") = Ok (2 ^ 63, "ns").
Proof.
  apply leadingInt_reads_fmt_d.
  - change (2 ^ 63) with 9223372036854775808. lia.
  - reflexivity.
Defined.

(** ** [quote] *)

Lemma byte_char_byte (c : ascii) : byte_char (byte c) = c.
Proof.
  unfold byte_char, byte. rewrite N2Z.id. apply ascii_N_embedding.
Qed.

Lemma byte_inj (c c' : ascii) : byte c = byte c' -> c = c'.
Proof. intros H. rewrite <- (byte_char_byte c), H. apply byte_char_byte. Qed.

Lemma string_of_rune_ascii (c0 : ascii) :
  byte c0 < 0x80 -> string_of_rune (byte c0) = String c0 EmptyString.
Proof.
  intros H. pose proof (byte_range c0) as Hr. unfold string_of_rune.
  destruct (Z.leb_spec 0 (byte c0)); [|lia].
  destruct (Z.ltb_spec (byte c0) 0x80); [|lia].
  cbn [andb]. now rewrite byte_char_byte.
Qed.

Lemma string_of_rune_length (c : Z) :
  (0x80 <= c < 0x800 -> String.length (string_of_rune c) = 2%nat)
  /\ (0x800 <= c < 0x10000 -> String.length (string_of_rune c) = 3%nat)
  /\ (0x10000 <= c <= 0x10FFFF -> String.length (string_of_rune c) = 4%nat).
Proof.
  unfold string_of_rune.
  repeat split; intros H;
    repeat match goal with
           | |- context [?a <=? ?b] => destruct (Z.leb_spec a b)
           | |- context [?a <? ?b] => destruct (Z.ltb_spec a b)
           end; cbn [andb orb]; try reflexivity; try lia.
Qed.

(** What the decoding of a rune gives, by the number of bytes it takes. *)
Lemma decode_rune_cases (c0 : ascii) (t : string) :
  (byte c0 < 0x80 /\ decode_rune c0 t = (byte c0, 1%nat))
  \/ (0x80 <= byte c0 /\ decode_rune c0 t = (runeError, 1%nat)
      /\ take 3 (String c0 t) <> string_of_rune runeError)
  \/ (exists c c1 r, t = String c1 r /\ decode_rune c0 t = (c, 2%nat)
        /\ 0x80 <= c < 0x800 /\ 0x80 <= byte c0 /\ 0x80 <= byte c1)
  \/ (exists c c1 c2 r, t = String c1 (String c2 r)
        /\ decode_rune c0 t = (c, 3%nat) /\ 0x800 <= c < 0x10000
        /\ 0x80 <= byte c0 /\ 0x80 <= byte c1 /\ 0x80 <= byte c2
        /\ (c = runeError ->
            String c0 (String c1 (String c2 EmptyString))
            = string_of_rune runeError))
  \/ (exists c c1 c2 c3 r, t = String c1 (String c2 (String c3 r))
        /\ decode_rune c0 t = (c, 4%nat) /\ 0x10000 <= c <= 0x10FFFF
        /\ 0x80 <= byte c0 /\ 0x80 <= byte c1 /\ 0x80 <= byte c2
        /\ 0x80 <= byte c3).
Proof.
  pose proof (byte_range c0) as R0.
  assert (Hinv : forall b1 b2, byte c0 <> 0xEF \/ b1 <> 0xBF \/ b2 <> 0xBD ->
            forall c1 c2 r, t = String c1 (String c2 r) ->
            byte c1 = b1 -> byte c2 = b2 ->
            take 3 (String c0 t) <> string_of_rune runeError).
  { intros b1 b2 Hne c1 c2 r -> E1 E2. cbn [take]. intros E.
    change (string_of_rune runeError)
      with (String "239" (String "191" (String "189" EmptyString))) in E.
    injection E as -> -> ->. cbn in *. subst. lia. }
  assert (Hshort : (String.length t < 2)%nat ->
            take 3 (String c0 t) <> string_of_rune runeError).
  { intros Hlen E. destruct t as [|c1 [|c2 r]]; cbn in *; try discriminate.
    lia. }
  assert (Hfirst : byte c0 <> 0xEF ->
            take 3 (String c0 t) <> string_of_rune runeError).
  { intros Hne E. destruct t as [|c1 [|c2 r]]; cbn in E; try discriminate.
    injection E as -> _ _. now cbn in Hne. }
  unfold decode_rune.
  destruct (Z.ltb_spec (byte c0) 0x80) as [H0|H0]; [now left|].
  right.
  destruct (Z.ltb_spec (byte c0) 0xC2) as [H1|H1].
  { left. repeat split; try lia. apply Hfirst. lia. }
  destruct (Z.ltb_spec (byte c0) 0xE0) as [H2|H2].
  { destruct t as [|c1 r].
    - left. repeat split; try lia. apply Hfirst. lia.
    - unfold in_range.
      destruct (Z.leb_spec 0x80 (byte c1)), (Z.leb_spec (byte c1) 0xBF);
        cbn [andb];
        try (left; repeat split; try lia; apply Hfirst; lia).
      right; left. eexists _, c1, r. repeat split; try reflexivity; lia. }
  destruct (Z.ltb_spec (byte c0) 0xF0) as [H3|H3].
  { destruct t as [|c1 [|c2 r]];
      try (left; repeat split; try lia; apply Hshort; cbn; lia).
    pose proof (byte_range c1) as R1. pose proof (byte_range c2) as R2.
    unfold in_range.
    destruct (Z.eqb_spec (byte c0) 0xE0), (Z.eqb_spec (byte c0) 0xED);
      try lia;
      match goal with
      | |- context [(?lo <=? byte c1) && (byte c1 <=? ?hi)] =>
          destruct (Z.leb_spec lo (byte c1)), (Z.leb_spec (byte c1) hi)
      end;
      destruct (Z.leb_spec 0x80 (byte c2)), (Z.leb_spec (byte c2) 0xBF);
      cbn [andb];
      try (left; repeat split; try lia;
           apply (Hinv (byte c1) (byte c2)) with (c1 := c1) (c2 := c2) (r := r);
           try reflexivity; lia);
      right; right; left; eexists _, c1, c2, r;
      (repeat split; try reflexivity; try lia);
      intros Hc; unfold runeError in Hc;
      assert (E : byte c0 = 0xEF /\ byte c1 = 0xBF /\ byte c2 = 0xBD) by lia;
      destruct E as (E0 & E1 & E2);
      change (string_of_rune 0xFFFD)
        with (String "239" (String "191" (String "189" EmptyString)));
      rewrite (byte_inj c0 "239" E0), (byte_inj c1 "191" E1),
        (byte_inj c2 "189" E2); reflexivity. }
  destruct (Z.ltb_spec (byte c0) 0xF5) as [H4|H4].
  { destruct t as [|c1 [|c2 [|c3 r]]];
      try (left; repeat split; try lia; apply Hfirst; lia).
    unfold in_range.
    destruct (Z.eqb_spec (byte c0) 0xF0), (Z.eqb_spec (byte c0) 0xF4);
      try lia;
      match goal with
      | |- context [(?lo <=? byte c1) && (byte c1 <=? ?hi)] =>
          destruct (Z.leb_spec lo (byte c1)), (Z.leb_spec (byte c1) hi)
      end;
      destruct (Z.leb_spec 0x80 (byte c2)), (Z.leb_spec (byte c2) 0xBF),
        (Z.leb_spec 0x80 (byte c3)), (Z.leb_spec (byte c3) 0xBF);
      cbn [andb];
      try (left; repeat split; try lia; apply Hfirst; lia);
      right; right; right; eexists _, c1, c2, c3, r;
      repeat split; try reflexivity; lia. }
  left. repeat split; try lia. apply Hfirst. lia.
Qed.

Lemma escape_bytes_spec (a r buf : string) :
  all_bytes escaped_byte a = true ->
  escape_bytes (String.length a) (a ++ r) buf = Some (buf ++ quote_bytes a).
Proof.
  revert buf. induction a as [|b a IH]; intros buf Ha;
    cbn [String.length append escape_bytes quote_bytes].
  - now rewrite append_nil_r.
  - cbn [all_bytes] in Ha. apply andb_true_iff in Ha. destruct Ha as [Hb Ha].
    rewrite IH by exact Ha. unfold quote_byte.
    unfold escaped_byte in Hb. rewrite Hb. now rewrite append_assoc.
Qed.

Lemma escape_bytes_prefix (n : nat) (a r buf : string) :
  n = String.length a -> all_bytes escaped_byte a = true ->
  escape_bytes n (a ++ r) buf = Some (buf ++ quote_bytes a).
Proof. intros ->. apply escape_bytes_spec. Qed.

Lemma escaped_high (b : ascii) : 0x80 <= byte b -> escaped_byte b = true.
Proof.
  intros H. unfold escaped_byte.
  destruct (Z.geb_spec (byte b) 0x80); [reflexivity|lia].
Qed.

(** The loop of [quote] writes the bytes of its input one by one. *)
Lemma quote_loop_bytes (fuel : nat) (s buf : string) :
  (String.length s <= fuel)%nat ->
  quote_loop fuel s buf = Some (buf ++ quote_bytes s).
Proof.
  revert s buf. induction fuel as [|fuel IH]; intros [|c0 t] buf Hlen;
    cbn [String.length] in Hlen; try lia;
    try (cbn [quote_loop quote_bytes]; now rewrite append_nil_r).
  cbn [quote_loop].
  change (byte " ") with 32. unfold runeSelf.
  destruct (decode_rune_cases c0 t)
    as [(H0 & ->)
       |[(H0 & -> & Hne)
        |[(c & c1 & r & -> & -> & Hc & H0 & H1)
         |[(c & c1 & c2 & r & -> & -> & Hc & H0 & H1 & H2 & Herr)
          |(c & c1 & c2 & c3 & r & -> & -> & Hc & H0 & H1 & H2 & H3)]]]];
    cbv beta iota zeta.
  - (* one ASCII byte *)
    pose proof (byte_range c0) as R0.
    destruct (Z.geb_spec (byte c0) 0x80); [lia|]. cbn [orb].
    rewrite string_of_rune_ascii by exact H0.
    destruct (Z.ltb_spec (byte c0) 32) as [Hctl|Hprint].
    + destruct (Z.eqb_spec (byte c0) runeError); [unfold runeError in *; lia|].
      cbn [String.length].
      change (escape_bytes 1 (String c0 t) buf)
        with (escape_bytes 1 (String c0 EmptyString ++ t) buf).
      rewrite (escape_bytes_prefix 1 (String c0 EmptyString) t buf eq_refl)
        by (cbn [all_bytes]; unfold escaped_byte;
            destruct (Z.ltb_spec (byte c0) 0x20);
            [now rewrite orb_true_r|lia]).
      cbn [drop]. rewrite IH by lia.
      cbn [quote_bytes]. rewrite !append_assoc. reflexivity.
    + cbn [drop]. rewrite IH by lia. cbn [quote_bytes]. unfold quote_byte.
      destruct (Z.geb_spec (byte c0) 0x80); [lia|].
      destruct (Z.ltb_spec (byte c0) 0x20); [lia|]. cbn [orb].
      destruct ((byte c0 =? byte "034") || (byte c0 =? byte "\"));
        now rewrite !append_assoc.
  - (* one byte that starts no rune *)
    change (runeError >=? 0x80) with true. cbn [orb].
    change (runeError =? runeError) with true. cbv iota.
    apply String.eqb_neq in Hne. rewrite Hne, andb_false_r.
    change (escape_bytes 1 (String c0 t) buf)
      with (escape_bytes 1 (String c0 EmptyString ++ t) buf).
    rewrite (escape_bytes_prefix 1 (String c0 EmptyString) t buf eq_refl)
      by (cbn [all_bytes]; now rewrite escaped_high).
    cbn [drop]. rewrite IH by lia.
    cbn [quote_bytes]. rewrite !append_assoc. reflexivity.
  - (* a rune of two bytes *)
    destruct (Z.geb_spec c 0x80); [|lia]. cbn [orb].
    destruct (Z.eqb_spec c runeError); [unfold runeError in *; lia|].
    rewrite (proj1 (string_of_rune_length c)) by exact Hc.
    change (escape_bytes 2 (String c0 (String c1 r)) buf)
      with (escape_bytes 2 (String c0 (String c1 EmptyString) ++ r) buf).
    rewrite (escape_bytes_prefix 2 (String c0 (String c1 EmptyString)) r buf
               eq_refl)
      by (cbn [all_bytes]; now rewrite !escaped_high).
    cbn [drop]. cbn [String.length] in Hlen. rewrite IH by lia.
    cbn [quote_bytes]. rewrite !append_assoc. reflexivity.
  - (* a rune of three bytes *)
    destruct (Z.geb_spec c 0x80); [|lia]. cbn [orb].
    assert (Hw : (if c =? runeError
                  then if (3 <=? String.length (String c0 (String c1 (String c2 r))))%nat
                          && String.eqb (take 3 (String c0 (String c1 (String c2 r))))
                               (string_of_rune runeError)
                       then 3%nat else 1%nat
                  else String.length (string_of_rune c)) = 3%nat).
    { destruct (Z.eqb_spec c runeError) as [E|E].
      - cbn [take String.length Nat.leb andb]. rewrite (Herr E).
        now rewrite String.eqb_refl.
      - apply (proj1 (proj2 (string_of_rune_length c))). exact Hc. }
    rewrite Hw.
    change (escape_bytes 3 (String c0 (String c1 (String c2 r))) buf)
      with (escape_bytes 3
              (String c0 (String c1 (String c2 EmptyString)) ++ r) buf).
    rewrite (escape_bytes_prefix 3
               (String c0 (String c1 (String c2 EmptyString))) r buf eq_refl)
      by (cbn [all_bytes]; now rewrite !escaped_high).
    cbn [drop]. cbn [String.length] in Hlen. rewrite IH by lia.
    cbn [quote_bytes]. rewrite !append_assoc. reflexivity.
  - (* a rune of four bytes *)
    destruct (Z.geb_spec c 0x80); [|lia]. cbn [orb].
    destruct (Z.eqb_spec c runeError); [unfold runeError in *; lia|].
    rewrite (proj2 (proj2 (string_of_rune_length c))) by exact Hc.
    change (escape_bytes 4 (String c0 (String c1 (String c2 (String c3 r)))) buf)
      with (escape_bytes 4
              (String c0 (String c1 (String c2 (String c3 EmptyString))) ++ r)
              buf).
    rewrite (escape_bytes_prefix 4
               (String c0 (String c1 (String c2 (String c3 EmptyString)))) r
               buf eq_refl)
      by (cbn [all_bytes]; now rewrite !escaped_high).
    cbn [drop]. cbn [String.length] in Hlen. rewrite IH by lia.
    cbn [quote_bytes]. rewrite !append_assoc. reflexivity.
Qed.

Lemma quote_eq_bytes (s : string) :
  quote s = Some (String "034" (quote_bytes s ++ String "034" EmptyString)).
Proof.
  unfold quote. rewrite quote_loop_bytes by lia. reflexivity.
Qed.

(** X12.  [quote] never fails and takes the bytes of its input one by one,
    whether they are UTF-8 or not: a byte below 0x20 or from 0x80 on
    becomes a backslash, an [x] and its two hexadecimal digits, a double
    quote or a backslash gets a backslash before it, any other byte stays,
    and the whole is put between double quotes. *)
Theorem quote_bytewise (s : string) :
  quote s = Some (String "034" (quote_bytes s ++ String "034" EmptyString)).
Proof.
  unfold quote. rewrite quote_loop_bytes by lia. reflexivity.
Qed.

Lemma quote_byte_text (b : ascii) :
  all_bytes ascii_text_byte (quote_byte b) = true.
Proof. destruct b as [[] [] [] [] [] [] [] []]; reflexivity. Qed.

(** X13.  What [quote] returns is between double quotes and made of bytes from
    0x20 to 0x7F: no control byte below 0x20 and no byte outside ASCII gets
    into an error message. *)
Theorem quote_ascii_text (s : string) :
  exists q, quote s = Some (String "034" (q ++ String "034" EmptyString))
            /\ all_bytes ascii_text_byte q = true.
Proof.
  exists (quote_bytes s). split; [apply quote_eq_bytes|].
  induction s as [|b s IH]; cbn [quote_bytes]; [reflexivity|].
  now rewrite all_bytes_append, quote_byte_text.
Qed.

Lemma hex_value_byte (b : ascii) :
  16 * hex_value (hex_digit (Z.shiftr (byte b) 4))
  + hex_value (hex_digit (Z.land (byte b) 0xF)) = byte b.
Proof. destruct b as [[] [] [] [] [] [] [] []]; reflexivity. Qed.

(** The three shapes of a byte in quoted text. *)
Lemma quote_byte_shape (b : ascii) :
  (quote_byte b = String b EmptyString /\ b <> "\"%char /\ b <> "034"%char)
  \/ (quote_byte b = String "\" (String b EmptyString) /\ b <> "x"%char)
  \/ quote_byte b
     = String "\" (String "x"
         (String (hex_digit (Z.shiftr (byte b) 4))
            (String (hex_digit (Z.land (byte b) 0xF)) EmptyString))).
Proof.
  unfold quote_byte. destruct (_ || _); [now right; right|].
  destruct (Z.eqb_spec (byte b) (byte "034")) as [E|N1].
  - right; left. apply byte_inj in E. subst b. split; [reflexivity|discriminate].
  - destruct (Z.eqb_spec (byte b) (byte "\")) as [E|N2]; cbn [orb].
    + right; left. apply byte_inj in E. subst b.
      split; [reflexivity|discriminate].
    + left. repeat split; congruence.
Qed.

Lemma quote_byte_inj (b1 b2 : ascii) (x y : string) :
  quote_byte b1 ++ x = quote_byte b2 ++ y -> b1 = b2 /\ x = y.
Proof.
  destruct (quote_byte_shape b1) as [(-> & A1 & B1)|[(-> & A1)| ->]],
    (quote_byte_shape b2) as [(-> & A2 & B2)|[(-> & A2)| ->]];
    cbn [append]; intros E; injection E; intros; subst;
    try congruence; try (split; congruence).
  split; [|congruence]. apply byte_inj.
  rewrite <- (hex_value_byte b1), <- (hex_value_byte b2). congruence.
Qed.

Lemma quote_bytes_inj (s1 s2 : string) :
  quote_bytes s1 ++ String "034" EmptyString
  = quote_bytes s2 ++ String "034" EmptyString -> s1 = s2.
Proof.
  revert s2. induction s1 as [|b1 s1 IH]; intros [|b2 s2];
    cbn [quote_bytes append]; try reflexivity.
  - intros E. exfalso. rewrite append_assoc in E.
    destruct (quote_byte_shape b2) as [(Q & A & B)|[(Q & A)|Q]];
      rewrite Q in E; cbn [append] in E; injection E; intros; congruence.
  - intros E. exfalso. rewrite append_assoc in E.
    destruct (quote_byte_shape b1) as [(Q & A & B)|[(Q & A)|Q]];
      rewrite Q in E; cbn [append] in E; injection E; intros; congruence.
  - rewrite !append_assoc. intros E.
    apply quote_byte_inj in E. destruct E as [-> E]. now rewrite (IH _ E).
Qed.

(** X14.  Two different inputs have different quoted texts. *)
Theorem quote_injective (s1 s2 : string) : quote s1 = quote s2 -> s1 = s2.
Proof.
  rewrite !quote_eq_bytes. intros E. injection E as E.
  now apply quote_bytes_inj.
Qed.

Lemma quote_injective_witness : "5x" = "5x".
Proof. apply quote_injective. reflexivity. Defined.

(** ** The text of the errors *)

Lemma quote_bytes_prefix_free (s1 s2 x y : string) :
  quote_bytes s1 ++ String "034" x = quote_bytes s2 ++ String "034" y ->
  s1 = s2 /\ x = y.
Proof.
  revert s2. induction s1 as [|b1 s1 IH]; intros [|b2 s2];
    cbn [quote_bytes append].
  - intros E. injection E as ->. now split.
  - intros E. exfalso. rewrite append_assoc in E.
    destruct (quote_byte_shape b2) as [(Q & A & B)|[(Q & A)|Q]];
      rewrite Q in E; cbn [append] in E; injection E; intros; congruence.
  - intros E. exfalso. rewrite append_assoc in E.
    destruct (quote_byte_shape b1) as [(Q & A & B)|[(Q & A)|Q]];
      rewrite Q in E; cbn [append] in E; injection E; intros; congruence.
  - rewrite !append_assoc. intros E.
    apply quote_byte_inj in E. destruct E as [-> E].
    destruct (IH _ E) as [-> ->]. now split.
Qed.

(** X15.  The text of an error tells which error it is and about which input:
    two errors with the same text are the same error. *)
Theorem error_message_injective (e1 e2 : error) (m : string) :
  error_message e1 = Some m -> error_message e2 = Some m -> e1 = e2.
Proof.
  destruct e1 as [o1|o1|u1 o1| | |l1 v1], e2 as [o2|o2|u2 o2| | |l2 v2];
    cbn [error_message]; rewrite ?quote_eq_bytes;
    intros E1 E2; try discriminate E1; try discriminate E2;
    rewrite <- E2 in E1; clear E2; try reflexivity;
    cbn [append] in E1; try discriminate E1;
    injection E1 as E1.
  - apply quote_bytes_prefix_free in E1. now destruct E1 as [-> _].
  - apply quote_bytes_prefix_free in E1. now destruct E1 as [-> _].
  - rewrite !append_assoc in E1. cbn [append] in E1.
    apply quote_bytes_prefix_free in E1. destruct E1 as [-> E1].
    injection E1 as E1.
    apply quote_bytes_prefix_free in E1. now destruct E1 as [-> _].
Qed.

Lemma error_message_injective_witness :
  errUnknownUnit "x" "5x" = errUnknownUnit "x" "5x".
Proof.
  apply (error_message_injective _ _
           (String.concat EmptyString
              ["time: unknown unit "; String "034" "x"; String "034" " in duration ";
               String "034" "5x"; String "034" EmptyString]));
    reflexivity.
Defined.

(** ** White space around a time expression *)

Lemma string_rev_append (a b : string) :
  string_rev (a ++ b) = string_rev b ++ string_rev a.
Proof.
  induction a as [|c a IH]; cbn [append string_rev].
  - now rewrite append_nil_r.
  - now rewrite IH, append_assoc.
Qed.

Lemma string_rev_involutive (s : string) : string_rev (string_rev s) = s.
Proof.
  induction s as [|c s IH]; cbn [string_rev]; [reflexivity|].
  rewrite string_rev_append, IH. reflexivity.
Qed.

Lemma string_rev_length (s : string) :
  String.length (string_rev s) = String.length s.
Proof.
  induction s as [|c s IH]; cbn [string_rev String.length]; [reflexivity|].
  rewrite length_append, IH. cbn. lia.
Qed.

Lemma all_bytes_rev (p : ascii -> bool) (s : string) :
  all_bytes p (string_rev s) = all_bytes p s.
Proof.
  induction s as [|c s IH]; cbn [string_rev all_bytes]; [reflexivity|].
  rewrite all_bytes_append, IH. cbn [all_bytes].
  now rewrite andb_true_r, andb_comm.
Qed.

Lemma ascii_space_cases (c : ascii) :
  ascii_space c = true ->
  c = "009"%char \/ c = "010"%char \/ c = "011"%char \/ c = "012"%char
  \/ c = "013"%char \/ c = "032"%char.
Proof.
  unfold ascii_space. intros H.
  assert (Hb : byte c = 9 \/ byte c = 10 \/ byte c = 11 \/ byte c = 12
               \/ byte c = 13 \/ byte c = 32).
  { apply orb_true_iff in H. destruct H as [H|H].
    - apply andb_true_iff in H. destruct H as [H1 H2].
      apply Z.leb_le in H1, H2. lia.
    - apply Z.eqb_eq in H. lia. }
  repeat (destruct Hb as [Hb|Hb];
          [match type of Hb with byte c = ?n =>
             apply (byte_inj c (byte_char n)) in Hb end; subst c; tauto|]).
  apply (byte_inj c (byte_char 32)) in Hb. subst c. tauto.
Qed.

(** A byte of ASCII white space is a space of one byte, read forwards or
    backwards. *)
Lemma leading_space_ascii (c : ascii) (t : string) :
  ascii_space c = true ->
  leading_space space_runes (String c t) = 1%nat
  /\ leading_space (map string_rev space_runes) (String c t) = 1%nat.
Proof.
  intros H.
  destruct (ascii_space_cases c H) as [-> | [-> | [-> | [-> | [-> | ->]]]]];
    split; destruct t; vm_compute; reflexivity.
Qed.

(** No space starts with a visible ASCII byte, read forwards or backwards. *)
Lemma find_prefix_none (runes : list string) (c : ascii) (t : string) :
  forallb (fun r => match r with
                    | EmptyString => false
                    | String r0 _ => negb (graphic_byte r0)
                    end) runes = true ->
  graphic_byte c = true ->
  find (fun r => String.prefix r (String c t)) runes = None.
Proof.
  intros Hall Hc. induction runes as [|r runes IH]; [reflexivity|].
  cbn [forallb] in Hall. apply andb_true_iff in Hall. destruct Hall as [Hr Hall].
  cbn [find]. destruct r as [|r0 r']; [discriminate|].
  cbn [String.prefix]. destruct (ascii_dec r0 c) as [->|_].
  - rewrite Hc in Hr. discriminate.
  - now apply IH.
Qed.

Lemma leading_space_graphic (c : ascii) (t : string) :
  graphic_byte c = true ->
  leading_space space_runes (String c t) = 0%nat
  /\ leading_space (map string_rev space_runes) (String c t) = 0%nat.
Proof.
  intros H. unfold leading_space.
  rewrite !find_prefix_none; [now split| |exact H| |exact H];
    vm_compute; reflexivity.
Qed.

Lemma trim_start_stop (fuel : nat) (runes : list string) (s : string) :
  leading_space runes s = 0%nat -> trim_start fuel runes s = s.
Proof. intros H. destruct fuel; cbn [trim_start]; [reflexivity|now rewrite H]. Qed.

Lemma trim_start_spaces (runes : list string) (ws x : string) (fuel : nat) :
  (forall c t, ascii_space c = true -> leading_space runes (String c t) = 1%nat) ->
  all_bytes ascii_space ws = true -> (String.length ws <= fuel)%nat ->
  trim_start fuel runes (ws ++ x)
  = trim_start (fuel - String.length ws) runes x.
Proof.
  intros Hone. revert fuel. induction ws as [|c ws IH]; intros fuel Hws Hlen.
  - cbn [append String.length]. now rewrite Nat.sub_0_r.
  - cbn [all_bytes] in Hws. apply andb_true_iff in Hws. destruct Hws as [Hc Hws].
    cbn [String.length] in Hlen. destruct fuel as [|fuel]; [lia|].
    cbn [append trim_start]. rewrite (Hone c _ Hc). cbn [drop].
    rewrite IH by (auto; lia). reflexivity.
Qed.

(** [TrimSpace] takes the ASCII white space off both ends of a text that
    starts and ends with a visible ASCII byte. *)
Lemma TrimSpace_padding (ws1 ws2 s : string) (c l : ascii) (t : string) :
  all_bytes ascii_space ws1 = true -> all_bytes ascii_space ws2 = true ->
  s = String c t -> graphic_byte c = true ->
  last_byte s = Some l -> graphic_byte l = true ->
  TrimSpace (ws1 ++ s ++ ws2) = s.
Proof.
  intros H1 H2 Es Hc Hl Hgl. unfold TrimSpace.
  assert (E1 : trim_start (String.length (ws1 ++ s ++ ws2)) space_runes
                 (ws1 ++ s ++ ws2) = s ++ ws2).
  { rewrite (trim_start_spaces space_runes ws1 (s ++ ws2) _
               (fun c0 t0 H => proj1 (leading_space_ascii c0 t0 H)) H1)
      by (rewrite length_append; lia).
    rewrite Es. cbn [append]. apply trim_start_stop.
    exact (proj1 (leading_space_graphic c _ Hc)). }
  rewrite E1. rewrite string_rev_append.
  unfold last_byte in Hl. destruct (string_rev s) as [|l' r] eqn:Er;
    [discriminate|]. injection Hl as ->.
  rewrite (trim_start_spaces (map string_rev space_runes) (string_rev ws2)
             (String l r) _
             (fun c0 t0 H => proj2 (leading_space_ascii c0 t0 H)))
    by (rewrite ?all_bytes_rev, ?length_append, ?string_rev_length;
        first [exact H2 | lia]).
  rewrite (trim_start_stop _ _ _ (proj2 (leading_space_graphic l r Hgl))).
  rewrite <- Er. apply string_rev_involutive.
Qed.

(** X16.  ASCII white space around a time expression that starts and ends with a
    visible ASCII byte changes nothing. *)
Theorem ParseExprRef_padding (time_Parse : string -> string -> result Time)
    (ws1 ws2 s : string) (c l : ascii) (t : string) (ref : Time) :
  all_bytes ascii_space ws1 = true -> all_bytes ascii_space ws2 = true ->
  s = String c t -> graphic_byte c = true ->
  last_byte s = Some l -> graphic_byte l = true ->
  ParseExprRef time_Parse (ws1 ++ s ++ ws2) ref = ParseExprRef time_Parse s ref.
Proof.
  intros H1 H2 Es Hc Hl Hgl. unfold ParseExprRef.
  rewrite (TrimSpace_padding ws1 ws2 s c l t H1 H2 Es Hc Hl Hgl).
  pose proof (TrimSpace_padding EmptyString EmptyString s c l t
                eq_refl eq_refl Es Hc Hl Hgl) as E.
  cbn [append] in E. rewrite append_nil_r in E. now rewrite E.
Qed.

Lemma ParseExprRef_padding_witness :
  ParseExprRef (fun layout value => Err (errParse layout value))
    ("  " ++ "now" ++ " ") (time_Date 2024 11 14 18 17 0 0 0)
  = ParseExprRef (fun layout value => Err (errParse layout value))
      "now" (time_Date 2024 11 14 18 17 0 0 0).
Proof.
  apply (ParseExprRef_padding _ "  " " " "now" "n" "w" "ow"); reflexivity.
Defined.

(** X17.  An input of nothing but ASCII white space, the empty input among them,
    is the error [errNoTimeSpecified]. *)
Theorem ParseExprRef_blank (time_Parse : string -> string -> result Time)
    (ws : string) (ref : Time) :
  all_bytes ascii_space ws = true ->
  ParseExprRef time_Parse ws ref = Some (Err errNoTimeSpecified).
Proof.
  intros H. unfold ParseExprRef.
  assert (E : TrimSpace ws = EmptyString).
  { assert (E0 : trim_start (String.length ws) space_runes ws = EmptyString).
    { pose proof (trim_start_spaces space_runes ws EmptyString
                    (String.length ws)
                    (fun c0 t0 H0 => proj1 (leading_space_ascii c0 t0 H0)) H
                    (le_n _)) as E0.
      rewrite append_nil_r in E0. rewrite E0.
      apply trim_start_stop. reflexivity. }
    unfold TrimSpace. rewrite E0. reflexivity. }
  rewrite E. reflexivity.
Qed.

Lemma ParseExprRef_blank_witness :
  ParseExprRef (fun layout value => Err (errParse layout value))
    (String "009" " ") (time_Date 2024 11 14 18 17 0 0 0)
  = Some (Err errNoTimeSpecified).
Proof. apply ParseExprRef_blank. reflexivity. Defined.

(** ** Offsets from the reference time *)

Lemma last_byte_append (a b : string) :
  last_byte (a ++ b)
  = match last_byte b with Some l => Some l | None => last_byte a end.
Proof.
  unfold last_byte. rewrite string_rev_append.
  destruct (string_rev b); reflexivity.
Qed.

Lemma last_byte_some (c : ascii) (t : string) :
  exists l, last_byte (String c t) = Some l.
Proof.
  change (String c t) with (String c EmptyString ++ t).
  rewrite last_byte_append.
  destruct (last_byte t) as [l|]; [exists l|exists c]; reflexivity.
Qed.

Lemma ends_graphic_append (a b : string) :
  ends_graphic a = true -> ends_graphic b = true ->
  ends_graphic (a ++ b) = true.
Proof.
  unfold ends_graphic. rewrite last_byte_append.
  now destruct (last_byte b).
Qed.

Lemma ends_graphic_component (v : Z) (u : string) (l : ascii) :
  last_byte u = Some l -> graphic_byte l = true ->
  ends_graphic (component v u) = true.
Proof.
  intros Hu Hl. unfold component. destruct (v =? 0); [reflexivity|].
  unfold ends_graphic. now rewrite last_byte_append, Hu.
Qed.

(** The canonical rendering of a positive duration ends with a unit
    letter. *)
Lemma FormatDuration_last (d : Z) :
  0 < d <= I64.max ->
  exists c t l, FormatDuration d = String c t
                /\ last_byte (FormatDuration d) = Some l
                /\ graphic_byte l = true.
Proof.
  intros Hd.
  assert (He : ends_graphic (FormatDuration d) = true).
  { rewrite FormatDuration_components by exact Hd.
    repeat (apply ends_graphic_append);
      eapply ends_graphic_component; reflexivity. }
  pose proof (parses_FormatDuration EmptyString d Hd) as Hp.
  destruct (FormatDuration d) as [|c t] eqn:E.
  - destruct Hp as [[|f] Hp]; cbn in Hp; injection Hp as Hp; lia.
  - destruct (last_byte_some c t) as [l Hl]. exists c, t, l.
    unfold ends_graphic in He. rewrite Hl in He. now repeat split.
Qed.

(** An expression that starts with a sign and ends with a visible ASCII
    byte is read as a duration and added to the reference time. *)
Lemma ParseExprRef_signed (time_Parse : string -> string -> result Time)
    (f l : ascii) (t : string) (ref : Time) :
  f = "+"%char \/ f = "-"%char ->
  last_byte (String f t) = Some l -> graphic_byte l = true ->
  ParseExprRef time_Parse (String f t) ref
  = match ParseDuration (String f t) with
    | None => None
    | Some (Err e) => Some (Err e)
    | Some (Ok d) => Some (Ok (Time_Add ref d))
    end.
Proof.
  intros Hf Hl Hg. unfold ParseExprRef.
  pose proof (TrimSpace_padding EmptyString EmptyString (String f t) f l t
                eq_refl eq_refl eq_refl
                ltac:(destruct Hf as [-> | ->]; reflexivity) Hl Hg) as E.
  cbn [append] in E. rewrite append_nil_r in E. rewrite E.
  destruct Hf as [-> | ->]; reflexivity.
Qed.

(** [addSec] holds the seconds at the largest [int64] when the sum passes
    it, and at the opposite of that when the sum is below the smallest. *)
Lemma Time_addSec_over (sec d : Z) :
  I64.min <= sec <= I64.max -> I64.min <= d <= I64.max ->
  I64.max < sec + d -> Time_addSec sec d = I64.max.
Proof.
  unfold Time_addSec, I64.add, I64.wrap, I64.min, I64.max.
  change (2 ^ 63) with 9223372036854775808.
  change (2 ^ 64) with 18446744073709551616.
  intros Hs Hd Ho. cbv zeta.
  replace ((sec + d + 9223372036854775808) mod 18446744073709551616)
    with (sec + d + 9223372036854775808 - 18446744073709551616)
    by (apply (Z.mod_unique _ _ 1); [left; lia|lia]).
  destruct (Z.gtb_spec
              (sec + d + 9223372036854775808 - 18446744073709551616
               - 9223372036854775808) sec); [lia|].
  destruct (Z.gtb_spec d 0); [reflexivity|lia].
Qed.

Lemma Time_addSec_under (sec d : Z) :
  I64.min <= sec <= I64.max -> I64.min <= d <= I64.max ->
  sec + d < I64.min -> Time_addSec sec d = - I64.max.
Proof.
  unfold Time_addSec, I64.add, I64.wrap, I64.min, I64.max.
  change (2 ^ 63) with 9223372036854775808.
  change (2 ^ 64) with 18446744073709551616.
  intros Hs Hd Ho. cbv zeta.
  replace ((sec + d + 9223372036854775808) mod 18446744073709551616)
    with (sec + d + 9223372036854775808 + 18446744073709551616)
    by (apply (Z.mod_unique _ _ (-1)); [left; lia|lia]).
  destruct (Z.gtb_spec
              (sec + d + 9223372036854775808 + 18446744073709551616
               - 9223372036854775808) sec); [|lia].
  destruct (Z.gtb_spec d 0); [lia|reflexivity].
Qed.

(** [addSec] returns [int64] seconds. *)
Lemma Time_addSec_range (sec d : Z) :
  I64.min <= sec <= I64.max -> I64.min <= d <= I64.max ->
  I64.min <= Time_addSec sec d <= I64.max.
Proof.
  intros Hs Hd.
  destruct (Z.lt_ge_cases I64.max (sec + d)) as [Ho|Hle].
  - rewrite Time_addSec_over by assumption. unfold I64.min, I64.max. lia.
  - destruct (Z.lt_ge_cases (sec + d) I64.min) as [Hu|Hge].
    + rewrite Time_addSec_under by assumption. unfold I64.min, I64.max. lia.
    + rewrite Time_addSec_exact by lia. lia.
Qed.

(** The seconds [Time_Add] and [time_Date] return are an [int64], whatever
    they are given. *)
Lemma I64_wrap_range (x : Z) : I64.min <= I64.wrap x <= I64.max.
Proof.
  unfold I64.wrap, I64.min, I64.max.
  change (2 ^ 63) with 9223372036854775808.
  change (2 ^ 64) with 18446744073709551616.
  pose proof (Z.mod_pos_bound (x + 9223372036854775808) 18446744073709551616
                ltac:(lia)). lia.
Qed.

Lemma Time_Add_int64 (t : Time) (d : Z) :
  I64.min <= abs_sec (Time_Add t d) <= I64.max.
Proof.
  assert (H : forall sec x, I64.min <= Time_addSec sec x <= I64.max).
  { intros sec x. unfold Time_addSec, I64.add. cbv zeta.
    pose proof (I64_wrap_range (sec + x)) as Hw.
    destruct (Bool.eqb _ _); [exact Hw|].
    unfold I64.min, I64.max. change (2 ^ 63) with 9223372036854775808.
    destruct (x >? 0); lia. }
  unfold Time_Add.
  destruct (_ >=? _); [|destruct (_ <? _)]; cbn [abs_sec]; apply H.
Qed.

Lemma time_Date_int64 (year month day hour min sec ns off : Z) :
  Time_wf (time_Date year month day hour min sec ns off).
Proof.
  unfold Time_wf, time_Date. cbn [abs_sec nsec].
  split; [apply I64_wrap_range|apply Z.mod_pos_bound; lia].
Qed.

(** [Add] keeps the location and returns a value a [time.Time] holds.  It
    moves the instant by the duration when the seconds of the new instant
    are an [int64]; otherwise it holds the seconds at the end of the range
    that was passed. *)
Lemma Time_Add_instant (t : Time) (d : Z) :
  I64.min <= d <= I64.max -> Time_wf t ->
  Time_wf (Time_Add t d)
  /\ zone_offset (Time_Add t d) = zone_offset t
  /\ (I64.min * 1000000000 <= instant_ns t + d < (I64.max + 1) * 1000000000 ->
      instant_ns (Time_Add t d) = instant_ns t + d)
  /\ ((I64.max + 1) * 1000000000 <= instant_ns t + d ->
      abs_sec (Time_Add t d) = I64.max)
  /\ (instant_ns t + d < I64.min * 1000000000 ->
      abs_sec (Time_Add t d) = - I64.max).
Proof.
  intros Hd [Hsec Hns].
  assert (Emin : I64.min = -9223372036854775808) by reflexivity.
  assert (Emax : I64.max = 9223372036854775807) by reflexivity.
  pose proof (Z.quot_rem' d 1000000000) as E.
  pose proof (Z.rem_bound_abs d 1000000000 ltac:(lia)) as Hr.
  assert (Hq : I64.min <= Z.quot d 1000000000 <= I64.max) by lia.
  unfold Time_Add, Time_wf, instant_ns, I64.quot, I64.rem.
  rewrite (I64_wrap_small _ Hq).
  set (q := Z.quot d 1000000000) in *. set (r := Z.rem d 1000000000) in *.
  assert (Hcase : forall dsec ns,
             I64.min <= dsec <= I64.max -> 0 <= ns < 1000000000 ->
             (abs_sec t + dsec) * 1000000000 + ns
             = abs_sec t * 1000000000 + nsec t + d ->
             let t' := mkTime (Time_addSec (abs_sec t) dsec) ns (zone_offset t) in
             ((I64.min <= abs_sec t' <= I64.max) /\ 0 <= nsec t' < 1000000000)
             /\ zone_offset t' = zone_offset t
             /\ (I64.min * 1000000000 <= abs_sec t * 1000000000 + nsec t + d
                 < (I64.max + 1) * 1000000000 ->
                 abs_sec t' * 1000000000 + nsec t'
                 = abs_sec t * 1000000000 + nsec t + d)
             /\ ((I64.max + 1) * 1000000000
                 <= abs_sec t * 1000000000 + nsec t + d ->
                 abs_sec t' = I64.max)
             /\ (abs_sec t * 1000000000 + nsec t + d < I64.min * 1000000000 ->
                 abs_sec t' = - I64.max)).
  { intros dsec ns Hdsec Hn Ei t'. subst t'. cbn [abs_sec nsec zone_offset].
    pose proof (Time_addSec_range (abs_sec t) dsec Hsec Hdsec) as Hrange.
    split; [split; [exact Hrange|exact Hn]|]. split; [reflexivity|].
    split; [|split].
    - intros Hin. rewrite Time_addSec_exact by lia. exact Ei.
    - intros Hov. apply Time_addSec_over; [exact Hsec|exact Hdsec|lia].
    - intros Hun. apply Time_addSec_under; [exact Hsec|exact Hdsec|lia]. }
  destruct (Z.geb_spec (nsec t + r) 1000000000);
    [|destruct (Z.ltb_spec (nsec t + r) 0)]; apply Hcase; lia.
Qed.

(** X18.  A sign and the canonical rendering of a positive duration give the
    reference time moved by that duration, forwards after a plus sign and
    backwards after a minus sign, in the location of the reference time,
    whenever the seconds of the new instant are an [int64]; when they are
    not, the seconds are held at the largest [int64], or at its opposite. *)
Theorem ParseExprRef_offset (time_Parse : string -> string -> result Time)
    (d : Z) (ref : Time) :
  0 < d <= I64.max -> Time_wf ref ->
  exists later earlier,
    ParseExprRef time_Parse (String "+" (FormatDuration d)) ref
    = Some (Ok later)
    /\ ParseExprRef time_Parse (String "-" (FormatDuration d)) ref
       = Some (Ok earlier)
    /\ (instant_ns ref + d < (I64.max + 1) * 1000000000 ->
        instant_ns later = instant_ns ref + d)
    /\ ((I64.max + 1) * 1000000000 <= instant_ns ref + d ->
        abs_sec later = I64.max)
    /\ (I64.min * 1000000000 <= instant_ns ref - d ->
        instant_ns earlier = instant_ns ref - d)
    /\ (instant_ns ref - d < I64.min * 1000000000 ->
        abs_sec earlier = - I64.max)
    /\ Time_wf later /\ Time_wf earlier
    /\ zone_offset later = zone_offset ref
    /\ zone_offset earlier = zone_offset ref.
Proof.
  intros Hd Hwf.
  destruct (FormatDuration_last d Hd) as (c & t & l & Ef & Hl & Hg).
  pose proof (parses_FormatDuration EmptyString d Hd) as Hp.
  assert (Hne : FormatDuration d <> EmptyString) by (rewrite Ef; discriminate).
  assert (Hlast : forall f, last_byte (String f (FormatDuration d)) = Some l).
  { intros f. change (String f (FormatDuration d))
      with (String f EmptyString ++ FormatDuration d).
    now rewrite last_byte_append, Hl. }
  assert (Emin : I64.min = -9223372036854775808) by reflexivity.
  assert (Emax : I64.max = 9223372036854775807) by reflexivity.
  assert (Eplus : ParseDuration (String "+" (FormatDuration d)) = Some (Ok d)).
  { destruct (ParseDuration_final (String "+" (FormatDuration d)) false
                (FormatDuration d) d) as [_ ->];
      [reflexivity|exact Hne|exact (parses_orig _ _ _ _ _ Hp)|].
    change (2 ^ 63) with 9223372036854775808.
    destruct (Z.eqb_spec d 9223372036854775808); [lia|reflexivity]. }
  assert (Eminus : ParseDuration (String "-" (FormatDuration d))
                   = Some (Ok (- d))).
  { destruct (ParseDuration_final (String "-" (FormatDuration d)) true
                (FormatDuration d) d) as [_ ->];
      [reflexivity|exact Hne|exact (parses_orig _ _ _ _ _ Hp)|reflexivity]. }
  exists (Time_Add ref d), (Time_Add ref (- d)).
  rewrite (ParseExprRef_signed time_Parse "+" l _ ref (or_introl eq_refl)
             (Hlast _) Hg), Eplus.
  rewrite (ParseExprRef_signed time_Parse "-" l _ ref (or_intror eq_refl)
             (Hlast _) Hg), Eminus.
  destruct (Time_Add_instant ref d ltac:(lia) Hwf)
    as (W1 & Z1 & I1 & O1 & _).
  destruct (Time_Add_instant ref (- d) ltac:(lia) Hwf)
    as (W2 & Z2 & I2 & _ & U2).
  destruct Hwf as [Hsec Hns]. unfold instant_ns in *.
  split; [reflexivity|]. split; [reflexivity|].
  split; [intros H; apply I1; lia|].
  split; [intros H; apply O1; lia|].
  split; [intros H; apply I2; lia|].
  split; [intros H; apply U2; lia|].
  split; [exact W1|]. split; [exact W2|]. split; assumption.
Qed.

Lemma ParseExprRef_offset_witness :
  exists later earlier,
    ParseExprRef (fun layout value => Err (errParse layout value))
      (String "+" (FormatDuration 5400000000000))
      (time_Date 2024 11 14 18 17 0 0 0)
    = Some (Ok later)
    /\ ParseExprRef (fun layout value => Err (errParse layout value))
         (String "-" (FormatDuration 5400000000000))
         (time_Date 2024 11 14 18 17 0 0 0)
       = Some (Ok earlier)
    /\ (instant_ns (time_Date 2024 11 14 18 17 0 0 0) + 5400000000000
        < (I64.max + 1) * 1000000000 ->
        instant_ns later
        = instant_ns (time_Date 2024 11 14 18 17 0 0 0) + 5400000000000)
    /\ ((I64.max + 1) * 1000000000
        <= instant_ns (time_Date 2024 11 14 18 17 0 0 0) + 5400000000000 ->
        abs_sec later = I64.max)
    /\ (I64.min * 1000000000
        <= instant_ns (time_Date 2024 11 14 18 17 0 0 0) - 5400000000000 ->
        instant_ns earlier
        = instant_ns (time_Date 2024 11 14 18 17 0 0 0) - 5400000000000)
    /\ (instant_ns (time_Date 2024 11 14 18 17 0 0 0) - 5400000000000
        < I64.min * 1000000000 ->
        abs_sec earlier = - I64.max)
    /\ Time_wf later /\ Time_wf earlier
    /\ zone_offset later = zone_offset (time_Date 2024 11 14 18 17 0 0 0)
    /\ zone_offset earlier = zone_offset (time_Date 2024 11 14 18 17 0 0 0).
Proof.
  apply ParseExprRef_offset;
    [unfold I64.max; lia
    |vm_compute; repeat split; first [discriminate|reflexivity]].
Defined.

(** Six seconds before the last second a [time.Time] holds, one minute
    later is that last second. *)
Lemma ParseExprRef_offset_saturates
    (time_Parse : string -> string -> result Time) :
  ParseExprRef time_Parse "+1m" (mkTime (2 ^ 63 - 6) 0 0)
  = Some (Ok (mkTime (2 ^ 63 - 1) 0 0))
  /\ ParseExprRef time_Parse "-1m" (mkTime (- 2 ^ 63 + 6) 0 0)
     = Some (Ok (mkTime (- (2 ^ 63 - 1)) 0 0)).
Proof. split; reflexivity. Qed.

(** ** Days around the reference time *)

(** The two calendar conversions are inverse to each other: the civil date
    of a day number has a month from 1 to 12 and a day from 1 to 31, and
    leads back to the day number. *)
Lemma civil_round_trip (z : Z) :
  let '(y, m, d) := civil_from_days z in
  days_from_civil y m d = z /\ 1 <= m <= 12 /\ 1 <= d <= 31.
Proof.
  unfold civil_from_days, days_from_civil.
  set (z' := z + 306).
  set (era := z' / 146097).
  set (doe := z' - era * 146097).
  assert (Hdoe : 0 <= doe < 146097).
  { subst doe era. pose proof (Z.div_mod z' 146097 ltac:(lia)).
    pose proof (Z.mod_pos_bound z' 146097 ltac:(lia)). lia. }
  set (yoe := (doe - doe / 1460 + doe / 36524 - doe / 146096) / 365).
  assert (Hyoe : 0 <= yoe < 400).
  { subst yoe. Z.div_mod_to_equations. lia. }
  set (doy := doe - (365 * yoe + yoe / 4 - yoe / 100)).
  assert (Hdoy : 0 <= doy < 366).
  { subst doy yoe. Z.div_mod_to_equations. lia. }
  set (mp := (5 * doy + 2) / 153).
  assert (Hmp : 0 <= mp < 12).
  { subst mp. Z.div_mod_to_equations. lia. }
  set (d := doy - (153 * mp + 2) / 5 + 1).
  assert (Hd : 1 <= d <= 31).
  { subst d mp. Z.div_mod_to_equations. lia. }
  destruct (Z.ltb_spec mp 10) as [Hlt|Hge].
  - destruct (Z.leb_spec (mp + 3) 2); [lia|].
    destruct (Z.gtb_spec (mp + 3) 2); [|lia].
    replace (mp + 3 - 3) with mp by lia.
    split; [|lia].
    assert (E1 : (yoe + era * 400) / 400 = era).
    { symmetry. apply (Z.div_unique _ _ _ yoe); lia. }
    rewrite E1.
    replace (yoe + era * 400 - era * 400) with yoe by lia.
    subst d doy. fold z'. 
    assert (doe = yoe * 365 + yoe / 4 - yoe / 100 + (doe - (365 * yoe + yoe / 4 - yoe / 100))) by lia.
    subst doe. lia.
  - destruct (Z.leb_spec (mp - 9) 2); [|lia].
    destruct (Z.gtb_spec (mp - 9) 2); [lia|].
    replace (mp - 9 + 9) with mp by lia.
    split; [|lia].
    replace (yoe + era * 400 + 1 - 1) with (yoe + era * 400) by lia.
    assert (E1 : (yoe + era * 400) / 400 = era).
    { symmetry. apply (Z.div_unique _ _ _ yoe); lia. }
    rewrite E1.
    replace (yoe + era * 400 - era * 400) with yoe by lia.
    subst d doy doe. lia.
Qed.

Lemma days_from_civil_shift (y m d k : Z) :
  days_from_civil y m (d + k) = days_from_civil y m d + k.
Proof. unfold days_from_civil. cbv zeta. lia. Qed.

(** In a location with a fixed offset, [AddDate] by a number of days moves
    the instant by that many times 24 hours, in 64-bit arithmetic. *)
Lemma Time_AddDate_days (t : Time) (k : Z) :
  0 <= nsec t < 1000000000 ->
  Time_AddDate t 0 0 k
  = mkTime (I64.wrap (abs_sec t + secondsPerDay * k)) (nsec t) (zone_offset t).
Proof.
  intros Hns. unfold Time_AddDate, Time_Date, Time_Clock.
  pose proof (civil_round_trip (local_sec t / secondsPerDay)) as H.
  destruct (civil_from_days (local_sec t / secondsPerDay)) as [[y m] d].
  destruct H as (E & Hm & Hd). unfold time_Date.
  rewrite !Z.add_0_r.
  rewrite (Z.div_small (m - 1) 12) by lia.
  rewrite (Z.mod_small (m - 1) 12) by lia.
  rewrite (Z.div_small (nsec t)) by lia.
  rewrite (Z.mod_small (nsec t)) by lia.
  rewrite !Z.add_0_r. replace (m - 1 + 1) with m by lia.
  rewrite days_from_civil_shift, E.
  unfold secondsPerDay, local_sec. do 2 f_equal.
  Z.div_mod_to_equations. lia.
Qed.

(** The absolute zero year of the package starts at [absoluteToInternal]. *)
Lemma absoluteToInternal_date :
  days_from_civil (-292277022399) 1 1 * secondsPerDay = absoluteToInternal
  /\ I64.min < absoluteToInternal.
Proof. split; reflexivity. Qed.

(** X19.  ["yesterday"], ["today"] and ["tomorrow"] are three instants 24 hours
    apart, in the location of the reference time and with no fraction of a
    second; the reference time lies in the 24 hours that start at
    ["today"].  This is so for a reference time in a location at most a day
    from UTC, from two days after the calendar of the package starts to a
    day before the last [int64] second: there the three instants have
    [int64] seconds and the calendar is not asked for a day before its
    absolute zero year. *)
Theorem ParseExprRef_days (time_Parse : string -> string -> result Time)
    (ref : Time) :
  0 <= nsec ref < 1000000000 ->
  - secondsPerDay <= zone_offset ref <= secondsPerDay ->
  absoluteToInternal + 2 * secondsPerDay <= abs_sec ref
  <= I64.max - secondsPerDay ->
  exists today,
    ParseExprRef time_Parse "today" ref
    = Some (Ok (mkTime today 0 (zone_offset ref)))
    /\ ParseExprRef time_Parse "yesterday" ref
       = Some (Ok (mkTime (today - 86400) 0 (zone_offset ref)))
    /\ ParseExprRef time_Parse "tomorrow" ref
       = Some (Ok (mkTime (today + 86400) 0 (zone_offset ref)))
    /\ today <= abs_sec ref < today + 86400
    /\ today mod 86400 = 0
    /\ absoluteToInternal <= today - 86400 + zone_offset ref
    /\ today + 86400 <= I64.max.
Proof.
  intros Hns Hzone Hsec.
  assert (Emin : I64.min = -9223372036854775808) by reflexivity.
  assert (Emax : I64.max = 9223372036854775807) by reflexivity.
  assert (Eabs : absoluteToInternal = -9223371966579724800) by reflexivity.
  unfold secondsPerDay in *.
  exists (86400 * (abs_sec ref / 86400)).
  change (ParseExprRef time_Parse "today" ref)
    with (Some (Ok (Time_Truncate ref (I64.mul Hour 24)))).
  change (ParseExprRef time_Parse "yesterday" ref)
    with (Some (Ok (Time_AddDate (Time_Truncate ref (I64.mul Hour 24)) 0 0 (-1)))).
  change (ParseExprRef time_Parse "tomorrow" ref)
    with (Some (Ok (Time_AddDate (Time_Truncate ref (I64.mul Hour 24)) 0 0 1))).
  rewrite Time_Truncate_day by (unfold secondsPerDay; lia).
  rewrite !Time_AddDate_days by (cbn [nsec]; lia).
  cbn [abs_sec nsec zone_offset]. unfold secondsPerDay.
  pose proof (Z.div_mod (abs_sec ref) 86400 ltac:(lia)) as Ediv.
  pose proof (Z.mod_pos_bound (abs_sec ref) 86400 ltac:(lia)) as Hmod.
  rewrite !I64_wrap_small by lia.
  repeat split; try (do 3 f_equal; lia); try lia.
  rewrite Z.mul_comm. apply Z.mod_mul. lia.
Qed.

Lemma ParseExprRef_days_witness :
  exists today,
    ParseExprRef (fun layout value => Err (errParse layout value))
      "today" (time_Date 2024 11 14 2 0 0 0 (5 * 3600))
    = Some (Ok (mkTime today 0
                  (zone_offset (time_Date 2024 11 14 2 0 0 0 (5 * 3600)))))
    /\ ParseExprRef (fun layout value => Err (errParse layout value))
         "yesterday" (time_Date 2024 11 14 2 0 0 0 (5 * 3600))
       = Some (Ok (mkTime (today - 86400) 0
                     (zone_offset (time_Date 2024 11 14 2 0 0 0 (5 * 3600)))))
    /\ ParseExprRef (fun layout value => Err (errParse layout value))
         "tomorrow" (time_Date 2024 11 14 2 0 0 0 (5 * 3600))
       = Some (Ok (mkTime (today + 86400) 0
                     (zone_offset (time_Date 2024 11 14 2 0 0 0 (5 * 3600)))))
    /\ today <= abs_sec (time_Date 2024 11 14 2 0 0 0 (5 * 3600))
       < today + 86400
    /\ today mod 86400 = 0
    /\ absoluteToInternal
       <= today - 86400 + zone_offset (time_Date 2024 11 14 2 0 0 0 (5 * 3600))
    /\ today + 86400 <= I64.max.
Proof.
  apply ParseExprRef_days;
    vm_compute; repeat split; first [discriminate|reflexivity].
Defined.
